(** * Narrative-to-record extraction: [formatTechnicalSeoResults] and
    [formatContentResults] of [src/agents/technicalSeoAgent.ts]

    The two formatter functions turn the narrator's prose into typed records
    with regular expressions, substring tests and a little arithmetic on
    JavaScript numbers.  So does [formatKeywordResults] of the keyword
    research agent, and the result views colour the badges of the labels
    that the three functions give ([getBadgeColor], [getPriorityColor],
    [getEffortColor]).  This development embeds them in Rocq:

    - a JavaScript string is the list of its UTF-16 code units;
    - a JavaScript number is a binary64 float (the kernel's primitive floats);
    - a regular expression is a syntax tree run by a backtracking matcher that
      follows the priorities of the ECMAScript matcher (greedy and lazy
      quantifiers, ordered alternatives, capture groups, leftmost match);
    - a call either returns, throws or fails to terminate ([outcome]);
    - [toLowerCase] and [toUpperCase], which follow the Unicode tables of the
      platform, are parameters of the functions that call them.

    The definitions come first, module by module in the order of the source;
    the properties follow. *)

From Stdlib Require Import ZArith NArith String Ascii Bool Lia.
From Stdlib Require Import Floats List Permutation.
Import ListNotations.

Set Implicit Arguments.
Set Warnings "-inexact-float,-notation-for-abbreviation".

(* ================================================================== *)
(** * Strings *)
(* ================================================================== *)

Module JsString.

(** A string value: its UTF-16 code units. *)
Definition jsstring : Type := list N.

(** A literal of the source, written as a Rocq string (ASCII only). *)
Definition js (s : string) : jsstring :=
  map N_of_ascii (list_ascii_of_string s).

Definition LF : N := 10.
Definition QUOTE : N := 34.

(** WhiteSpace and LineTerminator of ECMA-262: what [\s] matches and what
    [trim] removes. *)
Definition isWhiteSpace (c : N) : bool :=
  ((9 <=? c) && (c <=? 13) || (c =? 32) || (c =? 160) || (c =? 5760)
   || (8192 <=? c) && (c <=? 8202) || (c =? 8232) || (c =? 8233)
   || (c =? 8239) || (c =? 8287) || (c =? 12288) || (c =? 65279))%N.

(** LineTerminator: what [.] refuses. *)
Definition isLineTerminator (c : N) : bool :=
  ((c =? 10) || (c =? 13) || (c =? 8232) || (c =? 8233))%N.

Definition isDigit (c : N) : bool := ((48 <=? c) && (c <=? 57))%N.

Fixpoint trimStart (s : jsstring) : jsstring :=
  match s with
  | c :: s' => if isWhiteSpace c then trimStart s' else s
  | [] => []
  end.

Definition trimEnd (s : jsstring) : jsstring := rev (trimStart (rev s)).

(** [s.trim()] *)
Definition trim (s : jsstring) : jsstring := trimEnd (trimStart s).

Fixpoint startsWith (s p : jsstring) : bool :=
  match p, s with
  | [], _ => true
  | a :: p', b :: s' => (a =? b)%N && startsWith s' p'
  | _ :: _, [] => false
  end.

(** [s.endsWith(p)] *)
Definition endsWith (s p : jsstring) : bool := startsWith (rev s) (rev p).

(** [s.includes(sub)] *)
Fixpoint includes (s sub : jsstring) : bool :=
  startsWith s sub ||
  match s with
  | [] => false
  | _ :: s' => includes s' sub
  end.

(** [s.substring(start)] and [s.substring(0, n)] *)
Definition substring_from (start : nat) (s : jsstring) : jsstring := skipn start s.
Definition substring_to (n : nat) (s : jsstring) : jsstring := firstn n s.

(** [s.charAt(0)] and [s.slice(1)] *)
Definition charAt0 (s : jsstring) : jsstring := firstn 1 s.
Definition slice1 (s : jsstring) : jsstring := skipn 1 s.

Definition eqb (a b : jsstring) : bool :=
  (length a =? length b)%nat && startsWith a b.

(** [s.split(/a|b/)] for a pattern that is an alternative of single
    characters: every separator cuts, empty pieces are kept, and the result
    of splitting has at least one piece. *)
Fixpoint split (sep : N -> bool) (s : jsstring) : list jsstring :=
  match s with
  | [] => [[]]
  | c :: s' =>
      if sep c then [] :: split sep s'
      else match split sep s' with
           | piece :: rest => (c :: piece) :: rest
           | [] => [[c]]
           end
  end.

(** [pieces.join(sep)] *)
Fixpoint join (sep : jsstring) (pieces : list jsstring) : jsstring :=
  match pieces with
  | [] => []
  | [p] => p
  | p :: rest => p ++ sep ++ join sep rest
  end.

End JsString.
Import JsString.

(* ================================================================== *)
(** * Regular expressions *)
(* ================================================================== *)

Module Regex.

(** One-character matchers.  Every quantifier of the source applies to one
    of these. *)
Inductive atom : Type :=
| Lit (c : N)              (* a pattern character *)
| Digit                    (* \d *)
| Space                    (* \s *)
| AnyChar                  (* . *)
| DigitOrDot.              (* [\d.] *)

Inductive regex : Type :=
| Atom (a : atom)
| Eps
| Cat (r1 r2 : regex)
| Alt (r1 r2 : regex)          (* r1|r2 *)
| Opt (r : regex)              (* r? *)
| Star (a : atom)              (* a* *)
| Plus (a : atom)              (* a+ *)
| StarLazy (a : atom)          (* a*? *)
| Group (n : nat) (r : regex)  (* the n-th capturing parenthesis *)
| Eoi.                         (* $ (no m flag) *)

(** Canonicalize of ECMA-262 under the [i] flag without [u]: a code unit is
    replaced by its upper-case form unless that form is several units long or
    would turn a non-ASCII unit into an ASCII one.  Every pattern character of
    the source is ASCII and no unit from 128 on canonicalizes to an ASCII unit,
    so a comparison against a pattern character is decided by the ASCII part of
    the mapping, which is all that is kept here. *)
Definition canonicalize (ch : N) : N :=
  if ((97 <=? ch) && (ch <=? 122))%N then (ch - 32)%N else ch.

(** All regular expressions of the source carry the [i] flag. *)
Definition matchAtom (a : atom) (x : N) : bool :=
  match a with
  | Lit c => (canonicalize x =? canonicalize c)%N
  | Digit => isDigit x
  | Space => isWhiteSpace x
  | AnyChar => negb (isLineTerminator x)
  | DigitOrDot => isDigit x || (x =? 46)%N
  end.

(** Captures: group number and captured text; a group that took no part in
    the match is absent ([undefined]). *)
Definition captures : Type := list (nat * jsstring).

Fixpoint getCapture (n : nat) (c : captures) : option jsstring :=
  match c with
  | [] => None
  | (m, v) :: c' => if (m =? n)%nat then Some v else getCapture n c'
  end.

Definition setCapture (n : nat) (v : jsstring) (c : captures) : captures :=
  (n, v) :: c.

Section Matcher.
(** The matcher is in continuation-passing style, like the Matcher
    procedures of ECMA-262: a continuation receives the rest of the input
    and the captures and says whether the remainder of the pattern
    matches; the first success in priority order is the result. *)
Variable res : Type.
Definition continuation : Type := jsstring -> captures -> option res.

Definition orElse (a : option res) (b : unit -> option res) : option res :=
  match a with
  | Some x => Some x
  | None => b tt
  end.

(** [a*]: as many as possible first. *)
Fixpoint starGreedy (a : atom) (s : jsstring) (c : captures)
         (k : continuation) : option res :=
  match s with
  | x :: s' =>
      if matchAtom a x
      then orElse (starGreedy a s' c k) (fun _ => k s c)
      else k s c
  | [] => k s c
  end.

(** [a*?]: as few as possible first. *)
Fixpoint starLazy (a : atom) (s : jsstring) (c : captures)
         (k : continuation) : option res :=
  orElse (k s c)
    (fun _ => match s with
              | x :: s' => if matchAtom a x then starLazy a s' c k else None
              | [] => None
              end).

Fixpoint rmatch (r : regex) (s : jsstring) (c : captures)
         (k : continuation) : option res :=
  match r with
  | Atom a =>
      match s with
      | x :: s' => if matchAtom a x then k s' c else None
      | [] => None
      end
  | Eps => k s c
  | Cat r1 r2 => rmatch r1 s c (fun s' c' => rmatch r2 s' c' k)
  | Alt r1 r2 => orElse (rmatch r1 s c k) (fun _ => rmatch r2 s c k)
  | Opt r1 => orElse (rmatch r1 s c k) (fun _ => k s c)
  | Star a => starGreedy a s c k
  | Plus a =>
      match s with
      | x :: s' => if matchAtom a x then starGreedy a s' c k else None
      | [] => None
      end
  | StarLazy a => starLazy a s c k
  | Group n r1 =>
      rmatch r1 s c
        (fun s' c' =>
           k s' (setCapture n (firstn (length s - length s') s) c'))
  | Eoi =>
      match s with
      | [] => k s c
      | _ :: _ => None
      end
  end.
End Matcher.

(** The match object of [String.prototype.match] for a pattern without the
    [g] flag: [index], [m[0]] and the groups. *)
Record MatchResult : Type := mkMatch {
  index : nat;
  matched : jsstring;
  groups : captures
}.

(** [m[n]] *)
Definition group (m : MatchResult) (n : nat) : option jsstring :=
  getCapture n (groups m).

Definition matchHere (r : regex) (s : jsstring) : option (jsstring * captures) :=
  rmatch r s [] (fun s' c => Some (s', c)).

(** Leftmost match: the start positions are tried from left to right. *)
Fixpoint execFrom (r : regex) (s : jsstring) (i : nat) : option MatchResult :=
  match matchHere r s with
  | Some (s', c) => Some (mkMatch i (firstn (length s - length s') s) c)
  | None =>
      match s with
      | [] => None
      | _ :: s' => execFrom r s' (S i)
      end
  end.

(** [s.match(r)] *)
Definition String_match (s : jsstring) (r : regex) : option MatchResult :=
  execFrom r s 0.

(** [r.test(s)] *)
Definition test (r : regex) (s : jsstring) : bool :=
  match String_match s r with
  | Some _ => true
  | None => false
  end.

(** Does the source text of the pattern contain the character [ch]?  For a
    character that is not part of the pattern syntax, such as the percent
    sign of [r.toString().includes('%')]: only a pattern character can put
    it there. *)
Definition atomMentions (ch : N) (a : atom) : bool :=
  match a with
  | Lit c => (c =? ch)%N
  | _ => false
  end.

Fixpoint sourceIncludes (ch : N) (r : regex) : bool :=
  match r with
  | Atom a | Star a | Plus a | StarLazy a => atomMentions ch a
  | Cat r1 r2 | Alt r1 r2 => sourceIncludes ch r1 || sourceIncludes ch r2
  | Opt r1 | Group _ r1 => sourceIncludes ch r1
  | Eps | Eoi => false
  end.

(** ** Pattern syntax *)

(** A run of pattern characters. *)
Fixpoint chars (l : list N) : regex :=
  match l with
  | [] => Eps
  | [c] => Atom (Lit c)
  | c :: l' => Cat (Atom (Lit c)) (chars l')
  end.

Definition lit (s : string) : regex := chars (js s).

(** [a|b|c] *)
Fixpoint alts (l : list regex) : regex :=
  match l with
  | [] => Eps
  | [r] => r
  | r :: l' => Alt r (alts l')
  end.

Definition words (l : list string) : regex := alts (map lit l).

End Regex.
Import Regex.

Declare Scope regex_scope.
Delimit Scope regex_scope with re.
Bind Scope regex_scope with regex.
Infix ">>" := Cat (at level 60, right associativity) : regex_scope.

(* ================================================================== *)
(** * Numbers *)
(* ================================================================== *)

Module JsNumber.

(** A Number value is a binary64 float. *)
Definition number : Type := float.

(** The Number nearest to an integer (ties to even). *)
Definition ofZ (z : Z) : number :=
  SF2Prim (SpecFloat.binary_normalize prec emax z 0 false).

(** The Number nearest to the fraction [n / d] (ties to even): the quotient is
    taken with more than 60 bits and a sticky bit for the remainder, and is
    then rounded once. *)
Definition ofQ (n : Z) (d : positive) : number :=
  if (n =? 0)%Z then ofZ 0
  else
    let t := Z.max 0 (Z.log2 (Zpos d) - Z.log2 (Z.abs n) + 64) in
    let q := (Z.abs n * 2 ^ t / Zpos d)%Z in
    let sticky := if (Z.abs n * 2 ^ t mod Zpos d =? 0)%Z then 0%Z else 1%Z in
    let m := (2 * q + sticky)%Z in
    SF2Prim (SpecFloat.binary_normalize prec emax
               (if (n <? 0)%Z then (- m)%Z else m) (- (t + 1)) false).

(** The value of a digit in a radix. *)
Definition digitValue (radix : Z) (c : N) : option Z :=
  let v := if isDigit c then Some (Z.of_N c - 48)%Z
           else if ((97 <=? c) && (c <=? 122))%N then Some (Z.of_N c - 87)%Z
           else if ((65 <=? c) && (c <=? 90))%N then Some (Z.of_N c - 55)%Z
           else None in
  match v with
  | Some d => if (d <? radix)%Z then Some d else None
  | None => None
  end.

(** The longest prefix of digits: their number, their value, and the rest. *)
Fixpoint readDigits (radix : Z) (s : jsstring) (count : nat) (acc : Z)
  : nat * Z * jsstring :=
  match s with
  | c :: s' =>
      match digitValue radix c with
      | Some d => readDigits radix s' (S count) (acc * radix + d)
      | None => (count, acc, s)
      end
  | [] => (count, acc, s)
  end.

Definition readSign (s : jsstring) : bool * jsstring :=
  match s with
  | 45%N :: s' => (true, s')
  | 43%N :: s' => (false, s')
  | _ => (false, s)
  end.

Definition signed (negative : bool) (x : number) : number :=
  if negative then (- x)%float else x.

(** [parseInt(s)] with no radix argument: leading white space, a sign, an
    optional [0x], then the longest run of digits; [NaN] without a digit.
    An integer that a Number cannot hold is rounded to the nearest Number
    (ECMA-262 leaves the digits after the 20th to the implementation). *)
Definition parseInt (s : jsstring) : number :=
  let '(negative, s1) := readSign (trimStart s) in
  let '(radix, s2) :=
    match s1 with
    | 48%N :: 120%N :: s' => (16%Z, s')
    | 48%N :: 88%N :: s' => (16%Z, s')
    | _ => (10%Z, s1)
    end in
  let '(count, value, _) := readDigits radix s2 0 0 in
  match count with
  | O => nan
  | S _ => signed negative (ofZ value)
  end.

(** [parseFloat(s)]: leading white space, then the longest prefix that is a
    decimal literal (sign, [Infinity], digits with an optional fraction and
    exponent); [NaN] when there is none. *)
Definition parseFloat (s : jsstring) : number :=
  let '(negative, s1) := readSign (trimStart s) in
  if startsWith s1 (js "Infinity") then signed negative infinity
  else
    let '(nint, vint, s2) := readDigits 10 s1 0 0 in
    let '(nfrac, vall, s3) :=
      match s2 with
      | 46%N :: s' => readDigits 10 s' 0 vint
      | _ => (O, vint, s2)
      end in
    match (nint + nfrac)%nat with
    | O => nan
    | S _ =>
        let exponent :=
          match s3 with
          | c :: s' =>
              if ((c =? 101) || (c =? 69))%N
              then
                let '(eneg, s4) := readSign s' in
                let '(nexp, vexp, _) := readDigits 10 s4 0 0 in
                match nexp with
                | O => 0%Z
                | S _ => if eneg then (- vexp)%Z else vexp
                end
              else 0%Z
          | [] => 0%Z
          end in
        let e := (exponent - Z.of_nat nfrac)%Z in
        signed negative
          (if (0 <=? e)%Z then ofZ (vall * 10 ^ e)
           else ofQ vall (Z.to_pos (10 ^ (- e))))
    end.

(** [Math.round(x)]: the integer nearest to [x], halves towards positive
    infinity; [NaN], the infinities and the zeros are returned as they are. *)
Definition Math_round (x : number) : number :=
  match Prim2SF x with
  | S754_finite negative m e =>
      if (0 <=? e)%Z then x
      else
        let v := if negative then Zneg m else Zpos m in
        let n := Z.shiftr (2 * v + 2 ^ (- e)) (1 - e) in
        if (n =? 0)%Z && negative then (- ofZ 0)%float else ofZ n
  | _ => x
  end.

(** [Math.max(a, b)] and [Math.min(a, b)]: [NaN] if either is [NaN], and
    [-0] is smaller than [+0]. *)
Definition Math_max (a b : number) : number :=
  if is_nan a || is_nan b then nan
  else if (a <? b)%float then b
  else if (b <? a)%float then a
  else if get_sign a then b else a.

Definition Math_min (a b : number) : number :=
  if is_nan a || is_nan b then nan
  else if (a <? b)%float then a
  else if (b <? a)%float then b
  else if get_sign a then a else b.

End JsNumber.
Import JsNumber.
Bind Scope float_scope with number.

(* ================================================================== *)
(** * Calls that may throw or loop *)
(* ================================================================== *)

(** What a call of a formatter does: it returns a value, it throws (the only
    exception these functions can raise is the TypeError of calling a method
    on [undefined]), or it does not come back (the bound on the iterations of
    a [while] loop is used up). *)
Inductive outcome (A : Type) : Type :=
| Returns (a : A)
| Throws
| Diverges.
Arguments Throws {A}.
Arguments Diverges {A}.

Definition bind {A B : Type} (x : outcome A) (f : A -> outcome B) : outcome B :=
  match x with
  | Returns a => f a
  | Throws => Throws
  | Diverges => Diverges
  end.

Notation "'do' x <- e ; k" := (bind e (fun x => k))
  (at level 10, x name, e at level 100, k at level 200).

(** [o.f()] for a receiver that may be [undefined]. *)
Definition method {A : Type} (o : option jsstring) (f : jsstring -> A) : outcome A :=
  match o with
  | Some s => Returns (f s)
  | None => Throws
  end.

(** [l[0].f()] *)
Definition method0 {A : Type} (l : list jsstring) (f : jsstring -> A) : outcome A :=
  method (nth_error l 0) f.

(** A value used as a condition: a string is truthy when it is not empty,
    [undefined] is falsy. *)
Definition truthy (o : option jsstring) : option jsstring :=
  match o with
  | Some ((_ :: _) as s) => Some s
  | _ => None
  end.

(** [list.push(x)] under a condition. *)
Definition pushIf {A : Type} (b : bool) (x : A) (l : list A) : list A :=
  if b then l ++ [x] else l.

(** ** Shapes shared by the patterns of the source *)
Section PatternShapes.
Local Open Scope regex_scope.
Local Open Scope string_scope.

(** [:?] *)
Definition colon : regex := Opt (lit ":").
(** [\s*] *)
Definition ws : regex := Star Space.
(** [(\d+)] *)
Definition digits1 : regex := Group 1 (Plus Digit).
(** [([\d.]+)] *)
Definition decimal1 : regex := Group 1 (Plus DigitOrDot).
(** [(.*?)(\n|$)] *)
Definition restOfLine : regex :=
  Group 1 (StarLazy AnyChar) >> Group 2 (Alt (Atom (Lit LF)) Eoi).
(** [.*?] *)
Definition gap : regex := StarLazy AnyChar.
(** [.] *)
Definition dot : regex := Atom AnyChar.
(** the double quote *)
Definition quote : regex := Atom (Lit QUOTE).

(** The pattern [/\.|;/] of [split]. *)
Definition sentenceEnd (c : N) : bool := ((c =? 46) || (c =? 59))%N.
(** The pattern [/,|;/] of [split]. *)
Definition listSeparator (c : N) : bool := ((c =? 44) || (c =? 59))%N.
End PatternShapes.

(** The loop
[[
  for (const regex of regexes) {
    const match = rawOutput.match(regex);
    if (match && match[1] && accept(match[1])) { x = value(match[1]); break; }
  }
]]
    of the score, list and text fields: the first pattern, in the order of
    the list, whose first group is truthy and accepted gives the value.  The
    pattern is handed to [accept] too ([formatContentResults] looks at its
    source text).  [evidence] is what one round of the loop finds. *)
Definition evidence {A : Type} (accept : regex -> jsstring -> option A)
           (rawOutput : jsstring) (regex : regex) : option A :=
  match String_match rawOutput regex with
  | Some m =>
      match truthy (group m 1) with
      | Some g => accept regex g
      | None => None
      end
  | None => None
  end.

Fixpoint scanPatterns {A : Type} (accept : regex -> jsstring -> option A)
         (regexes : list regex) (rawOutput : jsstring) : option A :=
  match regexes with
  | [] => None
  | regex :: rest =>
      match evidence accept rawOutput regex with
      | Some v => Some v
      | None => scanPatterns accept rest rawOutput
      end
  end.

Definition orDefault {A : Type} (o : option A) (default : A) : A :=
  match o with
  | Some v => v
  | None => default
  end.

(* ================================================================== *)
(** * [formatTechnicalSeoResults] *)
(* ================================================================== *)

Module Technical.

Local Open Scope string_scope.
Local Open Scope list_scope.
Local Open Scope regex_scope.

(** An element of [criticalIssues]; its [category] and [recommendation]
    fields are [issueCategory] and [issueRecommendation] here. *)
Record CriticalIssue : Type := mkIssue {
  issueCategory : jsstring;
  issue : jsstring;
  impact : jsstring;
  issueRecommendation : jsstring
}.

(** An element of [improvements]. *)
Record Improvement : Type := mkImprovement {
  category : jsstring;
  recommendation : jsstring;
  priority : jsstring;
  effort : jsstring
}.

Record TechnicalSeoResult : Type := mkResult {
  overallScore : number;
  structureScore : number;
  performanceScore : number;
  mobileScore : number;
  schemaScore : number;
  criticalIssues : list CriticalIssue;
  improvements : list Improvement
}.

(** ** Scores *)

Definition performanceRegexes : list regex :=
  [ lit "Performance score" >> colon >> ws >> digits1 >> lit "/100";
    lit "Performance rating" >> colon >> ws >> digits1 >> lit "/100";
    lit "Performance" >> colon >> ws >> digits1 >> lit "/100";
    lit "Performance" >> colon >> ws >> digits1 >> lit " out of 100";
    lit "Performance score of " >> digits1 ].

Definition mobileRegexes : list regex :=
  [ lit "Mobile-friendly score" >> colon >> ws >> digits1 >> lit "/100";
    lit "Mobile score" >> colon >> ws >> digits1 >> lit "/100";
    lit "Mobile" >> colon >> ws >> digits1 >> lit "/100";
    lit "Mobile-friendliness" >> colon >> ws >> digits1 >> lit "/100";
    lit "Mobile optimization score" >> colon >> ws >> digits1 ].

Definition schemaRegexes : list regex :=
  [ lit "Schema score" >> colon >> ws >> digits1 >> lit "/100";
    lit "Structured data score" >> colon >> ws >> digits1 >> lit "/100";
    lit "Schema markup rating" >> colon >> ws >> digits1 ].

(** [x = parseInt(match[1])] for the first pattern with a truthy group. *)
Definition scanInt (regexes : list regex) (rawOutput : jsstring) : option number :=
  scanPatterns (fun _ g => Some (parseInt g)) regexes rawOutput.

Record Signal : Type := mkSignal {
  pattern : regex;
  points : number
}.

Definition structureSignals : list Signal :=
  [ mkSignal (lit "Clean, semantic URLs") 10;
    mkSignal (lit "Breadcrumb navigation: Present") 5;
    mkSignal (lit "H1 headings: 1 detected") 5;
    mkSignal (lit "Canonical URL: Present") 5;
    mkSignal (lit "Sitemap: Referenced") 5;
    mkSignal (lit "Robots" >> dot >> lit "txt: Present") 5;
    mkSignal (lit "Information architecture:" >> gap >> lit "good") 10;
    mkSignal (lit "Internal links:" >> gap >> lit "found") 5;
    mkSignal (lit "URL structure:" >> gap >> lit "clean") 10;
    mkSignal (lit "Site navigation: Present") 5 ].

Definition negativeStructureSignals : list Signal :=
  [ mkSignal (lit "H1 headings: 0 detected") (-10);
    mkSignal (lit "H1 headings:" >> gap >> lit "Too many") (-5);
    mkSignal (lit "Canonical URL: Missing") (-10);
    mkSignal (lit "Robots" >> dot >> lit "txt: Not found") (-5);
    mkSignal (lit "Sitemap: Not detected") (-5);
    mkSignal (lit "duplicate content issues") (-10);
    mkSignal (lit "URLs contain undesirable elements") (-10);
    mkSignal (lit "Site navigation: Not clearly defined") (-5) ].

(** [for (const signal of signals) if (signal.pattern.test(rawOutput))
    score += signal.points;] *)
Definition applySignals (signals : list Signal) (rawOutput : jsstring)
           (score : number) : number :=
  fold_left
    (fun score signal =>
       if test (pattern signal) rawOutput then (score + points signal)%float
       else score)
    signals score.

(** The structure score for given signal tables: both loops, then the clamp. *)
Definition signalScore (positive negative : list Signal) (baseline : number)
           (rawOutput : jsstring) : number :=
  let structureScore := baseline in
  let structureScore := applySignals positive rawOutput structureScore in
  let structureScore := applySignals negative rawOutput structureScore in
  Math_max 0 (Math_min 100 structureScore).

(** [structureScore]: the tables of the source, from 70. *)
Definition computeStructureScore (rawOutput : jsstring) : number :=
  signalScore structureSignals negativeStructureSignals 70 rawOutput.

(** [schemaScore]: a score stated in the text if there is one (the scan
    starts from -1), else the score made from the schema phrases, which is
    the only one that is clamped. *)
Definition computeSchemaScore (rawOutput : jsstring) : number :=
  let schemaScore := orDefault (scanInt schemaRegexes rawOutput) (-1)%float in
  if (schemaScore =? -1)%float then
    let schemaScore : number :=
     (if includes rawOutput (js "Likely eligible") then 90
      else if includes rawOutput (js "Partially eligible") then 70
      else if includes rawOutput (js "Schema types detected")
              && negb (includes rawOutput (js "None detected")) then 60
      else if includes rawOutput (js "Schema types detected: None detected")
              || includes rawOutput (js "No schema detected") then 30
      else 50)%float in
    let schemaScore :=
      if includes rawOutput (js "JSON-LD instances:")
         && negb (includes rawOutput (js "JSON-LD instances: 0"))
      then (schemaScore + 10)%float else schemaScore in
    let schemaScore :=
      if includes rawOutput (js "Within <head> tag (recommended)")
      then (schemaScore + 5)%float else schemaScore in
    let schemaScore :=
      if includes rawOutput (js "Missing recommended properties")
      then (schemaScore - 15)%float else schemaScore in
    Math_max 0 (Math_min 100 schemaScore)
  else schemaScore.

(** [overallScore]: the rounded weighted sum. *)
Definition computeOverallScore
           (performanceScore mobileScore structureScore schemaScore : number)
  : number :=
  Math_round ((performanceScore * 0.4) + (mobileScore * 0.25) +
              (structureScore * 0.2) + (schemaScore * 0.15))%float.

(** ** Critical issues *)

Definition issueRegexes : list regex :=
  [ lit "critical issue" >> colon >> ws >> restOfLine;
    lit "major problem" >> colon >> ws >> restOfLine;
    lit "significant issue" >> colon >> ws >> restOfLine;
    lit "high priority" >> colon >> ws >> restOfLine;
    lit "urgent fix" >> colon >> ws >> restOfLine ].

(** The [category] chain of an issue: it starts as Structure. *)
Definition classifyIssueCategory (issue : jsstring) : jsstring :=
  if test (words ["performance"; "speed"; "load time"; "core web vitals";
                  "lcp"; "fid"; "cls"; "render"; "resource"]) issue
  then js "Performance"
  else if test (words ["mobile"; "viewport"; "tap target"; "screen size";
                       "responsive"]) issue
  then js "Mobile"
  else if test (words ["schema"; "structured data"; "markup"; "json-ld";
                       "microdata"; "rich result"]) issue
  then js "Schema"
  else if test (words ["structure"; "url"; "h1"; "canonical"; "sitemap";
                       "robot"; "navigation"; "internal link"]) issue
  then js "Structure"
  else js "Structure".

(** The [impact] chain of an issue. *)
Definition classifyImpact (issue : jsstring) : jsstring :=
  if test (words ["conversion"; "bounce"; "engagement"; "revenue"; "ranking";
                  "traffic"]) issue
  then js "Directly impacts conversions and search rankings"
  else if test (words ["user experience"; "usability"; "accessibility"]) issue
  then js "Degrades user experience and engagement metrics"
  else if test (words ["crawl"; "index"; "bot"; "spider"]) issue
  then js "Hinders search engine crawling and indexation"
  else js "Reduces search visibility and user experience".

(** [/(should|could|recommend|fix by|implement|add|use|change|improve) (.*?)(\.|$)/i] *)
Definition recommendationRegex : regex :=
  Group 1 (words ["should"; "could"; "recommend"; "fix by"; "implement";
                  "add"; "use"; "change"; "improve"])
  >> lit " " >> Group 2 (StarLazy AnyChar) >> Group 3 (Alt (lit ".") Eoi).

Section CaseMapping.
(** [String.prototype.toLowerCase] and [toUpperCase] follow the Unicode
    case tables of the platform; they are taken as they come. *)
Variable toLowerCase : jsstring -> jsstring.
Variable toUpperCase : jsstring -> jsstring.

(** The [recommendation] of an issue: the text after a verb such as
    should or add, capitalized and ended with a period, or the stock
    sentence. *)
Definition extractRecommendation (issue : jsstring) : jsstring :=
  let recommendation := js "Fix the issue according to technical SEO best practices" in
  match String_match issue recommendationRegex with
  | Some recMatch =>
      match truthy (group recMatch 2) with
      | Some g =>
          let recommendation := trim g in
          let recommendation :=
            toUpperCase (charAt0 recommendation) ++ slice1 recommendation in
          if negb (endsWith recommendation (js "."))
          then recommendation ++ js "."
          else recommendation
      | None => recommendation
      end
  | None => recommendation
  end.

(** The [while] loop over the matches of one pattern.  [fuel] bounds its
    iterations. *)
Fixpoint scanIssues (fuel : nat) (regex : regex) (rawOutput : jsstring)
         (startPos : nat) (criticalIssues : list CriticalIssue)
  : outcome (list CriticalIssue) :=
  match fuel with
  | O => Diverges
  | S fuel' =>
      match String_match (substring_from startPos rawOutput) regex with
      | None => Returns criticalIssues
      | Some m =>
          let fullMatch := matched m in
          do issue <- method (group m 1) trim;
          do criticalIssues <-
             (if (15 <? length issue)%nat then
                let category := classifyIssueCategory issue in
                let impact := classifyImpact issue in
                let recommendation := extractRecommendation issue in
                do firstSentence <- method0 (split sentenceEnd issue) trim;
                Returns (criticalIssues ++
                         [mkIssue category firstSentence impact recommendation])
              else Returns criticalIssues);
          let startPos := (startPos + (index m + length fullMatch))%nat in
          if (5 <=? length criticalIssues)%nat then Returns criticalIssues
          else scanIssues fuel' regex rawOutput startPos criticalIssues
      end
  end.

(** The [for] loop over [issueRegexes]. *)
Fixpoint scanAllIssues (fuel : nat) (regexes : list regex)
         (rawOutput : jsstring) (criticalIssues : list CriticalIssue)
  : outcome (list CriticalIssue) :=
  match regexes with
  | [] => Returns criticalIssues
  | regex :: rest =>
      do criticalIssues <- scanIssues fuel regex rawOutput 0 criticalIssues;
      if (5 <=? length criticalIssues)%nat then Returns criticalIssues
      else scanAllIssues fuel rest rawOutput criticalIssues
  end.
End CaseMapping.

(** [/Estimated Largest Contentful Paint:?\s*([\d.]+)s/i] *)
Definition lcpRegex : regex :=
  lit "Estimated Largest Contentful Paint" >> colon >> ws >> decimal1 >> lit "s".

(** [/small tap targets:?\s*(\d+)/i] *)
Definition tapTargetsRegex : regex :=
  lit "small tap targets" >> colon >> ws >> digits1.

(** [m && parse(m[1]) > bound]; a parse of [undefined] is [NaN]. *)
Definition matchExceeds (rawOutput : jsstring) (regex : regex)
           (parse : jsstring -> number) (bound : number) : bool :=
  match String_match rawOutput regex with
  | Some m => (bound <? match group m 1 with Some g => parse g | None => nan end)%float
  | None => false
  end.

(** The block [if (criticalIssues.length < 3)]: the issues added from
    fixed phrases of the text. *)
Definition fallbackIssues (rawOutput : jsstring)
           (performanceScore mobileScore : number)
           (criticalIssues : list CriticalIssue) : list CriticalIssue :=
  if (length criticalIssues <? 3)%nat then
    let criticalIssues :=
      if (performanceScore <? 70)%float then
        let criticalIssues :=
          pushIf (includes rawOutput (js "Render-blocking resources"))
            (mkIssue (js "Performance")
               (js "Render-blocking resources detected")
               (js "Slows down page rendering and initial content display")
               (js "Defer non-critical JavaScript and CSS resources"))
            criticalIssues in
        let criticalIssues :=
          pushIf (includes rawOutput (js "Unoptimized images"))
            (mkIssue (js "Performance")
               (js "Unoptimized images")
               (js "Increases page load time and bandwidth usage")
               (js "Optimize images and implement lazy loading"))
            criticalIssues in
        pushIf (matchExceeds rawOutput lcpRegex parseFloat 2.5%float)
          (mkIssue (js "Performance")
             (js "High Largest Contentful Paint (LCP)")
             (js "Negatively affects Core Web Vitals and user experience")
             (js "Optimize the largest element (usually hero image) and improve server response time"))
          criticalIssues
      else criticalIssues in
    let criticalIssues :=
      if (mobileScore <? 70)%float then
        let criticalIssues :=
          pushIf (includes rawOutput (js "Viewport configured: No"))
            (mkIssue (js "Mobile")
               (js "Missing viewport meta tag")
               (js "Page won't scale properly on mobile devices")
               (js "Add a viewport meta tag with width=device-width, initial-scale=1"))
            criticalIssues in
        let criticalIssues :=
          pushIf (matchExceeds rawOutput tapTargetsRegex parseInt 5%float)
            (mkIssue (js "Mobile")
               (js "Small tap targets")
               (js "Difficult for users to tap elements on mobile devices")
               (js "Increase size of buttons and interactive elements to at least 44px"))
            criticalIssues in
        pushIf (includes rawOutput (js "Potential horizontal scrolling issues: Yes"))
          (mkIssue (js "Mobile")
             (js "Horizontal scrolling issues")
             (js "Poor user experience on mobile devices")
             (js "Implement responsive design with relative width units and proper viewport"))
          criticalIssues
      else criticalIssues in
    let criticalIssues :=
      pushIf (includes rawOutput (js "H1 headings: 0 detected"))
        (mkIssue (js "Structure")
           (js "Missing H1 heading")
           (js "Reduces content hierarchy clarity for users and search engines")
           (js "Add a single H1 heading that includes the main keyword"))
        criticalIssues in
    let criticalIssues :=
      pushIf (includes rawOutput (js "URL parameters may cause duplicate content"))
        (mkIssue (js "Structure")
           (js "Potential duplicate content")
           (js "Search engines may index multiple versions of the same page")
           (js "Implement canonical tags or fix URL parameters"))
        criticalIssues in
    let criticalIssues :=
      pushIf (includes rawOutput (js "Canonical URL: Missing"))
        (mkIssue (js "Structure")
           (js "Missing canonical URL")
           (js "May cause duplicate content issues with similar pages")
           (js "Add canonical tags to indicate the preferred version of the page"))
        criticalIssues in
    if includes rawOutput (js "Schema types detected: None detected") then
      criticalIssues ++
      [mkIssue (js "Schema")
         (js "Missing structured data")
         (js "No rich results in search engines")
         (js "Implement JSON-LD structured data for your content type")]
    else if includes rawOutput (js "Missing recommended properties:") then
      criticalIssues ++
      [mkIssue (js "Schema")
         (js "Incomplete schema markup")
         (js "May not qualify for rich results in search engines")
         (js "Add missing recommended properties to schema markup")]
    else criticalIssues
  else criticalIssues.

(** ** Improvements *)

Definition improvementRegexes : list regex :=
  [ lit "recommend" >> words ["ation"; "ed"] >> colon >> ws >> restOfLine;
    lit "suggest" >> words ["ion"; "ed"] >> colon >> ws >> restOfLine;
    lit "improve" >> Opt (lit "ment") >> colon >> ws >> restOfLine;
    lit "fix" >> colon >> ws >> restOfLine;
    lit "optimization" >> colon >> ws >> restOfLine ].

(** The [category], [priority] and [effort] chains of an improvement. *)
Definition classifyCategory (improvement : jsstring) : jsstring :=
  if test (words ["performance"; "speed"; "load time"; "core web vitals";
                  "lcp"; "fid"; "cls"; "render"; "resource"; "cache";
                  "compress"]) improvement
  then js "Performance"
  else if test (words ["mobile"; "viewport"; "tap target"; "screen size";
                       "responsive"]) improvement
  then js "Mobile"
  else if test (words ["schema"; "structured data"; "markup"; "json-ld";
                       "microdata"; "rich result"]) improvement
  then js "Schema"
  else if test (words ["structure"; "url"; "h1"; "canonical"; "sitemap";
                       "robot"; "navigation"; "internal link"]) improvement
  then js "Structure"
  else js "Structure".

Definition classifyPriority (improvement : jsstring) : jsstring :=
  if test (words ["urgent"; "critical"; "important"; "high"; "essential";
                  "must"; "significant"]) improvement
  then js "High"
  else if test (words ["consider"; "might"; "could"; "option"; "low";
                       "minor"]) improvement
  then js "Low"
  else js "Medium".

Definition classifyEffort (improvement : jsstring) : jsstring :=
  if test (words ["simple"; "easy"; "quick"; "straightforward"; "minor";
                  "fast"]) improvement
  then js "Low"
  else if test (words ["complex"; "difficult"; "major"; "extensive";
                       "significant"; "time-consuming"]) improvement
  then js "High"
  else js "Medium".

(** The [while] loop over the matches of one improvement pattern. *)
Fixpoint scanImprovements (fuel : nat) (regex : regex) (rawOutput : jsstring)
         (startPos : nat) (directImprovements : list Improvement)
  : outcome (list Improvement) :=
  match fuel with
  | O => Diverges
  | S fuel' =>
      match String_match (substring_from startPos rawOutput) regex with
      | None => Returns directImprovements
      | Some m =>
          let fullMatch := matched m in
          do improvement <- method (group m 1) trim;
          do directImprovements <-
             (if (20 <? length improvement)%nat then
                let category := classifyCategory improvement in
                let priority := classifyPriority improvement in
                let effort := classifyEffort improvement in
                do firstSentence <- method0 (split sentenceEnd improvement) trim;
                Returns (directImprovements ++
                         [mkImprovement category (firstSentence ++ js ".")
                            priority effort])
              else Returns directImprovements);
          let startPos := (startPos + (index m + length fullMatch))%nat in
          if (7 <=? length directImprovements)%nat then Returns directImprovements
          else scanImprovements fuel' regex rawOutput startPos directImprovements
      end
  end.

(** The [for] loop over [improvementRegexes]. *)
Fixpoint scanAllImprovements (fuel : nat) (regexes : list regex)
         (rawOutput : jsstring) (directImprovements : list Improvement)
  : outcome (list Improvement) :=
  match regexes with
  | [] => Returns directImprovements
  | regex :: rest =>
      do directImprovements <-
         scanImprovements fuel regex rawOutput 0 directImprovements;
      if (7 <=? length directImprovements)%nat then Returns directImprovements
      else scanAllImprovements fuel rest rawOutput directImprovements
  end.

(** [/Missing recommended properties:?\s*(.*?)(\n|$)/i] *)
Definition missingPropsRegex : regex :=
  lit "Missing recommended properties" >> colon >> ws >> restOfLine.

(** [fallbackImprovements]: the pushes of the source, in their order. *)
Definition fallbackImprovementsOf (rawOutput : jsstring)
           (performanceScore mobileScore schemaScore : number)
  : list Improvement :=
  let fallbackImprovements : list Improvement := [] in
  let fallbackImprovements :=
    if (performanceScore <? 90)%float then
      let fallbackImprovements :=
        pushIf (includes rawOutput (js "Render-blocking resources"))
          (mkImprovement (js "Performance")
             (js "Eliminate render-blocking resources by deferring non-critical CSS/JS")
             (js "High") (js "Medium"))
          fallbackImprovements in
      let fallbackImprovements :=
        pushIf (includes rawOutput (js "Unoptimized images"))
          (mkImprovement (js "Performance")
             (js "Optimize images and implement lazy loading")
             (js "Medium") (js "Low"))
          fallbackImprovements in
      let fallbackImprovements :=
        pushIf (matchExceeds rawOutput lcpRegex parseFloat 2.5%float)
          (mkImprovement (js "Performance")
             (js "Optimize Largest Contentful Paint by improving server response time and resource loading")
             (js "High") (js "Medium"))
          fallbackImprovements in
      pushIf (includes rawOutput (js "Total resources:"))
        (mkImprovement (js "Performance")
           (js "Reduce the number of resource requests by combining files and eliminating unnecessary scripts")
           (js "Medium") (js "Medium"))
        fallbackImprovements
    else fallbackImprovements in
  let fallbackImprovements :=
    if (mobileScore <? 90)%float then
      let fallbackImprovements :=
        pushIf (includes rawOutput (js "small tap targets"))
          (mkImprovement (js "Mobile")
             (js "Increase size of tap targets for better mobile usability")
             (js "Medium") (js "Low"))
          fallbackImprovements in
      let fallbackImprovements :=
        pushIf (includes rawOutput (js "Potential horizontal scrolling issues: Yes"))
          (mkImprovement (js "Mobile")
             (js "Fix horizontal scrolling issues with responsive design")
             (js "High") (js "Medium"))
          fallbackImprovements in
      pushIf (includes rawOutput (js "Media queries: Not detected"))
        (mkImprovement (js "Mobile")
           (js "Implement media queries for responsive design across all devices")
           (js "High") (js "Medium"))
        fallbackImprovements
    else fallbackImprovements in
  let fallbackImprovements :=
    pushIf (negb (includes rawOutput (js "Sitemap: Referenced in robots.txt")))
      (mkImprovement (js "Structure")
         (js "Add XML sitemap and reference it in robots.txt")
         (js "Medium") (js "Low"))
      fallbackImprovements in
  let fallbackImprovements :=
    pushIf (negb (includes rawOutput (js "Canonical URL: Present")))
      (mkImprovement (js "Structure")
         (js "Add canonical tags to prevent duplicate content issues")
         (js "Medium") (js "Low"))
      fallbackImprovements in
  let fallbackImprovements :=
    pushIf (includes rawOutput (js "H1 headings: 0 detected")
            || includes rawOutput (js "H1 headings: Missing"))
      (mkImprovement (js "Structure")
         (js "Add a single, descriptive H1 heading that includes the primary keyword")
         (js "High") (js "Low"))
      fallbackImprovements in
  if includes rawOutput (js "Schema types detected: None detected") then
    fallbackImprovements ++
    [mkImprovement (js "Schema")
       (js "Implement JSON-LD structured data markup relevant to your content type")
       (js "Medium") (js "Medium")]
  else if includes rawOutput (js "Missing recommended properties:") then
    match String_match rawOutput missingPropsRegex with
    | Some missingProps =>
        match truthy (group missingProps 1) with
        | Some g =>
            fallbackImprovements ++
            [mkImprovement (js "Schema")
               (js "Add missing schema properties: " ++ substring_to 40 g ++ js "...")
               (js "Medium") (js "Low")]
        | None => fallbackImprovements
        end
    | None => fallbackImprovements
    end
  else if negb (includes rawOutput (js "JSON-LD")) && (schemaScore <? 80)%float then
    fallbackImprovements ++
    [mkImprovement (js "Schema")
       (js "Convert existing schema markup to JSON-LD format for better compatibility")
       (js "Low") (js "Medium")]
  else fallbackImprovements.

Section Dedupe.
Variable toLowerCase : jsstring -> jsstring.

(** The predicate of [acc.some(item => ...)]. *)
Definition isDuplicateOf (current item : Improvement) : bool :=
  JsString.eqb (category item) (category current) &&
  (includes (toLowerCase (recommendation item))
            (substring_to 20 (toLowerCase (recommendation current)))
   || includes (toLowerCase (recommendation current))
               (substring_to 20 (toLowerCase (recommendation item)))).

(** [improvements.reduce((acc, current) => ..., [])] *)
Definition uniqueImprovements (improvements : list Improvement)
  : list Improvement :=
  fold_left
    (fun acc current =>
       let isDuplicate := existsb (isDuplicateOf current) acc in
       if negb isDuplicate then acc ++ [current] else acc)
    improvements [].
End Dedupe.

Section Format.
Variable toLowerCase : jsstring -> jsstring.
Variable toUpperCase : jsstring -> jsstring.

(** [fuel] bounds the iterations of each [while] loop; it is never used up
    ([formatTechnicalSeoResults_returns]). *)
Definition formatTechnicalSeoResults (rawOutput : jsstring)
  : outcome TechnicalSeoResult :=
  let fuel := S (length rawOutput) in
  let performanceScore := orDefault (scanInt performanceRegexes rawOutput) 65%float in
  let mobileScore := orDefault (scanInt mobileRegexes rawOutput) 70%float in
  let structureScore := computeStructureScore rawOutput in
  let schemaScore := computeSchemaScore rawOutput in
  let overallScore :=
    computeOverallScore performanceScore mobileScore structureScore schemaScore in
  do criticalIssues <- scanAllIssues toUpperCase fuel issueRegexes rawOutput [];
  let criticalIssues :=
    fallbackIssues rawOutput performanceScore mobileScore criticalIssues in
  do directImprovements <-
     scanAllImprovements fuel improvementRegexes rawOutput [];
  let fallbackImprovements :=
    fallbackImprovementsOf rawOutput performanceScore mobileScore schemaScore in
  let improvements :=
    if (4 <=? length directImprovements)%nat then directImprovements
    else directImprovements ++ fallbackImprovements in
  let uniqueImprovements := uniqueImprovements toLowerCase improvements in
  Returns (mkResult overallScore structureScore performanceScore mobileScore
             schemaScore (firstn 3 criticalIssues) (firstn 5 uniqueImprovements)).
End Format.

End Technical.

(** The case mappings on strings of ASCII characters, where the Unicode
    tables change the letters [A]-[Z] and [a]-[z] only. *)
Definition asciiLower (s : jsstring) : jsstring :=
  map (fun c => if ((65 <=? c) && (c <=? 90))%N then (c + 32)%N else c) s.
Definition asciiUpper (s : jsstring) : jsstring :=
  map (fun c => if ((97 <=? c) && (c <=? 122))%N then (c - 32)%N else c) s.

(* ================================================================== *)
(** * [formatContentResults] *)
(* ================================================================== *)

Module Content.

Local Open Scope string_scope.
Local Open Scope list_scope.
Local Open Scope regex_scope.

(** An element of [recommendations]. *)
Record Recommendation : Type := mkRecommendation {
  priority : jsstring;
  category : jsstring;
  suggestion : jsstring
}.

(** [improvedTitle?] and [improvedMetaDescription?] are optional in the
    type: [None] is the absent field. *)
Record ContentOptimizationResult : Type := mkResult {
  contentScore : number;
  readabilityScore : number;
  keywordScore : number;
  semanticScore : number;
  recommendations : list Recommendation;
  missingSubtopics : list jsstring;
  improvedTitle : option jsstring;
  improvedMetaDescription : option jsstring
}.

(** ** Scores *)

Definition readabilityRegexes : list regex :=
  [ lit "Flesch-Kincaid score" >> colon >> ws >> digits1;
    lit "readability score" >> colon >> ws >> digits1;
    lit "FK score" >> colon >> ws >> digits1;
    lit "readability" >> colon >> ws >> digits1;
    lit "readability rating of " >> digits1 ].

Definition keywordDensityRegexes : list regex :=
  [ lit "keyword density" >> colon >> ws >> decimal1 >> lit "%";
    lit "density" >> colon >> ws >> decimal1 >> lit "%";
    lit "keyword frequency" >> colon >> ws >> decimal1 >> lit "%";
    lit "keyword usage" >> colon >> ws >> decimal1 >> lit "%";
    lit "keyword appears at " >> words ["a"; "an"] >> lit " " >> decimal1
      >> lit "% density" ].

Definition h1InclusionRegexes : list regex :=
  [ lit "H1/Title inclusion" >> colon >> ws >> lit "Yes";
    lit "keyword" >> gap >> lit "found" >> gap >> lit "H1";
    lit "H1" >> gap >> lit "contains" >> gap >> lit "keyword";
    lit "keyword" >> gap >> lit "present" >> gap >> lit "title";
    lit "title" >> gap >> lit "includes" >> gap >> lit "keyword" ].

Definition introInclusionRegexes : list regex :=
  [ lit "First 100 words" >> colon >> ws >> lit "Yes";
    lit "keyword" >> gap >> lit "found" >> gap >> lit "introduction";
    lit "keyword" >> gap >> lit "present" >> gap >> lit "beginning";
    lit "introduction" >> gap >> lit "contains" >> gap >> lit "keyword";
    lit "keyword" >> gap >> lit "appears" >> gap >> lit "first" >> gap
      >> lit "paragraph" ].

(** [for (const regex of regexes) if (regex.test(rawOutput)) { found = true;
    break; }] *)
Definition anyTest (regexes : list regex) (rawOutput : jsstring) : bool :=
  existsb (fun regex => test regex rawOutput) regexes.

(** [keywordScore]: 60, the density adjustment, the placement bonuses,
    then the clamp. *)
Definition computeKeywordScore (keywordDensity : number)
           (keywordInH1 keywordInIntro : bool) : number :=
  let keywordScore : number := 60%float in
  let keywordScore :=
    (if (0.5 <=? keywordDensity) && (keywordDensity <=? 2.5)
     then keywordScore + 20
     else if (2.5 <? keywordDensity) && (keywordDensity <=? 3.5)
     then keywordScore + 10
     else if 3.5 <? keywordDensity then keywordScore - 10
     else if keywordDensity <? 0.5 then keywordScore - 15
     else keywordScore)%float in
  let keywordScore := if keywordInH1 then (keywordScore + 10)%float else keywordScore in
  let keywordScore := if keywordInIntro then (keywordScore + 10)%float else keywordScore in
  Math_min 100 (Math_max 0 keywordScore).

Definition semanticScoreRegexes : list regex :=
  [ lit "Topic coverage score" >> colon >> ws >> decimal1 >> lit "/10";
    lit "semantic relevance" >> colon >> ws >> decimal1 >> lit "/10";
    lit "semantic score" >> colon >> ws >> decimal1 >> lit "/10";
    lit "semantic depth" >> colon >> ws >> decimal1 >> lit "/10";
    lit "topical coverage" >> colon >> ws >> decimal1 >> lit "/10";
    lit "semantic coverage of " >> digits1 >> lit "%";
    lit "topic coverage" >> colon >> ws >> digits1 >> lit "%" ].

Definition PERCENT : N := 37.

(** [topicScoreRaw] from a captured group: a percentage is divided by 10. *)
Definition topicScoreOf (regex : regex) (g : jsstring) : number :=
  if sourceIncludes PERCENT regex then (parseInt g / 10)%float
  else parseFloat g.

(** ** Missing subtopics *)

Definition missingSubtopicsRegexes : list regex :=
  [ lit "Missing subtopics" >> colon >> ws >> restOfLine;
    lit "content should cover" >> colon >> ws >> restOfLine;
    lit "topics to add" >> colon >> ws >> restOfLine;
    lit "recommended subtopics" >> colon >> ws >> restOfLine;
    lit "consider adding sections on" >> colon >> ws >> restOfLine;
    lit "important subtopics missing" >> colon >> ws >> restOfLine ].

(** [match[1].split(/,|;/).map(s => s.trim()).filter(s => s !== 'None' &&
    s.length > 0)], kept when it is not empty. *)
Definition subtopicsOf (g : jsstring) : option (list jsstring) :=
  let subtopics :=
    filter (fun s => negb (JsString.eqb s (js "None")) && (0 <? length s)%nat)
           (map trim (split listSeparator g)) in
  if (0 <? length subtopics)%nat then Some subtopics else None.

(** ** Recommendations *)

Definition recommendationRegexes : list regex :=
  [ lit "recommendation" >> colon >> ws >> restOfLine;
    lit "suggest" >> words ["ion"; "ed"] >> colon >> ws >> restOfLine;
    lit "improve" >> colon >> ws >> restOfLine;
    lit "priorit" >> words ["y"; "ize"] >> colon >> ws >> restOfLine;
    lit "should" >> colon >> ws >> restOfLine;
    lit "consider" >> colon >> ws >> restOfLine ].

(** The [category] and [priority] chains of a recommendation. *)
Definition classifyCategory (suggestion : jsstring) : jsstring :=
  if test (words ["keyword"; "densit"; "placement"; "h1"; "title"]) suggestion
  then js "Keyword Usage"
  else if test (words ["readab"; "sentence"; "paragraph"; "complex"; "jargon"])
               suggestion
  then js "Readability"
  else if test (words ["semantic"; "topic"; "subtopic"; "coverage"; "depth"])
               suggestion
  then js "Semantic Relevance"
  else if test (words ["structure"; "format"; "heading"; "subhead"; "layout"])
               suggestion
  then js "Content Structure"
  else if test (words ["meta"; "description"; "title tag"; "schema"]) suggestion
  then js "Meta Data"
  else js "Content Structure".

Definition classifyPriority (suggestion : jsstring) : jsstring :=
  if test (words ["urgent"; "critical"; "important"; "high"; "essential";
                  "must"]) suggestion
  then js "High"
  else if test (words ["consider"; "might"; "could"; "option"; "low";
                       "minor"]) suggestion
  then js "Low"
  else js "Medium".

(** The [while] loop over the matches of one recommendation pattern. *)
Fixpoint scanRecommendations (fuel : nat) (regex : regex) (rawOutput : jsstring)
         (startPos : nat) (directRecommendations : list Recommendation)
  : outcome (list Recommendation) :=
  match fuel with
  | O => Diverges
  | S fuel' =>
      match String_match (substring_from startPos rawOutput) regex with
      | None => Returns directRecommendations
      | Some m =>
          let fullMatch := matched m in
          do suggestion <- method (group m 1) trim;
          let directRecommendations :=
            if (15 <? length suggestion)%nat then
              let category := classifyCategory suggestion in
              let priority := classifyPriority suggestion in
              directRecommendations ++
              [mkRecommendation priority category suggestion]
            else directRecommendations in
          let startPos := (startPos + (index m + length fullMatch))%nat in
          scanRecommendations fuel' regex rawOutput startPos directRecommendations
      end
  end.

(** The [for] loop over [recommendationRegexes]. *)
Fixpoint scanAllRecommendations (fuel : nat) (regexes : list regex)
         (rawOutput : jsstring) (directRecommendations : list Recommendation)
  : outcome (list Recommendation) :=
  match regexes with
  | [] => Returns directRecommendations
  | regex :: rest =>
      do directRecommendations <-
         scanRecommendations fuel regex rawOutput 0 directRecommendations;
      scanAllRecommendations fuel rest rawOutput directRecommendations
  end.

(** [m ? parseFloat(m[1]) : default] *)
Definition matchedNumber (rawOutput : jsstring) (regex : regex)
           (default : number) : number :=
  match String_match rawOutput regex with
  | Some m => match group m 1 with Some g => parseFloat g | None => nan end
  | None => default
  end.

(** [fallbackRecommendations]: the pushes of the source, in their order. *)
Definition fallbackRecommendationsOf (rawOutput : jsstring)
           (keywordInH1 : bool) (keywordDensity : number)
           (missingSubtopics : list jsstring) (semanticScore : number)
  : list Recommendation :=
  let fallbackRecommendations : list Recommendation := [] in
  let fallbackRecommendations :=
    pushIf (negb keywordInH1)
      (mkRecommendation (js "High") (js "Keyword Usage")
         (js "Include target keyword in H1 heading"))
      fallbackRecommendations in
  let fallbackRecommendations :=
    if (keywordDensity <? 0.5)%float then
      fallbackRecommendations ++
      [mkRecommendation (js "High") (js "Keyword Usage")
         (js "Increase keyword usage throughout the content to at least 0.5% density")]
    else if (3 <? keywordDensity)%float then
      fallbackRecommendations ++
      [mkRecommendation (js "Medium") (js "Keyword Usage")
         (js "Reduce keyword density to 1-2% to avoid keyword stuffing")]
    else fallbackRecommendations in
  let avgSentenceLength :=
    matchedNumber rawOutput
      (lit "Average sentence length" >> colon >> ws >> decimal1) 20%float in
  let fallbackRecommendations :=
    pushIf (20 <? avgSentenceLength)%float
      (mkRecommendation (js "Medium") (js "Readability")
         (js "Break long sentences into shorter ones for better readability (aim for 15-20 words per sentence)"))
      fallbackRecommendations in
  let avgParaLength :=
    matchedNumber rawOutput
      (lit "Average paragraph length" >> colon >> ws >> decimal1) 100%float in
  let fallbackRecommendations :=
    pushIf (70 <? avgParaLength)%float
      (mkRecommendation (js "Medium") (js "Readability")
         (js "Break long paragraphs into shorter ones (3-4 sentences max) to improve readability"))
      fallbackRecommendations in
  let fallbackRecommendations :=
    pushIf ((0 <? length missingSubtopics)%nat
            && match nth_error missingSubtopics 0 with
               | Some s => negb (JsString.eqb s (js "None"))
               | None => true
               end)
      (mkRecommendation (js "Medium") (js "Semantic Relevance")
         (js "Add sections on " ++ join (js " and ") (firstn 2 missingSubtopics)
          ++ js " to improve topical coverage and relevance"))
      fallbackRecommendations in
  pushIf (semanticScore <? 60)%float
    (mkRecommendation (js "High") (js "Semantic Relevance")
       (js "Expand content to cover more aspects of the topic for better search visibility"))
    fallbackRecommendations.

(** ** Title and meta description *)

Definition keywordRegexes : list regex :=
  [ lit "for " >> quote >> Group 1 (StarLazy AnyChar) >> quote;
    lit "keyword " >> quote >> Group 1 (StarLazy AnyChar) >> quote;
    lit "analyzing " >> quote >> Group 1 (StarLazy AnyChar) >> quote;
    lit "optimizing for " >> quote >> Group 1 (StarLazy AnyChar) >> quote ].

Definition titleRegexes : list regex :=
  [ lit "improved title" >> colon >> ws >> restOfLine;
    lit "suggested title" >> colon >> ws >> restOfLine;
    lit "recommended title" >> colon >> ws >> restOfLine;
    lit "title tag" >> colon >> ws >> restOfLine;
    lit "optimal title" >> colon >> ws >> restOfLine ].

Definition metaRegexes : list regex :=
  [ lit "improved meta description" >> colon >> ws >> restOfLine;
    lit "suggested meta description" >> colon >> ws >> restOfLine;
    lit "recommended meta" >> colon >> ws >> restOfLine;
    lit "meta description" >> colon >> ws >> restOfLine;
    lit "optimal meta" >> colon >> ws >> restOfLine ].

(** [keyword]: the first quoted phrase the patterns find, or the fallback. *)
Definition extractKeyword (rawOutput : jsstring) : jsstring :=
  orDefault (scanPatterns (fun _ g => Some g) keywordRegexes rawOutput)
            (js "your topic").

(** The title and the description made from the keyword. *)
Definition defaultTitle (toUpperCase : jsstring -> jsstring)
           (keyword : jsstring) : jsstring :=
  toUpperCase (charAt0 keyword) ++ slice1 keyword
  ++ js ": Complete Guide & Best Practices | YourBrand".

Definition defaultMetaDescription (keyword : jsstring) : jsstring :=
  js "Learn everything about " ++ keyword
  ++ js " in this comprehensive guide. Discover best practices, examples, and expert tips to maximize your results.".

(** [match[1].length > n], then [match[1].trim()]. *)
Definition longerThan (n : nat) (g : jsstring) : option jsstring :=
  if (n <? length g)%nat then Some (trim g) else None.

Section Format.
Variable toUpperCase : jsstring -> jsstring.

(** [fuel] bounds the iterations of the [while] loop, as in
    [formatTechnicalSeoResults]. *)
Definition formatContentResults (rawOutput : jsstring)
  : outcome ContentOptimizationResult :=
  let fuel := S (length rawOutput) in
  let readabilityScore :=
    orDefault (scanPatterns (fun _ g => Some (parseInt g))
                 readabilityRegexes rawOutput) 65%float in
  let keywordDensity :=
    orDefault (scanPatterns (fun _ g => Some (parseFloat g))
                 keywordDensityRegexes rawOutput) 1.5%float in
  let keywordInH1 := anyTest h1InclusionRegexes rawOutput in
  let keywordInIntro := anyTest introInclusionRegexes rawOutput in
  let keywordScore :=
    computeKeywordScore keywordDensity keywordInH1 keywordInIntro in
  let topicScoreRaw :=
    orDefault (scanPatterns (fun regex g => Some (topicScoreOf regex g))
                 semanticScoreRegexes rawOutput) 7%float in
  let semanticScore := Math_round (topicScoreRaw * 10)%float in
  let contentScore :=
    Math_round ((readabilityScore * 0.3) + (keywordScore * 0.4) +
                (semanticScore * 0.3))%float in
  let missingSubtopics :=
    orDefault (scanPatterns (fun _ g => subtopicsOf g)
                 missingSubtopicsRegexes rawOutput)
              [js "Topic research needed"] in
  do directRecommendations <-
     scanAllRecommendations fuel recommendationRegexes rawOutput [];
  let fallbackRecommendations :=
    fallbackRecommendationsOf rawOutput keywordInH1 keywordDensity
      missingSubtopics semanticScore in
  let recommendations :=
    if (3 <=? length directRecommendations)%nat then directRecommendations
    else directRecommendations ++ fallbackRecommendations in
  let keyword := extractKeyword rawOutput in
  let improvedTitle :=
    orDefault (scanPatterns (fun _ g => longerThan 10 g) titleRegexes rawOutput)
              (defaultTitle toUpperCase keyword) in
  let improvedMetaDescription :=
    orDefault (scanPatterns (fun _ g => longerThan 20 g) metaRegexes rawOutput)
              (defaultMetaDescription keyword) in
  Returns (mkResult contentScore readabilityScore keywordScore semanticScore
             (firstn 5 recommendations) missingSubtopics
             (Some improvedTitle) (Some improvedMetaDescription)).
End Format.

End Content.


(* ================================================================== *)
(** * [formatKeywordResults] *)
(* ================================================================== *)

(** Two patterns of [formatKeywordResults] go beyond the pattern language
    above: the pattern of the keyword has no [i] flag, and the pattern of the
    search volume repeats the class of digits and commas.  [xregex] adds a
    pattern character that is compared as it is, and that class, to the
    patterns above. *)
Module RegexExt.

Inductive xregex : Type :=
| XOld (r : regex)               (* a pattern of the language above *)
| XExact (c : N)                 (* a pattern character, no i flag *)
| XStarDigitOrComma              (* digits and commas, greedy *)
| XCat (r1 r2 : xregex)
| XGroup (n : nat) (r : xregex).

Definition isDigitOrComma (x : N) : bool := isDigit x || (x =? 44)%N.

Section Matcher.
Variable res : Type.

(** Digits and commas: as many as possible first. *)
Fixpoint starDigitOrComma (s : jsstring) (c : captures)
         (k : continuation res) : option res :=
  match s with
  | x :: s' =>
      if isDigitOrComma x
      then orElse (starDigitOrComma s' c k) (fun _ => k s c)
      else k s c
  | [] => k s c
  end.

Fixpoint xmatch (r : xregex) (s : jsstring) (c : captures)
         (k : continuation res) : option res :=
  match r with
  | XOld r0 => rmatch r0 s c k
  | XExact ch =>
      match s with
      | x :: s' => if (x =? ch)%N then k s' c else None
      | [] => None
      end
  | XStarDigitOrComma => starDigitOrComma s c k
  | XCat r1 r2 => xmatch r1 s c (fun s' c' => xmatch r2 s' c' k)
  | XGroup n r1 =>
      xmatch r1 s c
        (fun s' c' =>
           k s' (setCapture n (firstn (length s - length s') s) c'))
  end.
End Matcher.

Definition xmatchHere (r : xregex) (s : jsstring) : option (jsstring * captures) :=
  xmatch r s [] (fun s' c => Some (s', c)).

Fixpoint xexecFrom (r : xregex) (s : jsstring) (i : nat) : option MatchResult :=
  match xmatchHere r s with
  | Some (s', c) => Some (mkMatch i (firstn (length s - length s') s) c)
  | None =>
      match s with
      | [] => None
      | _ :: s' => xexecFrom r s' (S i)
      end
  end.

(** [s.match(r)] *)
Definition xString_match (s : jsstring) (r : xregex) : option MatchResult :=
  xexecFrom r s 0.

(** A run of pattern characters without the [i] flag. *)
Fixpoint xchars (l : list N) : xregex :=
  match l with
  | [] => XOld Eps
  | [c] => XExact c
  | c :: l' => XCat (XExact c) (xchars l')
  end.

Definition xlit (s : string) : xregex := xchars (js s).

End RegexExt.
Import RegexExt.

Module Keyword.

Local Open Scope string_scope.
Local Open Scope list_scope.
Local Open Scope regex_scope.

(** [keyword] is a string or [undefined]. *)
Record KeywordAnalysisResult : Type := mkResult {
  keyword : option jsstring;
  searchVolume : number;
  trend : jsstring;
  competitionLevel : jsstring;
  relevanceScore : number;
  commercialIntent : jsstring;
  difficulty : number;
  recommendation : jsstring;
  relatedKeywords : list jsstring
}.

(** The word for, a space and a lazily matched text between double quotes
    (group 1); without the [i] flag. *)
Definition keywordRegex : xregex :=
  XCat (xlit "for ")
    (XCat (XExact QUOTE)
       (XCat (XGroup 1 (XOld (StarLazy AnyChar))) (XExact QUOTE))).

(** [keywordMatch ? keywordMatch[1] : "Unknown keyword"]; a group that is
    [undefined] stays [undefined] ([None]). *)
Definition extractKeyword (rawOutput : jsstring) : option jsstring :=
  match xString_match rawOutput keywordRegex with
  | Some keywordMatch => group keywordMatch 1
  | None => Some (js "Unknown keyword")
  end.

(** The word volume, an optional colon, white space, and in group 1 a digit
    followed by digits and commas; with the [i] flag. *)
Definition volumeRegex : xregex :=
  XCat (XOld (lit "volume" >> colon >> ws))
       (XGroup 1 (XCat (XOld (Atom Digit)) XStarDigitOrComma)).

(** [s.replace(/,/g, '')] *)
Definition removeCommas (s : jsstring) : jsstring :=
  filter (fun c => negb (c =? 44)%N) s.

(** [volumeMatch ? parseInt(volumeMatch[1].replace(/,/g, '')) : 1000] *)
Definition extractSearchVolume (rawOutput : jsstring) : outcome number :=
  match xString_match rawOutput volumeRegex with
  | Some volumeMatch =>
      do digits <- method (group volumeMatch 1) removeCommas;
      Returns (parseInt digits)
  | None => Returns 1000%float
  end.

Definition trendRegexes : list regex :=
  [ lit "trend" >> colon >> ws >> restOfLine;
    lit "trend" >> Opt (lit "s") >> colon >> ws >> restOfLine;
    lit "search trend" >> Opt (lit "s") >> lit " " >> Group 1 (words ["is"; "are"])
      >> colon >> ws >> Group 2 (StarLazy AnyChar)
      >> Group 3 (Alt (Atom (Lit LF)) Eoi);
    lit "keyword " >> Group 1 (words ["is"; "has been"]) >> lit " "
      >> Group 2 (words ["increasing"; "decreasing"; "stable"; "trending";
                         "growing"]) ].

Definition competitionRegexes : list regex :=
  [ lit "competition level" >> colon >> ws >> restOfLine;
    lit "competition" >> colon >> ws >> restOfLine;
    lit "competitive" >> colon >> ws >> restOfLine;
    lit "competition " >> Group 1 (words ["is"; "seems"; "appears to be"])
      >> lit " "
      >> Group 2 (words ["high"; "medium"; "low"; "moderate"; "intense";
                         "minimal"]) ].

Definition intentRegexes : list regex :=
  [ lit "commercial intent" >> colon >> ws >> restOfLine;
    lit "buying intent" >> colon >> ws >> restOfLine;
    lit "purchase intent" >> colon >> ws >> restOfLine;
    lit "intent" >> colon >> ws >> restOfLine;
    lit "intent " >> Group 1 (words ["is"; "appears to be"; "seems"])
      >> lit " " >> Group 2 (words ["high"; "medium"; "low"]) ].

(** The chain of tests on [trendText]; [None] when no test succeeds and the
    loop goes on. *)
Definition classifyTrend (trendText : jsstring) : option jsstring :=
  if test (words ["increas"; "grow"; "upward"; "rising"; "positive"; "up";
                  "higher"]) trendText
  then Some (js "Increasing")
  else if test (words ["decreas"; "down"; "declining"; "falling"; "negative";
                       "lower"]) trendText
  then Some (js "Decreasing")
  else if test (words ["stable"; "steady"; "consistent"; "flat"; "unchanged"])
               trendText
  then Some (js "Stable")
  else if test (words ["seasonal"; "cyclical"; "periodic"]) trendText
  then Some (js "Seasonal")
  else None.

Definition classifyCompetition (compText : jsstring) : option jsstring :=
  if test (words ["high"; "intense"; "strong"; "fierce"; "significant"]) compText
  then Some (js "High")
  else if test (words ["medium"; "moderate"; "average"; "mid"]) compText
  then Some (js "Medium")
  else if test (words ["low"; "minimal"; "weak"; "little"; "limited"]) compText
  then Some (js "Low")
  else None.

Definition classifyIntent (intentText : jsstring) : option jsstring :=
  if test (words ["high"; "strong"; "significant"; "excellent"; "good";
                  "above average"]) intentText
  then Some (js "High")
  else if test (words ["medium"; "moderate"; "average"; "mid"]) intentText
  then Some (js "Medium")
  else if test (words ["low"; "minimal"; "weak"; "little"; "poor"; "limited";
                       "below average"]) intentText
  then Some (js "Low")
  else None.

(** [match[1] || match[2] || ""] *)
Definition firstTruthyGroup (m : MatchResult) : jsstring :=
  match truthy (group m 1) with
  | Some g => g
  | None =>
      match truthy (group m 2) with
      | Some g => g
      | None => []
      end
  end.

(** The loop
[[
  for (const regex of regexes) {
    const match = rawOutput.match(regex);
    if (match) {
      const text = match[1] || match[2] || "";
      if (...) { label = ...; break; } else if ...
    }
  }
]]
    of the three label fields. *)
Fixpoint scanLabel (classify : jsstring -> option jsstring)
         (regexes : list regex) (rawOutput : jsstring) : option jsstring :=
  match regexes with
  | [] => None
  | regex :: rest =>
      let found :=
        match String_match rawOutput regex with
        | Some m => classify (firstTruthyGroup m)
        | None => None
        end in
      match found with
      | Some label => Some label
      | None => scanLabel classify rest rawOutput
      end
  end.

Definition relevanceRegexes : list regex :=
  [ lit "relevance score" >> colon >> ws >> digits1 >> lit "/10";
    lit "relevance" >> colon >> ws >> digits1 >> lit "/10";
    lit "relevance" >> colon >> ws >> digits1 >> lit " out of 10";
    lit "relevance " >> words ["score"; "rating"] >> lit " of " >> digits1 ].

(** [difficulty]: from the competition level, moved by the search volume,
    then clamped to 1-10. *)
Definition computeDifficulty (competitionLevel : jsstring)
           (searchVolume : number) : number :=
  let difficulty : number :=
    if JsString.eqb competitionLevel (js "High") then 8%float
    else if JsString.eqb competitionLevel (js "Medium") then 6%float
    else 4%float in
  let difficulty :=
    if (10000 <? searchVolume)%float then (difficulty + 1)%float
    else if (searchVolume <? 1000)%float then (difficulty - 1)%float
    else difficulty in
  Math_max 1 (Math_min 10 difficulty).

Definition relatedRegexes : list regex :=
  [ lit "related " >> gap >> colon >> ws >> restOfLine;
    lit "related keywords" >> colon >> ws >> restOfLine;
    lit "similar keywords" >> colon >> ws >> restOfLine;
    lit "keyword variations" >> colon >> ws >> restOfLine;
    lit "alternative keywords" >> colon >> ws >> restOfLine;
    lit "suggested keywords" >> colon >> ws >> restOfLine ].

(** [match[1].split(/,|;/).map(kw => kw.trim()).filter(kw => kw.length > 0)],
    kept when it is not empty. *)
Definition keywordsOf (g : jsstring) : option (list jsstring) :=
  let keywordsList :=
    filter (fun kw => (0 <? length kw)%nat) (map trim (split listSeparator g)) in
  if (0 <? length keywordsList)%nat then Some keywordsList else None.

(** In the fourth pattern the first group is [(ion|ed)]; the text of the line
    is the second group. *)
Definition recommendationRegexes : list regex :=
  [ lit "recommendation" >> colon >> ws >> restOfLine;
    lit "recommended approach" >> colon >> ws >> restOfLine;
    lit "recommended strategy" >> colon >> ws >> restOfLine;
    lit "suggest" >> Group 1 (words ["ion"; "ed"]) >> colon >> ws
      >> Group 2 (StarLazy AnyChar) >> Group 3 (Alt (Atom (Lit LF)) Eoi);
    lit "I recommend" >> colon >> ws >> restOfLine ].

(** The recommendation made from the labels, for [if (!recommendation)]. *)
Definition generatedRecommendation (commercialIntent competitionLevel keyword : jsstring)
  : jsstring :=
  if JsString.eqb commercialIntent (js "High")
     && JsString.eqb competitionLevel (js "Low")
  then js "Priority target: Create commercial content for " ++ [QUOTE]
       ++ keyword ++ [QUOTE]
  else if JsString.eqb commercialIntent (js "High")
          && JsString.eqb competitionLevel (js "High")
  then js "Create in-depth, unique content to compete for " ++ [QUOTE]
       ++ keyword ++ [QUOTE]
  else if JsString.eqb commercialIntent (js "Low")
  then js "Create informational content for " ++ [QUOTE] ++ keyword ++ [QUOTE]
       ++ js " to build authority"
  else js "Target this keyword with comprehensive, long-form content".

(** A keyword that is [undefined] is printed as the word undefined by a
    template. *)
Definition templateText (keyword : option jsstring) : jsstring :=
  match keyword with
  | Some k => k
  | None => js "undefined"
  end.

Definition formatKeywordResults (rawOutput : jsstring)
  : outcome KeywordAnalysisResult :=
  let keyword := extractKeyword rawOutput in
  do searchVolume <- extractSearchVolume rawOutput;
  let trend :=
    orDefault (scanLabel classifyTrend trendRegexes rawOutput) (js "Stable") in
  let competitionLevel :=
    orDefault (scanLabel classifyCompetition competitionRegexes rawOutput)
              (js "Medium") in
  let relevanceScore :=
    orDefault (scanPatterns (fun _ g => Some (parseInt g))
                 relevanceRegexes rawOutput) 5%float in
  let commercialIntent :=
    orDefault (scanLabel classifyIntent intentRegexes rawOutput) (js "Medium") in
  let difficulty := computeDifficulty competitionLevel searchVolume in
  let relatedKeywords :=
    orDefault (scanPatterns (fun _ g => keywordsOf g) relatedRegexes rawOutput)
              [templateText keyword ++ js " guide";
               templateText keyword ++ js " tutorial"] in
  let recommendation :=
    orDefault (scanPatterns (fun _ g => Content.longerThan 20 g)
                 recommendationRegexes rawOutput) [] in
  let recommendation :=
    match recommendation with
    | [] => generatedRecommendation commercialIntent competitionLevel
              (templateText keyword)
    | _ :: _ => recommendation
    end in
  Returns (mkResult keyword searchVolume trend competitionLevel
             relevanceScore commercialIntent difficulty recommendation
             relatedKeywords).

End Keyword.

(* ================================================================== *)
(** * The badges of the result views *)
(* ================================================================== *)

Module Ui.
Section CaseMapping.
Variable toLowerCase : jsstring -> jsstring.

(** [getBadgeColor] of [KeywordResults], applied to
    [result.commercialIntent]. *)
Definition getBadgeColor (level : jsstring) : jsstring :=
  let lowerLevel := toLowerCase level in
  if includes lowerLevel (js "high") then js "green"
  else if includes lowerLevel (js "medium") then js "yellow"
  else if includes lowerLevel (js "low") then js "red"
  else js "gray".

(** [getPriorityColor] of [ContentResults] and of [TechnicalSeoResults]
    (the same text in both), applied to [rec.priority] and to
    [improvement.priority]. *)
Definition getPriorityColor (priority : jsstring) : jsstring :=
  let lowerPriority := toLowerCase priority in
  if includes lowerPriority (js "high") then js "red"
  else if includes lowerPriority (js "medium") then js "yellow"
  else if includes lowerPriority (js "low") then js "green"
  else js "gray".

(** [getEffortColor] of [TechnicalSeoResults], applied to
    [improvement.effort]. *)
Definition getEffortColor (effort : jsstring) : jsstring :=
  let lowerEffort := toLowerCase effort in
  if includes lowerEffort (js "high") then js "red"
  else if includes lowerEffort (js "medium") then js "yellow"
  else if includes lowerEffort (js "low") then js "green"
  else js "gray".
End CaseMapping.

(** The conditions under which [ContentResults] shows its last three
    sections: [result.missingSubtopics.length > 0], [result.improvedTitle]
    and [result.improvedMetaDescription] as conditions. *)
Definition showsMissingSubtopics (result : Content.ContentOptimizationResult)
  : bool :=
  (0 <? length (Content.missingSubtopics result))%nat.

Definition showsImprovedTitle (result : Content.ContentOptimizationResult)
  : bool :=
  match truthy (Content.improvedTitle result) with
  | Some _ => true
  | None => false
  end.

Definition showsImprovedMetaDescription
           (result : Content.ContentOptimizationResult) : bool :=
  match truthy (Content.improvedMetaDescription result) with
  | Some _ => true
  | None => false
  end.
End Ui.


(* ================================================================== *)
(** * Notions used to state the properties *)
(* ================================================================== *)

Unset Implicit Arguments.
Open Scope string_scope.
Open Scope list_scope.

(** The least number of code units a match of the pattern takes. *)
Fixpoint minLen (r : regex) : nat :=
  match r with
  | Atom _ | Plus _ => 1
  | Cat r1 r2 => minLen r1 + minLen r2
  | Alt r1 r2 => Nat.min (minLen r1) (minLen r2)
  | Group _ r1 => minLen r1
  | Eps | Opt _ | Star _ | StarLazy _ | Eoi => 0
  end.

(** Group [n] occurs in the pattern. *)
Fixpoint touches (n : nat) (r : regex) : bool :=
  match r with
  | Cat r1 r2 | Alt r1 r2 => touches n r1 || touches n r2
  | Opt r1 => touches n r1
  | Group m r1 => (m =? n)%nat || touches n r1
  | _ => false
  end.

(** Every match of the pattern sets group [n], to at least [k] code units. *)
Fixpoint definesGroupMin (k n : nat) (r : regex) : bool :=
  match r with
  | Cat r1 r2 =>
      definesGroupMin k n r2 || (definesGroupMin k n r1 && negb (touches n r2))
  | Alt r1 r2 => definesGroupMin k n r1 && definesGroupMin k n r2
  | Group m r1 =>
      if (m =? n)%nat then (k <=? minLen r1)%nat else definesGroupMin k n r1
  | _ => false
  end.

(** What is known when the matcher of [r], started on [s] with captures [c],
    calls its continuation on [s'] with captures [c']. *)
Record reaches (r : regex) (s : jsstring) (c : captures)
       (s' : jsstring) (c' : captures) : Prop := mkReaches {
  reaches_consumed : exists u, s = u ++ s' /\ minLen r <= length u;
  reaches_defined : forall k n, definesGroupMin k n r = true ->
                    exists v, getCapture n c' = Some v /\ k <= length v;
  reaches_framed : forall n, touches n r = false -> getCapture n c' = getCapture n c
}.

(** The loop patterns: every match takes at least one code unit and has its
    first group. *)
Definition loopPattern (r : regex) : bool :=
  (1 <=? minLen r)%nat && definesGroupMin 0 1 r.

(** The score patterns: every match has a first group that is not empty. *)
Definition capturing (r : regex) : bool := definesGroupMin 1 1 r.

(** [regex] is the first pattern of [regexes], in the order of the list, that
    matches somewhere in [rawOutput]; [m] is its match. *)
Definition firstMatching (regexes : list regex) (rawOutput : jsstring)
           (regex : regex) (m : MatchResult) : Prop :=
  exists before after,
    regexes = before ++ regex :: after /\
    (forall r, In r before -> test r rawOutput = false) /\
    String_match rawOutput regex = Some m.

(** No pattern of [regexes] matches anywhere in [rawOutput]. *)
Definition noneMatches (regexes : list regex) (rawOutput : jsstring) : Prop :=
  forall regex, In regex regexes -> test regex rawOutput = false.

(** [l1] is [l2] with some elements left out, the others in their order. *)
Inductive subseq {A : Type} : list A -> list A -> Prop :=
| subseq_nil : subseq [] []
| subseq_skip : forall x l1 l2, subseq l1 l2 -> subseq l1 (x :: l2)
| subseq_keep : forall x l1 l2, subseq l1 l2 -> subseq (x :: l1) (x :: l2).

(** The continuation at the end of a pattern. *)
Definition done : continuation (jsstring * captures) :=
  fun s c => Some (s, c).

(** [(\n|$)], the second group of [restOfLine]. *)
Definition lineEnd : regex := Group 2 (Alt (Atom (Lit LF)) Eoi).

(** The lazy loop of the first group of [restOfLine], which began at
    [start]. *)
Definition lazyLine (start s : jsstring) (c : captures)
  : option (jsstring * captures) :=
  starLazy AnyChar s c
    (fun s' c' =>
       rmatch lineEnd s'
         (setCapture 1 (firstn (length start - length s') start) c') done).

(** A label, [:?], [\s*], then [(.*?)(\n|$)]. *)
Definition labelledLine (r : regex) : Prop :=
  exists label, r = Cat label (Cat colon (Cat ws restOfLine)).

(** A string of ASCII characters. *)
Definition isAscii (s : jsstring) : Prop := Forall (fun c => (c < 128)%N) s.

(** A lower-case mapping that does on ASCII strings what the Unicode tables
    do. *)
Definition lowersAscii (toLowerCase : jsstring -> jsstring) : Prop :=
  forall s, isAscii s -> toLowerCase s = asciiLower s.

(** An integer score cut to the range of a percentage. *)
Definition clamp (z : Z) : Z := Z.max 0 (Z.min 100 z).

(** The integer a small whole Number stands for (0 for any other Number). *)
Definition smallIntegers : list Z :=
  map (fun i => (Z.of_nat i - 10)%Z) (seq 0 21).

Definition toZ (x : number) : Z :=
  match find (fun z => Leibniz.eqb x (ofZ z)) smallIntegers with
  | Some z => z
  | None => 0%Z
  end.

(** The integers between which the sums of signal points stay. *)
Definition scoreRange : list Z :=
  map (fun i => (Z.of_nat i - 200)%Z) (seq 0 601).

(** The points of every signal are small integers. *)
Definition smallPoints (signals : list Technical.Signal) : bool :=
  forallb (fun s =>
             existsb (fun z => Leibniz.eqb (Technical.points s) (ofZ z))
                     smallIntegers)
          signals.

(** The sum of the points of the signals whose pattern is found. *)
Definition signalSum (signals : list Technical.Signal) (rawOutput : jsstring) : Z :=
  fold_right Z.add 0%Z
    (map (fun s => toZ (Technical.points s))
         (filter (fun s => test (Technical.pattern s) rawOutput) signals)).

(** The adjustment of the keyword score for a density. *)
Definition densityDelta (keywordDensity : number) : Z :=
  if ((0.5 <=? keywordDensity) && (keywordDensity <=? 2.5))%float then 20%Z
  else if ((2.5 <? keywordDensity) && (keywordDensity <=? 3.5))%float then 10%Z
  else if (3.5 <? keywordDensity)%float then (-10)%Z
  else if (keywordDensity <? 0.5)%float then (-15)%Z
  else 0%Z.

Definition placementDelta (found : bool) : Z := if found then 10%Z else 0%Z.

(** The substrings whose presence [computeSchemaScore] looks for. *)
Definition schemaDetectors : list jsstring :=
  map js [ "Likely eligible"; "Partially eligible"; "Schema types detected";
           "No schema detected"; "JSON-LD instances:";
           "Within <head> tag (recommended)";
           "Missing recommended properties" ].

(** Whether a match was found. *)
Definition succeeds {A : Type} (o : option A) : bool :=
  match o with
  | Some _ => true
  | None => false
  end.

(** The texts that a pattern made of pattern characters, alternatives and
    options only can match, in canonical form; [None] for a pattern with a
    class or a quantifier. *)
Fixpoint texts (r : regex) : option (list jsstring) :=
  match r with
  | Atom (Lit c) => Some [[canonicalize c]]
  | Eps | Eoi => Some [[]]
  | Cat r1 r2 =>
      match texts r1, texts r2 with
      | Some l1, Some l2 => Some (flat_map (fun u => map (app u) l2) l1)
      | _, _ => None
      end
  | Alt r1 r2 =>
      match texts r1, texts r2 with
      | Some l1, Some l2 => Some (l1 ++ l2)
      | _, _ => None
      end
  | Opt r1 =>
      match texts r1 with
      | Some l1 => Some (l1 ++ [[]])
      | None => None
      end
  | Group _ r1 => texts r1
  | _ => None
  end.

(** The texts, in canonical form, that group [n] can hold after a match of
    the pattern, when every match sets the group and the parenthesis has
    pattern characters, alternatives and options only. *)
Fixpoint groupTexts (n : nat) (r : regex) : option (list jsstring) :=
  match r with
  | Cat r1 r2 => if touches n r2 then groupTexts n r2 else groupTexts n r1
  | Alt r1 r2 =>
      match groupTexts n r1, groupTexts n r2 with
      | Some l1, Some l2 => Some (l1 ++ l2)
      | _, _ => None
      end
  | Group m r1 => if (m =? n)%nat then texts r1 else groupTexts n r1
  | _ => None
  end.

(** Two texts that differ in the case of ASCII letters only. *)
Definition sameModuloCase (s t : jsstring) : Prop :=
  map canonicalize s = map canonicalize t.

(** The labels of the results. *)
Definition levels : list jsstring := map js ["High"; "Medium"; "Low"].
Definition trends : list jsstring :=
  map js ["Increasing"; "Decreasing"; "Stable"; "Seasonal"].
Definition technicalCategories : list jsstring :=
  map js ["Performance"; "Mobile"; "Schema"; "Structure"].
Definition contentCategories : list jsstring :=
  map js ["Keyword Usage"; "Readability"; "Semantic Relevance";
          "Content Structure"; "Meta Data"].

(** The level of a badge and its colour, in the view of a keyword and in
    the views of a content analysis and of a technical audit. *)
Definition intentBadges : list (jsstring * jsstring) :=
  [(js "High", js "green"); (js "Medium", js "yellow"); (js "Low", js "red")].
Definition priorityBadges : list (jsstring * jsstring) :=
  [(js "High", js "red"); (js "Medium", js "yellow"); (js "Low", js "green")].

(** An improvement and a recommendation with labels of the fixed sets. *)
Definition labelledImprovement (i : Technical.Improvement) : Prop :=
  In (Technical.category i) technicalCategories /\
  In (Technical.priority i) levels /\ In (Technical.effort i) levels.
Definition labelledRecommendation (i : Content.Recommendation) : Prop :=
  In (Content.priority i) levels /\ In (Content.category i) contentCategories.

(** An issue whose text holds no period and no semicolon. *)
Definition oneSentence (c : Technical.CriticalIssue) : Prop :=
  forallb (fun ch => negb (sentenceEnd ch)) (Technical.issue c) = true.

(** A text that can stand between quotes as a keyword: without a quote and
    without a line break. *)
Definition quotable (v : jsstring) : bool :=
  forallb (fun ch => negb (ch =? QUOTE)%N && negb (isLineTerminator ch)) v.

(** Group [n] is, in every match of the pattern, a run of digits. *)
Fixpoint groupDigits (n : nat) (r : regex) : bool :=
  match r with
  | Cat r1 r2 => if touches n r2 then groupDigits n r2 else groupDigits n r1
  | Alt r1 r2 => groupDigits n r1 && groupDigits n r2
  | Group m r1 =>
      if (m =? n)%nat
      then match r1 with
           | Plus Digit => true
           | _ => false
           end
      else groupDigits n r1
  | _ => false
  end.

(** The carriage return. *)
Definition CR : N := 13.

(** A text whose lines all end with a carriage return and a line feed, and
    that has no other line break. *)
Fixpoint crlfLines (s : jsstring) : bool :=
  match s with
  | [] => true
  | c :: s' =>
      if isLineTerminator c
      then (c =? CR)%N && match s' with
                          | d :: s'' => (d =? LF)%N && crlfLines s''
                          | [] => false
                          end
      else match s' with
           | [] => false
           | _ :: _ => crlfLines s'
           end
  end.

(** What is left of such a text from any place on: the place may be
    between the carriage return and the line feed. *)
Definition crlfRest (s : jsstring) : bool :=
  crlfLines s ||
  match s with
  | c :: s' => (c =? LF)%N && crlfLines s'
  | [] => false
  end.

(** A pattern that ends with [(.*?)(\n|$)]. *)
Inductive lineValued : regex -> Prop :=
| lineValued_here : lineValued restOfLine
| lineValued_after : forall r1 r2, lineValued r2 -> lineValued (Cat r1 r2).

(** ** Proof steps *)

Ltac case_if :=
  match goal with
  | |- context [if ?b then _ else _] => destruct b
  end.

(* ================================================================== *)
(** * Facts about strings *)
(* ================================================================== *)

Lemma startsWith_refl : forall s, startsWith s s = true.
Proof.
  induction s as [|a s IH]; simpl; auto.
  now rewrite N.eqb_refl.
Qed.

Lemma eqb_eq : forall a b, JsString.eqb a b = true <-> a = b.
Proof.
  unfold JsString.eqb. intros a b. split.
  - revert b. induction a as [|x a IH]; destruct b as [|y b]; simpl;
      try discriminate; auto.
    intros H. apply andb_true_iff in H as [Hl H].
    apply andb_true_iff in H as [Hxy H].
    apply N.eqb_eq in Hxy. subst y. f_equal. apply IH.
    apply andb_true_iff. split; auto.
  - intros ->. rewrite Nat.eqb_refl, startsWith_refl. reflexivity.
Qed.

Lemma trimStart_id : forall c s, isWhiteSpace c = false -> trimStart (c :: s) = c :: s.
Proof. intros c s H. simpl. now rewrite H. Qed.

(** Trimming a string that starts with something else than white space
    leaves something. *)
Lemma trim_nonempty : forall c s, isWhiteSpace c = false -> trim (c :: s) <> [].
Proof.
  intros c s H. unfold trim, trimEnd. rewrite trimStart_id by assumption.
  simpl rev. intros E.
  assert (E' : trimStart (rev s ++ [c]) = []).
  { apply (f_equal (@rev N)) in E. rewrite rev_involutive in E. exact E. }
  clear E. induction (rev s) as [|x l IH]; simpl in E'.
  - rewrite H in E'. discriminate.
  - destruct (isWhiteSpace x); [auto | discriminate].
Qed.

Lemma split_nonempty : forall sep s, split sep s <> [].
Proof.
  intros sep s. destruct s as [|c s]; simpl; [discriminate|].
  destruct (sep c); [discriminate|].
  destruct (split sep s); discriminate.
Qed.

(* ================================================================== *)
(** * Facts about the matcher *)
(* ================================================================== *)

Section MatcherFacts.
Variable res : Type.
Implicit Types (k : continuation res) (x : res).

Lemma orElse_inv : forall (a : option res) b x,
  orElse a b = Some x -> a = Some x \/ (a = None /\ b tt = Some x).
Proof. intros [y|] b x H; simpl in H; auto. Qed.

Lemma starGreedy_inv : forall a s c k x,
  starGreedy a s c k = Some x ->
  exists u s', s = u ++ s' /\ k s' c = Some x.
Proof.
  induction s as [|y s IH]; simpl; intros c k x H.
  - exists [], []. auto.
  - destruct (matchAtom a y).
    + apply orElse_inv in H as [H|[_ H]].
      * destruct (IH _ _ _ H) as (u & s' & -> & Hk).
        exists (y :: u), s'. auto.
      * exists [], (y :: s). auto.
    + exists [], (y :: s). auto.
Qed.

Lemma starLazy_inv : forall a s c k x,
  starLazy a s c k = Some x ->
  exists u s', s = u ++ s' /\ k s' c = Some x.
Proof.
  induction s as [|y s IH]; simpl; intros c k x H.
  - apply orElse_inv in H as [H|[_ H]]; [|discriminate].
    exists [], []. auto.
  - apply orElse_inv in H as [H|[_ H]].
    + exists [], (y :: s). auto.
    + destruct (matchAtom a y); [|discriminate].
      destruct (IH _ _ _ H) as (u & s' & -> & Hk).
      exists (y :: u), s'. auto.
Qed.

(** A star that fails did try the continuation right where it started. *)
Lemma starGreedy_none : forall a s c k,
  starGreedy a s c k = None -> k s c = None.
Proof.
  intros a [|y s] c k H; simpl in H; auto.
  destruct (matchAtom a y); auto.
  destruct (starGreedy a s c k); simpl in H; [discriminate | auto].
Qed.

Lemma reaches_quantified : forall r a s c u s',
  (r = Star a \/ r = StarLazy a) -> s = u ++ s' -> reaches r s c s' c.
Proof.
  intros r a s c u s' Hr ->. split.
  - exists u. split; auto. destruct Hr; subst r; simpl; lia.
  - intros k n H. destruct Hr; subst r; discriminate.
  - reflexivity.
Qed.

(** A result of the matcher is a result of its continuation, called on a
    rest of the input after at least [minLen r] code units, with the groups
    of [r] set. *)
Lemma rmatch_inv : forall r s c k x,
  rmatch r s c k = Some x ->
  exists s' c', k s' c' = Some x /\ reaches r s c s' c'.
Proof.
  induction r as [a| |r1 IH1 r2 IH2|r1 IH1 r2 IH2|r1 IH1|a|a|a|n r1 IH1|];
    simpl; intros s c k x H.
  - (* Atom *)
    destruct s as [|y s]; [discriminate|].
    destruct (matchAtom a y); [|discriminate].
    exists s, c. split; auto. split; try discriminate; auto.
    exists [y]. simpl. auto.
  - (* Eps *)
    exists s, c. split; auto. split; try discriminate; auto.
    exists []. simpl. auto.
  - (* Cat *)
    destruct (IH1 _ _ _ _ H) as (s1 & c1 & H1 & [(u1 & -> & L1) D1 F1]).
    destruct (IH2 _ _ _ _ H1) as (s2 & c2 & H2 & [(u2 & -> & L2) D2 F2]).
    exists s2, c2. split; auto. split.
    + exists (u1 ++ u2). rewrite <- app_assoc, length_app. simpl. split; auto. lia.
    + intros k0 n Hd. apply orb_true_iff in Hd as [Hd|Hd]; auto.
      apply andb_true_iff in Hd as [Hd Ht]. apply negb_true_iff in Ht.
      rewrite (F2 _ Ht). auto.
    + intros n Ht. apply orb_false_iff in Ht as [Ht1 Ht2].
      rewrite (F2 _ Ht2). auto.
  - (* Alt *)
    apply orElse_inv in H as [H|[_ H]].
    + destruct (IH1 _ _ _ _ H) as (s1 & c1 & H1 & [(u1 & -> & L1) D1 F1]).
      exists s1, c1. split; auto. split.
      * exists u1. simpl. split; auto. lia.
      * intros k0 n Hd. apply andb_true_iff in Hd as [Hd _]. auto.
      * intros n Ht. apply orb_false_iff in Ht as [Ht _]. auto.
    + destruct (IH2 _ _ _ _ H) as (s1 & c1 & H1 & [(u1 & -> & L1) D1 F1]).
      exists s1, c1. split; auto. split.
      * exists u1. simpl. split; auto. lia.
      * intros k0 n Hd. apply andb_true_iff in Hd as [_ Hd]. auto.
      * intros n Ht. apply orb_false_iff in Ht as [_ Ht]. auto.
  - (* Opt *)
    apply orElse_inv in H as [H|[_ H]].
    + destruct (IH1 _ _ _ _ H) as (s1 & c1 & H1 & [(u1 & -> & L1) D1 F1]).
      exists s1, c1. split; auto. split; try discriminate; auto.
      exists u1. simpl. split; auto. lia.
    + exists s, c. split; auto. split; try discriminate; auto.
      exists []. simpl. auto.
  - (* Star *)
    destruct (starGreedy_inv _ _ _ _ _ H) as (u & s' & E & Hk).
    exists s', c. split; auto. eapply reaches_quantified; eauto.
  - (* Plus *)
    destruct s as [|y s]; [discriminate|].
    destruct (matchAtom a y); [|discriminate].
    destruct (starGreedy_inv _ _ _ _ _ H) as (u & s' & -> & Hk).
    exists s', c. split; auto. split; try discriminate; auto.
    exists (y :: u). simpl. split; auto. lia.
  - (* StarLazy *)
    destruct (starLazy_inv _ _ _ _ _ H) as (u & s' & E & Hk).
    exists s', c. split; auto. eapply reaches_quantified; eauto.
  - (* Group *)
    destruct (IH1 _ _ _ _ H) as (s1 & c1 & H1 & [(u1 & -> & L1) D1 F1]).
    rewrite length_app, Nat.add_sub, firstn_app, Nat.sub_diag, firstn_all in H1.
    simpl in H1. rewrite app_nil_r in H1.
    exists s1, (setCapture n u1 c1). split; auto. split.
    + exists u1. auto.
    + intros k0 m Hd. simpl in Hd. unfold setCapture. simpl.
      destruct (n =? m)%nat; auto.
      exists u1. split; auto. apply Nat.leb_le in Hd. lia.
    + intros m Ht. simpl in Ht. apply orb_false_iff in Ht as [Hn Ht].
      unfold setCapture. simpl. rewrite Hn. auto.
  - (* Eoi *)
    destruct s; [|discriminate].
    exists [], c. split; auto. split; try discriminate; auto.
    exists []. simpl. auto.
Qed.

(** A match of [r1 r2] ends with a match of [r2]. *)
Lemma rmatch_Cat_inv : forall r1 r2 s c k x,
  rmatch (Cat r1 r2) s c k = Some x ->
  exists s' c', rmatch r2 s' c' k = Some x.
Proof.
  intros r1 r2 s c k x H.
  change (rmatch r1 s c (fun s' c' => rmatch r2 s' c' k) = Some x) in H.
  destruct (rmatch_inv _ _ _ _ _ H) as (s' & c' & E & _). eauto.
Qed.

End MatcherFacts.

(** ** Matches found by [String.prototype.match] *)

Lemma execFrom_inv : forall r s i m,
  execFrom r s i = Some m ->
  exists pre s0 s',
    s = pre ++ s0 /\ index m = i + length pre /\
    matchHere r s0 = Some (s', groups m) /\
    matched m = firstn (length s0 - length s') s0.
Proof.
  intros r. induction s as [|y s IH]; intros i m H; simpl in H.
  - destruct (matchHere r []) as [[s' c]|] eqn:E; [|discriminate].
    inversion H; subst m; clear H. exists [], [], s'. simpl.
    repeat split; auto.
  - destruct (matchHere r (y :: s)) as [[s' c]|] eqn:E.
    + inversion H; subst m; clear H. exists [], (y :: s), s'. simpl.
      repeat split; auto.
    + destruct (IH _ _ H) as (pre & s0 & s' & -> & Hi & Hm & Hf).
      exists (y :: pre), s0, s'. simpl. repeat split; auto. lia.
Qed.

Lemma matchHere_inv : forall r s s' c,
  matchHere r s = Some (s', c) -> reaches r s [] s' c.
Proof.
  unfold matchHere. intros r s s' c H.
  destruct (rmatch_inv _ _ _ _ _ _ H) as (s1 & c1 & E & R).
  inversion E; subst. exact R.
Qed.

(** What a match object says about the text and the pattern. *)
Lemma String_match_inv : forall s r m,
  String_match s r = Some m ->
  index m + length (matched m) <= length s /\
  minLen r <= length (matched m) /\
  (forall k n, definesGroupMin k n r = true ->
               exists v, group m n = Some v /\ k <= length v).
Proof.
  unfold String_match. intros s r m H.
  destruct (execFrom_inv _ _ _ _ H) as (pre & s0 & s' & -> & Hi & Hm & Hf).
  destruct (matchHere_inv _ _ _ _ Hm) as [(u & -> & L) D _].
  rewrite length_app, Nat.add_sub, firstn_app, Nat.sub_diag, firstn_all in Hf.
  simpl in Hf. rewrite app_nil_r in Hf. rewrite Hf, Hi.
  rewrite !length_app. repeat split; auto; lia.
Qed.

Lemma test_false : forall r s, test r s = false <-> String_match s r = None.
Proof.
  unfold test. intros r s. destruct (String_match s r); split; congruence.
Qed.

(** ** The scanning loops come back *)

Lemma method_group_returns : forall (A : Type) m r s (f : jsstring -> A),
  String_match s r = Some m -> definesGroupMin 0 1 r = true ->
  exists v, method (group m 1) f = Returns (f v).
Proof.
  intros A m r s f H D.
  destruct (String_match_inv _ _ _ H) as (_ & _ & G).
  destruct (G _ _ D) as (v & -> & _). exists v. reflexivity.
Qed.

Lemma method0_split_returns : forall (A : Type) sep s (f : jsstring -> A),
  exists v, method0 (split sep s) f = Returns (f v).
Proof.
  intros A sep s f. unfold method0.
  destruct (split sep s) as [|v l] eqn:E.
  - now apply split_nonempty in E.
  - exists v. reflexivity.
Qed.

(** After a match of a loop pattern the rest of the text is shorter. *)
Lemma loop_progress : forall r raw startPos m fuel,
  loopPattern r = true ->
  String_match (substring_from startPos raw) r = Some m ->
  length raw - startPos < S fuel ->
  length raw - (startPos + (index m + length (matched m))) < fuel.
Proof.
  intros r raw startPos m fuel L H F.
  apply andb_true_iff in L as [L _]. apply Nat.leb_le in L.
  destruct (String_match_inv _ _ _ H) as (B & M & _).
  unfold substring_from in B. rewrite length_skipn in B. lia.
Qed.

Ltac loop_step H L :=
  let v := fresh "v" in
  let E := fresh "E" in
  pose proof L as E; apply andb_true_iff in E as [_ E];
  destruct (method_group_returns _ _ _ _ trim H E) as (v & ->);
  cbn [bind].

Lemma scanIssues_returns : forall toUpperCase regex,
  loopPattern regex = true ->
  forall fuel rawOutput startPos acc,
    length rawOutput - startPos < fuel ->
    exists out, Technical.scanIssues toUpperCase fuel regex rawOutput startPos acc
                = Returns out.
Proof.
  intros toUpperCase regex L. induction fuel as [|fuel IH];
    intros rawOutput startPos acc F; [lia|].
  simpl. destruct (String_match _ regex) as [m|] eqn:H; [|eauto].
  loop_step H L.
  case_if.
  - destruct (method0_split_returns _ sentenceEnd (trim v) trim) as (w & ->).
    cbn [bind]. case_if; [eauto|].
    apply IH. eapply loop_progress; eauto.
  - cbn [bind]. case_if; [eauto|].
    apply IH. eapply loop_progress; eauto.
Qed.

Lemma scanAllIssues_returns : forall toUpperCase regexes,
  forallb loopPattern regexes = true ->
  forall rawOutput acc,
    exists out, Technical.scanAllIssues toUpperCase (S (length rawOutput))
                  regexes rawOutput acc = Returns out.
Proof.
  intros toUpperCase. induction regexes as [|r rs IH]; intros L rawOutput acc.
  - simpl. eauto.
  - simpl in L. apply andb_true_iff in L as [L Ls]. simpl.
    destruct (scanIssues_returns toUpperCase r L (S (length rawOutput))
                rawOutput 0 acc) as (out & E); [lia|].
    simpl in E. rewrite E. cbn [bind]. case_if; eauto.
Qed.

Lemma scanImprovements_returns : forall regex,
  loopPattern regex = true ->
  forall fuel rawOutput startPos acc,
    length rawOutput - startPos < fuel ->
    exists out, Technical.scanImprovements fuel regex rawOutput startPos acc
                = Returns out.
Proof.
  intros regex L. induction fuel as [|fuel IH];
    intros rawOutput startPos acc F; [lia|].
  simpl. destruct (String_match _ regex) as [m|] eqn:H; [|eauto].
  loop_step H L.
  case_if.
  - destruct (method0_split_returns _ sentenceEnd (trim v) trim) as (w & ->).
    cbn [bind]. case_if; [eauto|].
    apply IH. eapply loop_progress; eauto.
  - cbn [bind]. case_if; [eauto|].
    apply IH. eapply loop_progress; eauto.
Qed.

Lemma scanAllImprovements_returns : forall regexes,
  forallb loopPattern regexes = true ->
  forall rawOutput acc,
    exists out, Technical.scanAllImprovements (S (length rawOutput))
                  regexes rawOutput acc = Returns out.
Proof.
  induction regexes as [|r rs IH]; intros L rawOutput acc.
  - simpl. eauto.
  - simpl in L. apply andb_true_iff in L as [L Ls]. simpl.
    destruct (scanImprovements_returns r L (S (length rawOutput))
                rawOutput 0 acc) as (out & E); [lia|].
    simpl in E. rewrite E. cbn [bind]. case_if; eauto.
Qed.

Lemma scanRecommendations_returns : forall regex,
  loopPattern regex = true ->
  forall fuel rawOutput startPos acc,
    length rawOutput - startPos < fuel ->
    exists out, Content.scanRecommendations fuel regex rawOutput startPos acc
                = Returns out.
Proof.
  intros regex L. induction fuel as [|fuel IH];
    intros rawOutput startPos acc F; [lia|].
  simpl. destruct (String_match _ regex) as [m|] eqn:H; [|eauto].
  loop_step H L.
  apply IH. eapply loop_progress; eauto.
Qed.

Lemma scanAllRecommendations_returns : forall regexes,
  forallb loopPattern regexes = true ->
  forall rawOutput acc,
    exists out, Content.scanAllRecommendations (S (length rawOutput))
                  regexes rawOutput acc = Returns out.
Proof.
  induction regexes as [|r rs IH]; intros L rawOutput acc.
  - simpl. eauto.
  - simpl in L. apply andb_true_iff in L as [L Ls]. simpl.
    destruct (scanRecommendations_returns r L (S (length rawOutput))
                rawOutput 0 acc) as (out & E); [lia|].
    simpl in E. rewrite E. cbn [bind]. eauto.
Qed.

(** [formatTechnicalSeoResults] comes back with a record whose scores are
    the ones computed from the text alone. *)
Lemma formatTechnicalSeoResults_returns : forall toLowerCase toUpperCase rawOutput,
  exists r,
    Technical.formatTechnicalSeoResults toLowerCase toUpperCase rawOutput = Returns r /\
    Technical.performanceScore r =
      orDefault (Technical.scanInt Technical.performanceRegexes rawOutput) 65%float /\
    Technical.mobileScore r =
      orDefault (Technical.scanInt Technical.mobileRegexes rawOutput) 70%float /\
    Technical.structureScore r = Technical.computeStructureScore rawOutput /\
    Technical.schemaScore r = Technical.computeSchemaScore rawOutput /\
    Technical.overallScore r =
      Technical.computeOverallScore (Technical.performanceScore r)
        (Technical.mobileScore r) (Technical.structureScore r)
        (Technical.schemaScore r).
Proof.
  intros toLowerCase toUpperCase rawOutput.
  unfold Technical.formatTechnicalSeoResults.
  destruct (scanAllIssues_returns toUpperCase Technical.issueRegexes
              eq_refl rawOutput []) as (issues & ->).
  cbn [bind].
  destruct (scanAllImprovements_returns Technical.improvementRegexes
              eq_refl rawOutput []) as (direct & ->).
  cbn [bind]. eexists. split; [reflexivity|]. simpl. repeat split.
Qed.

(* ================================================================== *)
(** * Removing duplicate improvements *)
(* ================================================================== *)

Section DedupeFacts.
Variable toLowerCase : jsstring -> jsstring.

Local Notation unique := (Technical.uniqueImprovements toLowerCase).
Local Notation duplicate := (Technical.isDuplicateOf toLowerCase).

(** One round of the [reduce] callback. *)
Lemma unique_snoc : forall l x,
  unique (l ++ [x]) =
  if existsb (duplicate x) (unique l) then unique l else unique l ++ [x].
Proof.
  intros l x. unfold Technical.uniqueImprovements at 1.
  rewrite fold_left_app. simpl.
  fold (Technical.uniqueImprovements toLowerCase l).
  destruct (existsb (duplicate x) (unique l)); reflexivity.
Qed.

Lemma unique_idempotent : forall l, unique (unique l) = unique l.
Proof.
  induction l as [|x l IH] using rev_ind; [reflexivity|].
  rewrite unique_snoc.
  destruct (existsb (duplicate x) (unique l)) eqn:E; [exact IH|].
  rewrite unique_snoc, IH, E. reflexivity.
Qed.

Lemma subseq_snoc_skip : forall (A : Type) (x : A) l1 l2,
  subseq l1 l2 -> subseq l1 (l2 ++ [x]).
Proof.
  intros A x l1 l2 H. induction H; simpl.
  - apply subseq_skip, subseq_nil.
  - now apply subseq_skip.
  - now apply subseq_keep.
Qed.

Lemma subseq_snoc_keep : forall (A : Type) (x : A) l1 l2,
  subseq l1 l2 -> subseq (l1 ++ [x]) (l2 ++ [x]).
Proof.
  intros A x l1 l2 H. induction H; simpl.
  - apply subseq_keep, subseq_nil.
  - now apply subseq_skip.
  - now apply subseq_keep.
Qed.

Lemma unique_subseq : forall l, subseq (unique l) l.
Proof.
  induction l as [|x l IH] using rev_ind; [apply subseq_nil|].
  rewrite unique_snoc. destruct (existsb (duplicate x) (unique l)).
  - now apply subseq_snoc_skip.
  - now apply subseq_snoc_keep.
Qed.

(** What was kept of the front of a list stays at the front. *)
Lemma unique_app : forall l1 l2, exists t, unique (l1 ++ l2) = unique l1 ++ t.
Proof.
  intros l1 l2. induction l2 as [|x l2 IH] using rev_ind.
  - exists []. now rewrite !app_nil_r.
  - destruct IH as (t & IH). rewrite app_assoc, unique_snoc, IH.
    destruct (existsb _ _).
    + now exists t.
    + exists (t ++ [x]). now rewrite app_assoc.
Qed.

(** What was kept of the front of a list is the front of what is kept of
    the whole list. *)
Lemma unique_front : forall l1 l2,
  firstn (length (unique l1)) (unique (l1 ++ l2)) = unique l1.
Proof.
  intros l1 l2. destruct (unique_app l1 l2) as (t & ->).
  rewrite firstn_app, Nat.sub_diag, firstn_all. simpl. apply app_nil_r.
Qed.

Lemma unique_head : forall x l, hd_error (unique (x :: l)) = Some x.
Proof.
  intros x l. destruct (unique_app [x] l) as (t & E).
  simpl app in E. rewrite E. reflexivity.
Qed.

(** No item that is kept is a duplicate of an item kept before it. *)
Lemma unique_kept : forall l l1 x l2,
  unique l = l1 ++ x :: l2 -> existsb (duplicate x) l1 = false.
Proof.
  induction l as [|y l IH] using rev_ind; intros l1 x l2 H.
  - destruct l1; discriminate.
  - rewrite unique_snoc in H.
    destruct (existsb (duplicate y) (unique l)) eqn:E; eauto.
    destruct l2 as [|z l2] using rev_ind.
    + apply app_inj_tail in H as [H1 H2]. subst. exact E.
    + clear IHl2. rewrite app_comm_cons, app_assoc in H.
      apply app_inj_tail in H as [H _]. eauto.
Qed.

End DedupeFacts.

(** C8.  The duplicate-removal pass over the improvements is idempotent:
    applying it twice gives what applying it once gives.  It keeps the order
    of the items (its result is the input with some items left out), and of
    the items that are duplicates of each other (same category, and one
    lower-cased recommendation contains the first 20 code units of the
    other) it keeps the first: the item that comes after a list is dropped
    if it is a duplicate of an item kept from the list and is added at the
    end if it is not; what was kept before stays as it is, whatever comes
    later; the first item of a list is always kept; and no item that is
    kept is a duplicate of an item kept before it. *)
Theorem uniqueImprovements_idempotent_order_preserving :
  forall toLowerCase : jsstring -> jsstring,
    (forall l,
       Technical.uniqueImprovements toLowerCase
         (Technical.uniqueImprovements toLowerCase l)
       = Technical.uniqueImprovements toLowerCase l) /\
    (forall l, subseq (Technical.uniqueImprovements toLowerCase l) l) /\
    Technical.uniqueImprovements toLowerCase [] = [] /\
    (forall l x,
       Technical.uniqueImprovements toLowerCase (l ++ [x]) =
       if existsb (Technical.isDuplicateOf toLowerCase x)
                  (Technical.uniqueImprovements toLowerCase l)
       then Technical.uniqueImprovements toLowerCase l
       else Technical.uniqueImprovements toLowerCase l ++ [x]) /\
    (forall l1 l2,
       firstn (length (Technical.uniqueImprovements toLowerCase l1))
              (Technical.uniqueImprovements toLowerCase (l1 ++ l2))
       = Technical.uniqueImprovements toLowerCase l1) /\
    (forall x l,
       hd_error (Technical.uniqueImprovements toLowerCase (x :: l)) = Some x) /\
    (forall l l1 x l2,
       Technical.uniqueImprovements toLowerCase l = l1 ++ x :: l2 ->
       existsb (Technical.isDuplicateOf toLowerCase x) l1 = false).
Proof.
  intros toLowerCase.
  split; [apply unique_idempotent|].
  split; [apply unique_subseq|].
  split; [reflexivity|].
  split; [apply unique_snoc|].
  split; [apply unique_front|].
  split; [apply unique_head|].
  apply unique_kept.
Qed.

(** Of three improvements of one category, the second begins as the first
    does and is dropped; the first and the third are kept, in this order. *)
Example uniqueImprovements_drops_later_duplicate :
  let a := Technical.mkImprovement (js "Performance")
             (js "Optimize images and implement lazy loading")
             (js "High") (js "Medium") in
  let b := Technical.mkImprovement (js "Performance")
             (js "Optimize images and serve them in a modern format")
             (js "Medium") (js "Low") in
  let c := Technical.mkImprovement (js "Performance")
             (js "Minify the style sheets and the scripts")
             (js "Low") (js "Low") in
  Technical.uniqueImprovements asciiLower [a; b; c] = [a; c] /\
  Technical.uniqueImprovements asciiLower [b; a; c] = [b; c].
Proof. split; reflexivity. Qed.

Lemma isAscii_check : forall s,
  forallb (fun c => (c <? 128)%N) s = true -> isAscii s.
Proof.
  intros s H. apply Forall_forall. intros c Hc.
  apply N.ltb_lt. revert c Hc. apply forallb_forall. exact H.
Qed.

Lemma asciiLower_lowersAscii : lowersAscii asciiLower.
Proof. intros s _. reflexivity. Qed.

(** C6, as the code has it.  The recommendations "Optimize images and
    implement lazy loading" and "Optimize images for faster loading" of one
    category are not duplicates of each other: their first 20 lower-cased
    code units, "optimize images and " and "optimize images for ", differ
    from the 17th on, and neither text contains the first 20 code units of
    the other.  Both are kept, in their order. *)
Theorem optimize_images_pair_kept :
  forall (toLowerCase : jsstring -> jsstring) cat p1 e1 p2 e2,
    lowersAscii toLowerCase ->
    let first :=
      Technical.mkImprovement cat
        (js "Optimize images and implement lazy loading") p1 e1 in
    let second :=
      Technical.mkImprovement cat
        (js "Optimize images for faster loading") p2 e2 in
    Technical.isDuplicateOf toLowerCase second first = false /\
    Technical.uniqueImprovements toLowerCase [first; second] = [first; second].
Proof.
  intros toLowerCase cat p1 e1 p2 e2 H first second.
  assert (D : Technical.isDuplicateOf toLowerCase second first = false).
  { unfold Technical.isDuplicateOf, first, second. simpl.
    rewrite !H by (apply isAscii_check; reflexivity).
    apply andb_false_iff. right. vm_compute. reflexivity. }
  split; [exact D|].
  unfold Technical.uniqueImprovements. simpl. rewrite D. reflexivity.
Qed.

Lemma optimize_images_pair_kept_witness :
  lowersAscii asciiLower /\
  Technical.uniqueImprovements asciiLower
    [Technical.mkImprovement (js "Performance")
       (js "Optimize images and implement lazy loading") (js "Medium") (js "Low");
     Technical.mkImprovement (js "Performance")
       (js "Optimize images for faster loading") (js "Medium") (js "Low")]
  = [Technical.mkImprovement (js "Performance")
       (js "Optimize images and implement lazy loading") (js "Medium") (js "Low");
     Technical.mkImprovement (js "Performance")
       (js "Optimize images for faster loading") (js "Medium") (js "Low")].
Proof.
  split.
  - exact asciiLower_lowersAscii.
  - exact (proj2 (optimize_images_pair_kept asciiLower (js "Performance")
                    (js "Medium") (js "Low") (js "Medium") (js "Low")
                    asciiLower_lowersAscii)).
Defined.

(** C6, as the specification has it, fails: the second recommendation is not
    dropped. *)
Lemma optimize_images_second_not_dropped :
  Technical.uniqueImprovements asciiLower
    [Technical.mkImprovement (js "Performance")
       (js "Optimize images and implement lazy loading") (js "Medium") (js "Low");
     Technical.mkImprovement (js "Performance")
       (js "Optimize images for faster loading") (js "Medium") (js "Low")]
  <> [Technical.mkImprovement (js "Performance")
        (js "Optimize images and implement lazy loading") (js "Medium") (js "Low")].
Proof. vm_compute. discriminate. Qed.

(* ================================================================== *)
(** * Classifying a recommendation *)
(* ================================================================== *)

(** C7.  The fragment "This is an urgent fix for mobile tap targets" is
    classified as category Mobile (no performance word occurs in it, the
    mobile group matches), priority High (the high group matches on
    "urgent") and effort Medium (neither effort group matches, so the
    initial label stays). *)
Theorem classify_urgent_mobile_fix :
  let fragment := js "This is an urgent fix for mobile tap targets" in
  Technical.classifyCategory fragment = js "Mobile" /\
  Technical.classifyPriority fragment = js "High" /\
  Technical.classifyEffort fragment = js "Medium" /\
  test (words ["urgent"]) fragment = true /\
  test (words ["simple"; "easy"; "quick"; "straightforward"; "minor"; "fast"])
       fragment = false /\
  test (words ["complex"; "difficult"; "major"; "extensive"; "significant";
               "time-consuming"]) fragment = false.
Proof. vm_compute. repeat split. Qed.

(** The same fragment through the whole function: a line "Recommendation:
    ..." becomes the first improvement, with these labels. *)
Example classify_urgent_mobile_fix_in_context :
  exists r rest,
    Technical.formatTechnicalSeoResults asciiLower asciiUpper
      (js "Recommendation: This is an urgent fix for mobile tap targets")
    = Returns r /\
    Technical.improvements r =
    Technical.mkImprovement (js "Mobile")
      (js "This is an urgent fix for mobile tap targets.")
      (js "High") (js "Medium") :: rest.
Proof. eexists. eexists. vm_compute. split; reflexivity. Qed.

(* ================================================================== *)
(** * Scores when nothing is found *)
(* ================================================================== *)

Lemma evidence_no_match : forall (A : Type) (accept : regex -> jsstring -> option A)
                                 rawOutput r,
  test r rawOutput = false -> evidence accept rawOutput r = None.
Proof.
  intros A accept rawOutput r H. apply test_false in H.
  unfold evidence. now rewrite H.
Qed.

Lemma scanPatterns_none : forall (A : Type) (accept : regex -> jsstring -> option A)
                                 regexes rawOutput,
  (forall r, In r regexes -> test r rawOutput = false) ->
  scanPatterns accept regexes rawOutput = None.
Proof.
  intros A accept regexes rawOutput. induction regexes as [|r rs IH]; intros H.
  - reflexivity.
  - simpl. assert (E : test r rawOutput = false) by (apply H; now left).
    rewrite (evidence_no_match _ accept _ _ E).
    apply IH. intros r' Hr. apply H. now right.
Qed.

Lemma applySignals_none : forall signals rawOutput score,
  (forall s, In s signals -> test (Technical.pattern s) rawOutput = false) ->
  Technical.applySignals signals rawOutput score = score.
Proof.
  unfold Technical.applySignals. induction signals as [|s ss IH];
    intros rawOutput score H; simpl; [reflexivity|].
  rewrite (H s) by now left. apply IH. intros s' Hs. apply H. now right.
Qed.

Lemma startsWith_app : forall s a b,
  startsWith s (a ++ b) = true -> startsWith s a = true.
Proof.
  intros s a. revert s. induction a as [|x a IH]; intros s b H.
  - destruct s; reflexivity.
  - destruct s as [|y s]; simpl in *; [discriminate|].
    apply andb_true_iff in H as [H1 H2]. rewrite H1. simpl. eapply IH; eauto.
Qed.

(** A text without a phrase is without every extension of the phrase. *)
Lemma includes_app_false : forall s a b,
  includes s a = false -> includes s (a ++ b) = false.
Proof.
  assert (P : forall s a b, startsWith s a = false ->
                            startsWith s (a ++ b) = false).
  { intros s a b H. destruct (startsWith s (a ++ b)) eqn:E; auto.
    apply startsWith_app in E. congruence. }
  induction s as [|y s IH]; intros a b H.
  - change (startsWith [] a || false = false) in H.
    change (startsWith [] (a ++ b) || false = false).
    apply orb_false_iff in H as [H _]. now rewrite P.
  - change (startsWith (y :: s) a || includes s a = false) in H.
    change (startsWith (y :: s) (a ++ b) || includes s (a ++ b) = false).
    apply orb_false_iff in H as [H1 H2]. now rewrite P, IH.
Qed.

(** C3.  When the text matches none of the score patterns, none of the
    structure signals and contains none of the schema phrases -- the empty
    text is such a text -- [formatTechnicalSeoResults] returns (no error
    reaches the caller) and the scores are the defaults: performance 65,
    mobile 70, structure 70, schema 50, and the overall score is the rounded
    weighted sum of these, 65. *)
Theorem technical_defaults_when_nothing_matches :
  forall (toLowerCase toUpperCase : jsstring -> jsstring) rawOutput,
    (forall regex,
        In regex (Technical.performanceRegexes ++ Technical.mobileRegexes
                  ++ Technical.schemaRegexes) ->
        test regex rawOutput = false) ->
    (forall signal,
        In signal (Technical.structureSignals ++ Technical.negativeStructureSignals) ->
        test (Technical.pattern signal) rawOutput = false) ->
    (forall phrase, In phrase schemaDetectors -> includes rawOutput phrase = false) ->
    exists r,
      Technical.formatTechnicalSeoResults toLowerCase toUpperCase rawOutput
      = Returns r /\
      Technical.performanceScore r = 65%float /\
      Technical.mobileScore r = 70%float /\
      Technical.structureScore r = 70%float /\
      Technical.schemaScore r = 50%float /\
      Technical.overallScore r = 65%float /\
      Technical.overallScore r =
        Math_round ((65 * 0.4) + (70 * 0.25) + (70 * 0.2) + (50 * 0.15))%float.
Proof.
  intros toLowerCase toUpperCase rawOutput Hregex Hsignal Hphrase.
  destruct (formatTechnicalSeoResults_returns toLowerCase toUpperCase rawOutput)
    as (r & E & Hp & Hm & Hst & Hsc & Ho).
  assert (P : Technical.performanceScore r = 65%float).
  { rewrite Hp. unfold Technical.scanInt. rewrite scanPatterns_none; auto.
    intros x Hx. apply Hregex. apply in_or_app. now left. }
  assert (M : Technical.mobileScore r = 70%float).
  { rewrite Hm. unfold Technical.scanInt. rewrite scanPatterns_none; auto.
    intros x Hx. apply Hregex. apply in_or_app. right. apply in_or_app. now left. }
  assert (S : Technical.structureScore r = 70%float).
  { rewrite Hst. unfold Technical.computeStructureScore, Technical.signalScore.
    rewrite !applySignals_none; [reflexivity | |];
      intros x Hx; apply Hsignal; apply in_or_app; auto. }
  assert (C : Technical.schemaScore r = 50%float).
  { rewrite Hsc. unfold Technical.computeSchemaScore, Technical.scanInt.
    rewrite scanPatterns_none
      by (intros x Hx; apply Hregex; apply in_or_app; right;
          apply in_or_app; now right).
    assert (D : forall phrase tail, In phrase schemaDetectors ->
                                    includes rawOutput (phrase ++ tail) = false)
      by (intros; apply includes_app_false; auto).
    change (js "Schema types detected: None detected")
      with (js "Schema types detected" ++ js ": None detected").
    cbn [orDefault].
    rewrite (Hphrase (js "Likely eligible")),
            (Hphrase (js "Partially eligible")),
            (Hphrase (js "Schema types detected")),
            (D (js "Schema types detected")),
            (Hphrase (js "No schema detected")),
            (Hphrase (js "JSON-LD instances:")),
            (Hphrase (js "Within <head> tag (recommended)")),
            (Hphrase (js "Missing recommended properties"));
      [reflexivity | unfold schemaDetectors; simpl; tauto ..]. }
  exists r. rewrite Ho, P, M, S, C. repeat split; auto.
Qed.

Lemma technical_defaults_when_nothing_matches_witness :
  exists r,
    Technical.formatTechnicalSeoResults asciiLower asciiUpper (js "") = Returns r /\
    Technical.performanceScore r = 65%float /\
    Technical.mobileScore r = 70%float /\
    Technical.structureScore r = 70%float /\
    Technical.schemaScore r = 50%float /\
    Technical.overallScore r = 65%float /\
    Technical.overallScore r =
      Math_round ((65 * 0.4) + (70 * 0.25) + (70 * 0.2) + (50 * 0.15))%float.
Proof.
  apply (technical_defaults_when_nothing_matches asciiLower asciiUpper (js "")).
  - intros regex H. simpl in H.
    repeat (destruct H as [<-|H]; [reflexivity|]). contradiction.
  - intros signal H. simpl in H.
    repeat (destruct H as [<-|H]; [reflexivity|]). contradiction.
  - intros phrase H. simpl in H.
    repeat (destruct H as [<-|H]; [reflexivity|]). contradiction.
Defined.

(* ================================================================== *)
(** * Scores read from the text *)
(* ================================================================== *)

(* ================================================================== *)
(** * [formatContentResults] comes back *)
(* ================================================================== *)

Lemma formatContentResults_returns : forall toUpperCase rawOutput,
  exists r,
    Content.formatContentResults toUpperCase rawOutput = Returns r /\
    Content.readabilityScore r =
      orDefault (scanPatterns (fun _ g => Some (parseInt g))
                   Content.readabilityRegexes rawOutput) 65%float /\
    Content.semanticScore r =
      Math_round
        (orDefault (scanPatterns (fun regex g => Some (Content.topicScoreOf regex g))
                      Content.semanticScoreRegexes rawOutput) 7 * 10)%float /\
    Content.keywordScore r =
      Content.computeKeywordScore
        (orDefault (scanPatterns (fun _ g => Some (parseFloat g))
                      Content.keywordDensityRegexes rawOutput) 1.5%float)
        (Content.anyTest Content.h1InclusionRegexes rawOutput)
        (Content.anyTest Content.introInclusionRegexes rawOutput) /\
    Content.missingSubtopics r =
      orDefault (scanPatterns (fun _ g => Content.subtopicsOf g)
                   Content.missingSubtopicsRegexes rawOutput)
                [js "Topic research needed"] /\
    Content.improvedTitle r =
      Some (orDefault (scanPatterns (fun _ g => Content.longerThan 10 g)
                         Content.titleRegexes rawOutput)
                      (Content.defaultTitle toUpperCase
                         (Content.extractKeyword rawOutput))) /\
    Content.improvedMetaDescription r =
      Some (orDefault (scanPatterns (fun _ g => Content.longerThan 20 g)
                         Content.metaRegexes rawOutput)
                      (Content.defaultMetaDescription
                         (Content.extractKeyword rawOutput))).
Proof.
  intros toUpperCase rawOutput. unfold Content.formatContentResults.
  destruct (scanAllRecommendations_returns Content.recommendationRegexes
              eq_refl rawOutput []) as (direct & ->).
  cbn [bind]. eexists. split; [reflexivity|]. simpl. repeat split.
Qed.

(* ================================================================== *)
(** * Which pattern gives the value *)
(* ================================================================== *)

(** What one pattern contributes to a scan. *)
Lemma scanPatterns_cons : forall (A : Type) (accept : regex -> jsstring -> option A)
                                 regex rest rawOutput,
  scanPatterns accept (regex :: rest) rawOutput =
  match evidence accept rawOutput regex with
  | Some v => Some v
  | None => scanPatterns accept rest rawOutput
  end.
Proof. reflexivity. Qed.

(** The scan gives the evidence of the first pattern, in the order of the
    list, that has some. *)
Lemma scanPatterns_first_evidence :
  forall (A : Type) (accept : regex -> jsstring -> option A)
         before regex after rawOutput v,
    (forall r, In r before -> evidence accept rawOutput r = None) ->
    evidence accept rawOutput regex = Some v ->
    scanPatterns accept (before ++ regex :: after) rawOutput = Some v.
Proof.
  intros A accept before regex after rawOutput v. induction before as [|r rs IH];
    intros Hb Hv.
  - simpl app. rewrite scanPatterns_cons, Hv. reflexivity.
  - simpl app. rewrite scanPatterns_cons, (Hb r) by now left.
    apply IH; auto. intros r' Hr. apply Hb. now right.
Qed.

(** A match of a pattern whose first group cannot be empty is evidence. *)
Lemma evidence_capturing : forall (A : Type) (accept : regex -> jsstring -> option A)
                                  rawOutput regex m,
  capturing regex = true -> String_match rawOutput regex = Some m ->
  exists g, group m 1 = Some g /\ g <> [] /\
            evidence accept rawOutput regex = accept regex g.
Proof.
  intros A accept rawOutput regex m C H.
  destruct (String_match_inv _ _ _ H) as (_ & _ & G).
  destruct (G _ _ C) as (g & Hg & L). exists g. split; auto.
  unfold evidence. rewrite H, Hg. destruct g; simpl in *; [lia|].
  split; [discriminate | reflexivity].
Qed.

(** For a list of patterns whose first group cannot be empty, and a value
    that is always accepted, the first pattern that matches gives the
    value. *)
Lemma scanPatterns_firstMatching :
  forall (A : Type) (value : regex -> jsstring -> A) regexes rawOutput regex m,
    forallb capturing regexes = true ->
    firstMatching regexes rawOutput regex m ->
    exists g, group m 1 = Some g /\
              scanPatterns (fun r g => Some (value r g)) regexes rawOutput
              = Some (value regex g).
Proof.
  intros A value regexes rawOutput regex m C (before & after & -> & Hb & Hm).
  assert (Cr : capturing regex = true).
  { rewrite forallb_forall in C. apply C. apply in_or_app. right. now left. }
  destruct (evidence_capturing _ (fun r g => Some (value r g)) _ _ _ Cr Hm)
    as (g & Hg & _ & Ev).
  exists g. split; auto.
  apply scanPatterns_first_evidence; auto.
  intros r Hr. apply evidence_no_match. auto.
Qed.

(** C4, as the code has it.  For the numeric fields the value comes from the
    pattern declared first among those that match somewhere in the text,
    wherever the matches lie: the scan stops at it.  This holds for the
    performance, mobile, readability and semantic scores of the returned
    records, and for the scans of a stated schema score and of the keyword
    density.  For [missingSubtopics], [improvedTitle] and
    [improvedMetaDescription] a pattern gives the value only if its captured
    text passes the guard of the field (a non-empty subtopic other than
    "None"; more than 10, or 20, code units): a matching pattern that fails
    it is passed over and the scan goes on; the value is that of the first
    pattern with accepted evidence. *)
Theorem first_declared_pattern_wins :
  forall (toLowerCase toUpperCase : jsstring -> jsstring) rawOutput,
    (forall regex m,
        firstMatching Technical.performanceRegexes rawOutput regex m ->
        exists g r,
          group m 1 = Some g /\
          Technical.formatTechnicalSeoResults toLowerCase toUpperCase rawOutput
          = Returns r /\
          Technical.performanceScore r = parseInt g) /\
    (forall regex m,
        firstMatching Technical.mobileRegexes rawOutput regex m ->
        exists g r,
          group m 1 = Some g /\
          Technical.formatTechnicalSeoResults toLowerCase toUpperCase rawOutput
          = Returns r /\
          Technical.mobileScore r = parseInt g) /\
    (forall regex m,
        firstMatching Content.readabilityRegexes rawOutput regex m ->
        exists g r,
          group m 1 = Some g /\
          Content.formatContentResults toUpperCase rawOutput = Returns r /\
          Content.readabilityScore r = parseInt g) /\
    (forall regex m,
        firstMatching Content.semanticScoreRegexes rawOutput regex m ->
        exists g r,
          group m 1 = Some g /\
          Content.formatContentResults toUpperCase rawOutput = Returns r /\
          Content.semanticScore r
          = Math_round (Content.topicScoreOf regex g * 10)%float) /\
    (forall regexes regex m,
        In regexes [Technical.schemaRegexes; Content.keywordDensityRegexes] ->
        firstMatching regexes rawOutput regex m ->
        exists g,
          group m 1 = Some g /\
          forall (A : Type) (value : Regex.regex -> jsstring -> A),
            scanPatterns (fun r g => Some (value r g)) regexes rawOutput
            = Some (value regex g)) /\
    (forall before regex after v,
        Content.missingSubtopicsRegexes = before ++ regex :: after ->
        (forall r, In r before ->
                   evidence (fun _ g => Content.subtopicsOf g) rawOutput r = None) ->
        evidence (fun _ g => Content.subtopicsOf g) rawOutput regex = Some v ->
        exists r,
          Content.formatContentResults toUpperCase rawOutput = Returns r /\
          Content.missingSubtopics r = v) /\
    (forall before regex after v,
        Content.titleRegexes = before ++ regex :: after ->
        (forall r, In r before ->
                   evidence (fun _ g => Content.longerThan 10 g) rawOutput r = None) ->
        evidence (fun _ g => Content.longerThan 10 g) rawOutput regex = Some v ->
        exists r,
          Content.formatContentResults toUpperCase rawOutput = Returns r /\
          Content.improvedTitle r = Some v) /\
    (forall before regex after v,
        Content.metaRegexes = before ++ regex :: after ->
        (forall r, In r before ->
                   evidence (fun _ g => Content.longerThan 20 g) rawOutput r = None) ->
        evidence (fun _ g => Content.longerThan 20 g) rawOutput regex = Some v ->
        exists r,
          Content.formatContentResults toUpperCase rawOutput = Returns r /\
          Content.improvedMetaDescription r = Some v).
Proof.
  intros toLowerCase toUpperCase rawOutput.
  destruct (formatTechnicalSeoResults_returns toLowerCase toUpperCase rawOutput)
    as (rt & Et & Hp & Hm & _).
  destruct (formatContentResults_returns toUpperCase rawOutput)
    as (rc & Ec & Hr & Hs & _ & Hsub & Htitle & Hmeta).
  split.
  { intros regex m F.
    destruct (scanPatterns_firstMatching _ (fun _ g => parseInt g)
                Technical.performanceRegexes _ _ _ eq_refl F) as (g & Hg & E).
    exists g, rt. repeat split; auto.
    rewrite Hp. unfold Technical.scanInt. now rewrite E. }
  split.
  { intros regex m F.
    destruct (scanPatterns_firstMatching _ (fun _ g => parseInt g)
                Technical.mobileRegexes _ _ _ eq_refl F) as (g & Hg & E).
    exists g, rt. repeat split; auto.
    rewrite Hm. unfold Technical.scanInt. now rewrite E. }
  split.
  { intros regex m F.
    destruct (scanPatterns_firstMatching _ (fun _ g => parseInt g)
                Content.readabilityRegexes _ _ _ eq_refl F) as (g & Hg & E).
    exists g, rc. repeat split; auto. rewrite Hr. now rewrite E. }
  split.
  { intros regex m F.
    destruct (scanPatterns_firstMatching _ Content.topicScoreOf
                Content.semanticScoreRegexes _ _ _ eq_refl F) as (g & Hg & E).
    exists g, rc. repeat split; auto. rewrite Hs. now rewrite E. }
  split.
  { intros regexes regex m Hin F.
    assert (C : forallb capturing regexes = true)
      by (destruct Hin as [<-|[<-|[]]]; reflexivity).
    destruct (scanPatterns_firstMatching _ (fun _ g => g) _ _ _ _ C F)
      as (g & Hg & _).
    exists g. split; auto. intros A value.
    destruct (scanPatterns_firstMatching _ value _ _ _ _ C F) as (g' & Hg' & E).
    rewrite Hg in Hg'. inversion Hg'; subst g'. exact E. }
  split.
  { intros before regex after v E Hb Hv. exists rc. split; auto.
    rewrite Hsub, E.
    now rewrite (scanPatterns_first_evidence _ _ _ _ _ _ _ Hb Hv). }
  split.
  { intros before regex after v E Hb Hv. exists rc. split; auto.
    rewrite Htitle, E.
    now rewrite (scanPatterns_first_evidence _ _ _ _ _ _ _ Hb Hv). }
  intros before regex after v E Hb Hv. exists rc. split; auto.
    rewrite Hmeta, E.
    now rewrite (scanPatterns_first_evidence _ _ _ _ _ _ _ Hb Hv).
Qed.

(** The pattern declared first wins over a match of the third pattern that
    lies earlier in the text. *)
Lemma first_declared_pattern_wins_witness :
  let rawOutput :=
    js "Performance: 40/100 at first, later Performance score: 80/100" in
  test (nth 2 Technical.performanceRegexes Eps) rawOutput = true /\
  exists m g r,
    String_match rawOutput (nth 0 Technical.performanceRegexes Eps) = Some m /\
    index m = 36 /\
    group m 1 = Some g /\
    Technical.formatTechnicalSeoResults asciiLower asciiUpper rawOutput
    = Returns r /\
    Technical.performanceScore r = parseInt g /\
    parseInt g = 80%float.
Proof.
  intros rawOutput. split; [reflexivity|].
  assert (H : exists m,
             String_match rawOutput (nth 0 Technical.performanceRegexes Eps)
             = Some m /\ index m = 36 /\ group m 1 = Some (js "80")).
  { vm_compute. eexists. repeat split. }
  destruct H as (m & H & Hi & Hg).
  destruct (proj1 (first_declared_pattern_wins asciiLower asciiUpper rawOutput)
              (nth 0 Technical.performanceRegexes Eps) m) as (g & r & G & E & P).
  { exists [], (tl Technical.performanceRegexes).
    split; [reflexivity|]. split; [intros r []|exact H]. }
  exists m, g, r. repeat split; auto.
  rewrite Hg in G. inversion G. reflexivity.
Defined.

(** C4, as the specification has it, fails for a guarded field: both the
    first and the third pattern of [missingSubtopics] match here, and the
    value is the evidence of the third; the captured text of the first,
    "None", is passed over (by itself it would leave the default list). *)
Lemma missing_subtopics_from_third_pattern :
  let rawOutput :=
    js "Missing subtopics: None" ++ [LF] ++ js "Topics to add: pricing" in
  (exists m, String_match rawOutput (nth 0 Content.missingSubtopicsRegexes Eps)
             = Some m /\ group m 1 = Some (js "None")) /\
  (exists m, String_match rawOutput (nth 2 Content.missingSubtopicsRegexes Eps)
             = Some m /\ group m 1 = Some (js "pricing")) /\
  exists r,
    Content.formatContentResults asciiUpper rawOutput = Returns r /\
    Content.missingSubtopics r = [js "pricing"] /\
    Content.missingSubtopics r
    <> orDefault (Content.subtopicsOf (js "None")) [js "Topic research needed"].
Proof.
  vm_compute. split; [|split]; eexists; split; try reflexivity.
  split; [reflexivity | discriminate].
Qed.

(* ================================================================== *)
(** * The text captured after a label *)
(* ================================================================== *)

Lemma restOfLine_unfold : forall s c,
  rmatch restOfLine s c done = lazyLine s s c.
Proof. reflexivity. Qed.

Lemma lineEnd_frame : forall s c res,
  rmatch lineEnd s c done = Some res -> getCapture 1 (snd res) = getCapture 1 c.
Proof.
  intros s c res H.
  destruct (rmatch_inv _ _ _ _ _ _ H) as (s' & c' & E & [_ _ F]).
  inversion E; subst res. simpl. apply F. reflexivity.
Qed.

(** Whether the end of the line is found does not depend on the captures. *)
Lemma lineEnd_none : forall s c c',
  rmatch lineEnd s c done = None -> rmatch lineEnd s c' done = None.
Proof.
  intros [|x s] c c' H; unfold lineEnd, done in *; simpl in *; [discriminate|].
  destruct (canonicalize x =? canonicalize LF)%N; simpl in *;
    [discriminate | reflexivity].
Qed.

Lemma lazyLine_step : forall start s c,
  lazyLine start s c =
  orElse (rmatch lineEnd s
            (setCapture 1 (firstn (length start - length s) start) c) done)
         (fun _ => match s with
                   | x :: s' =>
                       if matchAtom AnyChar x then lazyLine start s' c else None
                   | [] => None
                   end).
Proof. intros start [|x s] c; reflexivity. Qed.

Lemma lazyLine_none : forall s start start' c c',
  lazyLine start s c = None -> lazyLine start' s c' = None.
Proof.
  induction s as [|x s IH]; intros start start' c c' H;
    rewrite lazyLine_step in H; rewrite lazyLine_step;
    destruct (rmatch lineEnd _ _ done) eqn:E in H;
    try discriminate; rewrite (lineEnd_none _ _ _ E); cbn [orElse] in *;
    try reflexivity.
  destruct (matchAtom AnyChar x); [|reflexivity]. eapply IH; eauto.
Qed.

(** The first group of [restOfLine] is a prefix of the text it started on. *)
Lemma restOfLine_capture : forall s c res,
  rmatch restOfLine s c done = Some res ->
  exists v rest, s = v ++ rest /\ getCapture 1 (snd res) = Some v.
Proof.
  intros s c res H. rewrite restOfLine_unfold in H. unfold lazyLine in H.
  destruct (starLazy_inv _ _ _ _ _ _ H) as (u & s' & -> & Hk).
  apply lineEnd_frame in Hk. exists u, s'. split; auto.
  rewrite Hk. simpl.
  rewrite length_app, Nat.add_sub, firstn_app, Nat.sub_diag, firstn_all.
  simpl. now rewrite app_nil_r.
Qed.

(** If it is not empty, the rest of the line is found one unit later too. *)
Lemma restOfLine_shift : forall x s c res v,
  rmatch restOfLine (x :: s) c done = Some res ->
  getCapture 1 (snd res) = Some v -> v <> [] ->
  rmatch restOfLine s c done <> None.
Proof.
  intros x s c res v H G N. rewrite restOfLine_unfold in *.
  rewrite lazyLine_step in H.
  apply orElse_inv in H as [H|[_ H]].
  - apply lineEnd_frame in H. rewrite H in G.
    rewrite Nat.sub_diag in G. simpl in G. congruence.
  - destruct (matchAtom AnyChar x); [|discriminate].
    intros E. rewrite (lazyLine_none _ _ (x :: s) _ c E) in H.
    discriminate.
Qed.

(** After [\s*], what [(.*?)] captures does not begin with white space: the
    star took it. *)
Lemma ws_restOfLine_capture : forall s c res,
  starGreedy Space s c (fun s' c' => rmatch restOfLine s' c' done) = Some res ->
  exists v, getCapture 1 (snd res) = Some v /\
            match v with
            | [] => True
            | w :: _ => isWhiteSpace w = false
            end.
Proof.
  induction s as [|x s IH]; intros c res H; cbn [starGreedy] in H.
  - destruct (restOfLine_capture _ _ _ H) as (v & rest & E & G).
    exists v. split; auto. destruct v; [exact I | discriminate].
  - destruct (matchAtom Space x) eqn:W.
    + apply orElse_inv in H as [H|[N H]]; [eauto|].
      destruct (restOfLine_capture _ _ _ H) as (v & rest & E & G).
      exists v. split; auto. destruct v as [|w v]; [exact I|].
      apply starGreedy_none in N.
      exfalso. eapply restOfLine_shift; eauto. discriminate.
    + destruct (restOfLine_capture _ _ _ H) as (v & rest & E & G).
      exists v. split; auto. destruct v as [|w v]; [exact I|].
      inversion E; subst. exact W.
Qed.

Lemma labelledLine_capture : forall r s m,
  labelledLine r -> String_match s r = Some m ->
  exists v, group m 1 = Some v /\
            match v with
            | [] => True
            | w :: _ => isWhiteSpace w = false
            end.
Proof.
  intros r s m (label & ->) H. unfold String_match in H.
  destruct (execFrom_inv _ _ _ _ H) as (pre & s0 & s' & _ & _ & Hm & _).
  unfold matchHere in Hm. fold done in Hm.
  destruct (rmatch_Cat_inv _ _ _ _ _ _ _ Hm) as (s1 & c1 & H1).
  destruct (rmatch_Cat_inv _ _ _ _ _ _ _ H1) as (s2 & c2 & H2).
  apply (ws_restOfLine_capture _ _ _ H2).
Qed.

Lemma longerThan_nonempty : forall r s n t,
  labelledLine r ->
  evidence (fun _ g => Content.longerThan n g) s r = Some t -> t <> [].
Proof.
  intros r s n t L H. unfold evidence in H.
  destruct (String_match s r) as [m|] eqn:M; [|discriminate].
  destruct (labelledLine_capture _ _ _ L M) as (v & G & W).
  rewrite G in H. destruct v as [|w v]; simpl in H; [discriminate|].
  unfold Content.longerThan in H.
  destruct (n <? length (w :: v))%nat; [|discriminate].
  inversion H. now apply trim_nonempty.
Qed.

Lemma scan_longerThan_nonempty : forall regexes s n t,
  Forall labelledLine regexes ->
  scanPatterns (fun _ g => Content.longerThan n g) regexes s = Some t -> t <> [].
Proof.
  induction regexes as [|r rs IH]; intros s n t F H; [discriminate|].
  inversion F; subst. rewrite scanPatterns_cons in H.
  destruct (evidence _ s r) as [t'|] eqn:E.
  - inversion H; subst. eapply longerThan_nonempty; eauto.
  - eauto.
Qed.

Lemma titleRegexes_labelled : Forall labelledLine Content.titleRegexes.
Proof. repeat constructor; eexists; reflexivity. Qed.

Lemma metaRegexes_labelled : Forall labelledLine Content.metaRegexes.
Proof. repeat constructor; eexists; reflexivity. Qed.

Lemma defaultTitle_nonempty : forall toUpperCase keyword,
  Content.defaultTitle toUpperCase keyword <> [].
Proof.
  intros toUpperCase keyword. unfold Content.defaultTitle. intros E.
  apply app_eq_nil in E as [_ E]. apply app_eq_nil in E as [_ E]. discriminate.
Qed.

Lemma defaultMetaDescription_nonempty : forall keyword,
  Content.defaultMetaDescription keyword <> [].
Proof. intros keyword. discriminate. Qed.

(** C10.  [formatContentResults] always returns [improvedTitle] and
    [improvedMetaDescription] present and not empty, although the type
    makes them optional.  When no title pattern (no description pattern)
    matches, the text is the one made from the keyword, and the keyword is
    "your topic" when no keyword pattern matches. *)
Theorem improved_title_and_description_present :
  forall (toUpperCase : jsstring -> jsstring) rawOutput,
  exists r title description,
    Content.formatContentResults toUpperCase rawOutput = Returns r /\
    Content.improvedTitle r = Some title /\ title <> [] /\
    Content.improvedMetaDescription r = Some description /\ description <> [] /\
    ((forall regex, In regex Content.titleRegexes -> test regex rawOutput = false) ->
     title = Content.defaultTitle toUpperCase (Content.extractKeyword rawOutput)) /\
    ((forall regex, In regex Content.metaRegexes -> test regex rawOutput = false) ->
     description = Content.defaultMetaDescription (Content.extractKeyword rawOutput)) /\
    ((forall regex, In regex Content.keywordRegexes -> test regex rawOutput = false) ->
     Content.extractKeyword rawOutput = js "your topic").
Proof.
  intros toUpperCase rawOutput.
  destruct (formatContentResults_returns toUpperCase rawOutput)
    as (r & E & _ & _ & _ & _ & Htitle & Hmeta).
  exists r. eexists. eexists.
  split; [exact E|]. split; [exact Htitle|]. split.
  { destruct (scanPatterns _ Content.titleRegexes rawOutput) as [t|] eqn:S;
      simpl.
    - eapply scan_longerThan_nonempty; [apply titleRegexes_labelled | exact S].
    - apply defaultTitle_nonempty. }
  split; [exact Hmeta|]. split.
  { destruct (scanPatterns _ Content.metaRegexes rawOutput) as [t|] eqn:S;
      simpl.
    - eapply scan_longerThan_nonempty; [apply metaRegexes_labelled | exact S].
    - apply defaultMetaDescription_nonempty. }
  split; [|split].
  - intros H. now rewrite scanPatterns_none.
  - intros H. now rewrite scanPatterns_none.
  - intros H. unfold Content.extractKeyword. now rewrite scanPatterns_none.
Qed.

(* ================================================================== *)
(** * Scores made from signals *)
(* ================================================================== *)

(** Adding a small integer to a Number of [scoreRange] is exact, and so are
    the two orders of clamping: checked on every case. *)
Lemma additionExact_holds :
  forallb (fun a =>
             forallb (fun z => Leibniz.eqb (ofZ a + ofZ z)%float (ofZ (a + z)))
                     smallIntegers)
          scoreRange = true.
Proof. vm_compute. reflexivity. Qed.

Lemma clampExact_holds :
  forallb (fun a =>
             Leibniz.eqb (Math_max 0 (Math_min 100 (ofZ a))) (ofZ (clamp a))
             && Leibniz.eqb (Math_min 100 (Math_max 0 (ofZ a))) (ofZ (clamp a)))
          scoreRange = true.
Proof. vm_compute. reflexivity. Qed.

Lemma in_scoreRange : forall a, (-200 <= a <= 400)%Z -> In a scoreRange.
Proof.
  intros a H. unfold scoreRange. apply in_map_iff.
  exists (Z.to_nat (a + 200)). split; [lia|]. apply in_seq. lia.
Qed.

Lemma in_smallIntegers : forall z, In z smallIntegers <-> (-10 <= z <= 10)%Z.
Proof.
  intros z. unfold smallIntegers. rewrite in_map_iff. split.
  - intros (i & <- & H). apply in_seq in H. lia.
  - intros H. exists (Z.to_nat (z + 10)). split; [lia|]. apply in_seq. lia.
Qed.

Lemma ofZ_add : forall a z,
  (-200 <= a <= 400)%Z -> (-10 <= z <= 10)%Z ->
  (ofZ a + ofZ z)%float = ofZ (a + z).
Proof.
  intros a z Ha Hz. apply Leibniz.eqb_spec.
  pose proof (proj1 (forallb_forall _ scoreRange) additionExact_holds
                a (in_scoreRange a Ha)) as T.
  cbv beta in T.
  exact (proj1 (forallb_forall _ smallIntegers) T z
               (proj2 (in_smallIntegers z) Hz)).
Qed.

Lemma ofZ_clamp : forall a,
  (-200 <= a <= 400)%Z ->
  Math_max 0 (Math_min 100 (ofZ a)) = ofZ (clamp a) /\
  Math_min 100 (Math_max 0 (ofZ a)) = ofZ (clamp a).
Proof.
  intros a Ha.
  pose proof (proj1 (forallb_forall _ scoreRange) clampExact_holds
                a (in_scoreRange a Ha)) as T.
  cbv beta in T. apply andb_true_iff in T as [T1 T2].
  split; now apply Leibniz.eqb_spec.
Qed.

(** A small whole Number is the Number of its integer. *)
Lemma toZ_spec : forall x,
  existsb (fun z => Leibniz.eqb x (ofZ z)) smallIntegers = true ->
  x = ofZ (toZ x) /\ (-10 <= toZ x <= 10)%Z.
Proof.
  intros x H. unfold toZ.
  destruct (find (fun z => Leibniz.eqb x (ofZ z)) smallIntegers) as [z|] eqn:F.
  - apply find_some in F as [Hin Heq]. split.
    + now apply Leibniz.eqb_spec.
    + now apply in_smallIntegers.
  - apply existsb_exists in H as (z & Hin & Heq).
    now rewrite (find_none _ _ F z Hin) in Heq.
Qed.

Lemma signalSum_cons : forall s signals rawOutput,
  signalSum (s :: signals) rawOutput =
  ((if test (Technical.pattern s) rawOutput then toZ (Technical.points s) else 0)
   + signalSum signals rawOutput)%Z.
Proof.
  intros s signals rawOutput. unfold signalSum. simpl.
  destruct (test (Technical.pattern s) rawOutput); reflexivity.
Qed.

Lemma signalSum_app : forall t1 t2 rawOutput,
  signalSum (t1 ++ t2) rawOutput
  = (signalSum t1 rawOutput + signalSum t2 rawOutput)%Z.
Proof.
  induction t1 as [|s t1 IH]; intros t2 rawOutput.
  - reflexivity.
  - simpl app. rewrite !signalSum_cons, IH. lia.
Qed.

(** The sum does not depend on the order of the table. *)
Lemma signalSum_permutation : forall t1 t2 rawOutput,
  Permutation t1 t2 -> signalSum t1 rawOutput = signalSum t2 rawOutput.
Proof.
  intros t1 t2 rawOutput P. induction P.
  - reflexivity.
  - rewrite !signalSum_cons. lia.
  - rewrite !signalSum_cons. lia.
  - congruence.
Qed.

Lemma smallPoints_permutation : forall t1 t2,
  Permutation t1 t2 -> smallPoints t2 = true -> smallPoints t1 = true.
Proof.
  unfold smallPoints. intros t1 t2 P H. rewrite forallb_forall in *.
  intros s Hs. apply H. eapply Permutation_in; eauto.
Qed.

(** One loop over a table of small points adds, exactly, the points of the
    signals that are found. *)
Lemma applySignals_sum : forall signals rawOutput a,
  smallPoints signals = true ->
  (-200 + 10 * Z.of_nat (length signals) <= a
   <= 400 - 10 * Z.of_nat (length signals))%Z ->
  Technical.applySignals signals rawOutput (ofZ a)
  = ofZ (a + signalSum signals rawOutput) /\
  (- 10 * Z.of_nat (length signals) <= signalSum signals rawOutput
   <= 10 * Z.of_nat (length signals))%Z.
Proof.
  unfold Technical.applySignals.
  induction signals as [|s signals IH]; intros rawOutput a S R.
  - simpl. rewrite Z.add_0_r. split; [reflexivity | unfold signalSum; simpl; lia].
  - simpl in S. apply andb_true_iff in S as [Ss S].
    apply toZ_spec in Ss as [Es Bs].
    rewrite signalSum_cons. cbn [fold_left]. cbn [length] in R |- *.
    rewrite Nat2Z.inj_succ in R |- *.
    remember (toZ (Technical.points s)) as z eqn:Ez. clear Ez.
    destruct (test (Technical.pattern s) rawOutput).
    + rewrite Es, ofZ_add by lia.
      destruct (IH rawOutput (a + z)%Z S) as [E B]; [lia|].
      rewrite E. split; [f_equal; lia | lia].
    + destruct (IH rawOutput a S) as [E B]; [lia|].
      rewrite E. split; [f_equal; lia | lia].
Qed.

(** The structure score for any tables of at most ten small points each. *)
Lemma signalScore_sum : forall positive negative rawOutput,
  smallPoints positive = true -> smallPoints negative = true ->
  length positive <= 10 -> length negative <= 10 ->
  Technical.signalScore positive negative 70 rawOutput
  = ofZ (clamp (70 + signalSum (positive ++ negative) rawOutput)).
Proof.
  intros positive negative rawOutput Sp Sn Lp Ln.
  unfold Technical.signalScore.
  change 70%float with (ofZ 70).
  destruct (applySignals_sum positive rawOutput 70 Sp) as [Ep Bp]; [lia|].
  rewrite Ep.
  destruct (applySignals_sum negative rawOutput
              (70 + signalSum positive rawOutput) Sn) as [En Bn]; [lia|].
  rewrite En, signalSum_app, Z.add_assoc.
  apply ofZ_clamp. lia.
Qed.

Lemma computeKeywordScore_sum : forall keywordDensity inH1 inIntro,
  Content.computeKeywordScore keywordDensity inH1 inIntro
  = ofZ (clamp (60 + densityDelta keywordDensity + placementDelta inH1
                + placementDelta inIntro)).
Proof.
  intros keywordDensity inH1 inIntro.
  unfold Content.computeKeywordScore, densityDelta, placementDelta.
  destruct (0.5 <=? keywordDensity)%float, (keywordDensity <=? 2.5)%float,
           (2.5 <? keywordDensity)%float, (keywordDensity <=? 3.5)%float,
           (3.5 <? keywordDensity)%float, (keywordDensity <? 0.5)%float,
           inH1, inIntro; reflexivity.
Qed.

(** C5.  A score made from signals is its baseline plus the points of
    exactly the signals that are found in the text, cut to [0,100] once,
    after the sum.  The structure score is 70 plus the points of the positive
    and negative signals whose pattern is found.  The keyword score is 60
    plus the adjustment for the density that the text states, plus 10 for
    each placement found: the density is that of the first density pattern,
    in the order of the list, that matches the text, read from its group;
    when no density pattern matches it is 1.5, whose adjustment is 20.  So
    the order of the signal tables does not matter, and a sum outside
    [0,100] gives exactly 0 or 100. *)
Theorem signal_scores_clamped_once :
  forall (toLowerCase toUpperCase : jsstring -> jsstring) rawOutput,
    let sum :=
      (70 + signalSum (Technical.structureSignals
                       ++ Technical.negativeStructureSignals) rawOutput)%Z in
    let placements :=
      (placementDelta (Content.anyTest Content.h1InclusionRegexes rawOutput)
       + placementDelta
           (Content.anyTest Content.introInclusionRegexes rawOutput))%Z in
    (exists r,
        Technical.formatTechnicalSeoResults toLowerCase toUpperCase rawOutput
        = Returns r /\
        Technical.structureScore r = ofZ (clamp sum)) /\
    (forall positive negative,
        Permutation positive Technical.structureSignals ->
        Permutation negative Technical.negativeStructureSignals ->
        Technical.signalScore positive negative 70 rawOutput
        = Technical.computeStructureScore rawOutput) /\
    ((100 < sum)%Z -> Technical.computeStructureScore rawOutput = 100%float) /\
    ((sum < 0)%Z -> Technical.computeStructureScore rawOutput = 0%float) /\
    (exists r,
        Content.formatContentResults toUpperCase rawOutput = Returns r /\
        ((forall regex,
             In regex Content.keywordDensityRegexes ->
             test regex rawOutput = false) ->
         Content.keywordScore r = ofZ (clamp (60 + 20 + placements))) /\
        (forall regex m,
            firstMatching Content.keywordDensityRegexes rawOutput regex m ->
            exists g,
              group m 1 = Some g /\
              Content.keywordScore r
              = ofZ (clamp (60 + densityDelta (parseFloat g) + placements)))) /\
    (forall keywordDensity inH1 inIntro,
        Content.computeKeywordScore keywordDensity inH1 inIntro
        = ofZ (clamp (60 + densityDelta keywordDensity + placementDelta inH1
                      + placementDelta inIntro))).
Proof.
  intros toLowerCase toUpperCase rawOutput sum placements.
  assert (S : Technical.computeStructureScore rawOutput = ofZ (clamp sum)).
  { unfold Technical.computeStructureScore.
    apply signalScore_sum; try reflexivity; simpl; lia. }
  split.
  { destruct (formatTechnicalSeoResults_returns toLowerCase toUpperCase rawOutput)
      as (r & E & _ & _ & Hs & _).
    exists r. split; auto. now rewrite Hs. }
  split.
  { intros positive negative Pp Pn. rewrite S.
    rewrite signalScore_sum.
    - unfold sum. rewrite !signalSum_app.
      now rewrite (signalSum_permutation _ _ rawOutput Pp),
                  (signalSum_permutation _ _ rawOutput Pn).
    - eapply smallPoints_permutation; eauto.
    - eapply smallPoints_permutation; eauto.
    - rewrite (Permutation_length Pp). simpl. lia.
    - rewrite (Permutation_length Pn). simpl. lia. }
  split.
  { intros H. rewrite S. unfold clamp.
    rewrite Z.min_l, Z.max_r by lia. reflexivity. }
  split.
  { intros H. rewrite S. unfold clamp.
    rewrite Z.min_r, Z.max_l by lia. reflexivity. }
  split.
  { destruct (formatContentResults_returns toUpperCase rawOutput)
      as (r & E & _ & _ & Hk & _).
    exists r. split; [exact E|]. rewrite Hk. split.
    - intros N. rewrite scanPatterns_none by exact N.
      cbn [orDefault]. rewrite computeKeywordScore_sum.
      unfold placements. do 2 f_equal. change (densityDelta 1.5) with 20%Z.
      lia.
    - intros regex m F.
      destruct (scanPatterns_firstMatching _ (fun _ g => parseFloat g)
                  Content.keywordDensityRegexes _ _ _ eq_refl F)
        as (g & Hg & Ev).
      exists g. split; [exact Hg|]. rewrite Ev. cbn [orDefault].
      rewrite computeKeywordScore_sum. unfold placements. do 2 f_equal. lia. }
  apply computeKeywordScore_sum.
Qed.

Lemma ofZ_percentage : forall z,
  (0 <= z <= 100)%Z ->
  ((0 <=? ofZ z) && (ofZ z <=? 100))%float = true.
Proof.
  intros z Hz.
  assert (T : forallb (fun a => negb ((0 <=? a) && (a <=? 100))%Z
                                || ((0 <=? ofZ a) && (ofZ a <=? 100))%float)
                      scoreRange = true)
    by (vm_compute; reflexivity).
  pose proof (proj1 (forallb_forall _ scoreRange) T z
                (in_scoreRange z ltac:(lia))) as H.
  cbv beta in H.
  replace ((0 <=? z) && (z <=? 100))%Z with true in H
    by (symmetry; apply andb_true_iff; split; apply Z.leb_le; lia).
  exact H.
Qed.

Lemma clamp_range : forall z, (0 <= clamp z <= 100)%Z.
Proof. intros z. unfold clamp. lia. Qed.

(** C1 holds for the scores that are computed and fails for the scores that
    are read from the text.  The structure score and the keyword score are
    within [0,100] for every text.  A number found in the text is stored as
    it is: "Performance score: 250/100" gives a performance score of 250
    (and an overall score of 139); "Topic coverage score: 50/10" gives a
    semantic score of 500 (and a content score of 202). *)
Theorem parsed_scores_exceed_100 :
  (forall (toLowerCase toUpperCase : jsstring -> jsstring) rawOutput,
      (exists r,
          Technical.formatTechnicalSeoResults toLowerCase toUpperCase rawOutput
          = Returns r /\
          ((0 <=? Technical.structureScore r)
           && (Technical.structureScore r <=? 100))%float = true) /\
      (exists r,
          Content.formatContentResults toUpperCase rawOutput = Returns r /\
          ((0 <=? Content.keywordScore r)
           && (Content.keywordScore r <=? 100))%float = true)) /\
  (exists r,
      Technical.formatTechnicalSeoResults asciiLower asciiUpper
        (js "Performance score: 250/100") = Returns r /\
      Technical.performanceScore r = 250%float /\
      Technical.overallScore r = 139%float /\
      (100 <? Technical.performanceScore r)%float = true) /\
  (exists r,
      Content.formatContentResults asciiUpper
        (js "Topic coverage score: 50/10") = Returns r /\
      Content.semanticScore r = 500%float /\
      Content.contentScore r = 202%float /\
      (100 <? Content.semanticScore r)%float = true).
Proof.
  split; [|split; eexists; vm_compute; repeat split].
  intros toLowerCase toUpperCase rawOutput. split.
  - destruct (formatTechnicalSeoResults_returns toLowerCase toUpperCase rawOutput)
      as (r & E & _ & _ & Hs & _).
    exists r. split; auto. rewrite Hs.
    unfold Technical.computeStructureScore.
    rewrite signalScore_sum by (try reflexivity; simpl; lia).
    apply ofZ_percentage, clamp_range.
  - destruct (formatContentResults_returns toUpperCase rawOutput)
      as (r & E & _ & _ & Hk & _).
    exists r. split; auto. rewrite Hk, computeKeywordScore_sum.
    apply ofZ_percentage, clamp_range.
Qed.

(** The density scenario of the specification: a stated density of 1.8%
    gives a keyword score of 80 when no placement is found. *)
Example keyword_density_scenario :
  exists r,
    Content.formatContentResults asciiUpper (js "Keyword density: 1.8% (Good)")
    = Returns r /\
    Content.keywordScore r = 80%float.
Proof. eexists. vm_compute. split; reflexivity. Qed.

(** Four positive signals bring the sum to 105 and the score to 100, in any
    order of the tables.  A stated density of 9%, with the keyword in the
    title, gives a keyword score of 60 - 10 + 10; without a stated density
    the same placement gives 60 + 20 + 10. *)
Lemma signal_scores_clamped_once_witness :
  let rawOutput :=
    js "Clean, semantic URLs. Information architecture: good. URL structure: clean. Canonical URL: Present" in
  let stated := js "Keyword density: 9% (too high). H1/Title inclusion: Yes" in
  let silent := js "H1/Title inclusion: Yes" in
  ((70 + signalSum (Technical.structureSignals
                    ++ Technical.negativeStructureSignals) rawOutput = 105)%Z /\
   Technical.computeStructureScore rawOutput = 100%float /\
   Technical.signalScore (rev Technical.structureSignals)
     (rev Technical.negativeStructureSignals) 70 rawOutput
   = Technical.computeStructureScore rawOutput) /\
  (exists r,
      Content.formatContentResults asciiUpper stated = Returns r /\
      Content.keywordScore r = 60%float) /\
  (exists r,
      Content.formatContentResults asciiUpper silent = Returns r /\
      Content.keywordScore r = 90%float).
Proof.
  intros rawOutput stated silent. split; [|split].
  - pose proof (signal_scores_clamped_once asciiLower asciiUpper rawOutput)
      as (_ & P & H & _).
    split; [vm_compute; reflexivity|]. split.
    + apply H. vm_compute. reflexivity.
    + apply P; apply Permutation_sym, Permutation_rev.
  - pose proof (signal_scores_clamped_once asciiLower asciiUpper stated)
      as (_ & _ & _ & _ & (r & E & _ & F) & _).
    assert (H : exists m,
               String_match stated (nth 0 Content.keywordDensityRegexes Eps)
               = Some m /\ group m 1 = Some (js "9")).
    { vm_compute. eexists. split; reflexivity. }
    destruct H as (m & H & Hg).
    destruct (F (nth 0 Content.keywordDensityRegexes Eps) m) as (g & G & K).
    { exists [], (tl Content.keywordDensityRegexes).
      split; [reflexivity|]. split; [intros x []|exact H]. }
    exists r. split; [exact E|]. rewrite K.
    rewrite Hg in G. inversion G. vm_compute. reflexivity.
  - pose proof (signal_scores_clamped_once asciiLower asciiUpper silent)
      as (_ & _ & _ & _ & (r & E & N & _) & _).
    exists r. split; [exact E|]. rewrite N; [vm_compute; reflexivity|].
    intros regex H. simpl in H.
    repeat (destruct H as [<-|H]; [reflexivity|]). contradiction.
Defined.

(* ================================================================== *)
(** * The title and the description of a text without a keyword *)
(* ================================================================== *)

(** On the empty text the title and the description are the ones made from
    "your topic". *)
Lemma improved_title_and_description_present_witness :
  exists r,
    Content.formatContentResults asciiUpper (js "") = Returns r /\
    Content.improvedTitle r
    = Some (js "Your topic: Complete Guide & Best Practices | YourBrand") /\
    Content.improvedMetaDescription r
    = Some (js "Learn everything about your topic in this comprehensive guide. Discover best practices, examples, and expert tips to maximize your results.").
Proof.
  destruct (improved_title_and_description_present asciiUpper (js ""))
    as (r & title & description & E & Ht & _ & Hd & _ & Dt & Dd & Dk).
  exists r. split; [exact E|].
  rewrite Ht, Hd, Dt, Dd, Dk.
  - split; reflexivity.
  - intros regex H. simpl in H.
    repeat (destruct H as [<-|H]; [reflexivity|]). contradiction.
  - intros regex H. simpl in H.
    repeat (destruct H as [<-|H]; [reflexivity|]). contradiction.
  - intros regex H. simpl in H.
    repeat (destruct H as [<-|H]; [reflexivity|]). contradiction.
Defined.
(* ================================================================== *)
(** * Patterns without quantifier *)
(* ================================================================== *)

Section TextFacts.
Variable res : Type.
Implicit Types (k : continuation res) (x : res).

(** A match of a pattern without quantifier takes one of its texts. *)
Lemma rmatch_texts : forall r L s c k x,
  texts r = Some L -> rmatch r s c k = Some x ->
  exists u s' c', s = u ++ s' /\ In (map canonicalize u) L /\ k s' c' = Some x.
Proof.
  induction r as [a| |r1 IH1 r2 IH2|r1 IH1 r2 IH2|r1 IH1|a|a|a|n r1 IH1|];
    simpl; intros L s c k x T H; try discriminate.
  - (* Atom *)
    destruct a; try discriminate. inversion T; subst L; clear T.
    destruct s as [|y s]; [discriminate|]. simpl in H.
    destruct (canonicalize y =? canonicalize c0)%N eqn:E; [|discriminate].
    apply N.eqb_eq in E. exists [y], s, c. simpl. rewrite E. auto.
  - (* Eps *)
    inversion T; subst L. exists [], s, c. simpl. auto.
  - (* Cat *)
    destruct (texts r1) as [l1|]; [|discriminate].
    destruct (texts r2) as [l2|]; [|discriminate].
    inversion T; subst L; clear T.
    destruct (IH1 _ _ _ _ _ eq_refl H) as (u1 & s1 & c1 & -> & I1 & H1).
    destruct (IH2 _ _ _ _ _ eq_refl H1) as (u2 & s2 & c2 & -> & I2 & H2).
    exists (u1 ++ u2), s2, c2. rewrite <- app_assoc. repeat split; auto.
    rewrite map_app. apply in_flat_map. exists (map canonicalize u1).
    split; auto. now apply in_map.
  - (* Alt *)
    destruct (texts r1) as [l1|]; [|discriminate].
    destruct (texts r2) as [l2|]; [|discriminate].
    inversion T; subst L; clear T.
    apply orElse_inv in H as [H|[_ H]].
    + destruct (IH1 _ _ _ _ _ eq_refl H) as (u & s' & c' & -> & I & Hk).
      exists u, s', c'. repeat split; auto. apply in_or_app. auto.
    + destruct (IH2 _ _ _ _ _ eq_refl H) as (u & s' & c' & -> & I & Hk).
      exists u, s', c'. repeat split; auto. apply in_or_app. auto.
  - (* Opt *)
    destruct (texts r1) as [l1|]; [|discriminate].
    inversion T; subst L; clear T.
    apply orElse_inv in H as [H|[_ H]].
    + destruct (IH1 _ _ _ _ _ eq_refl H) as (u & s' & c' & -> & I & Hk).
      exists u, s', c'. repeat split; auto. apply in_or_app. auto.
    + exists [], s, c. repeat split; auto. apply in_or_app. simpl. auto.
  - (* Group *)
    destruct (IH1 _ _ _ _ _ T H) as (u & s' & c' & -> & I & Hk).
    exists u, s'. eexists. repeat split; eauto.
  - (* Eoi *)
    inversion T; subst L. destruct s; [|discriminate].
    exists [], [], c. simpl. auto.
Qed.

(** After a match, a group with listed texts holds one of them. *)
Lemma rmatch_groupTexts : forall r n L s c k x,
  groupTexts n r = Some L -> rmatch r s c k = Some x ->
  exists v s' c',
    k s' c' = Some x /\ getCapture n c' = Some v /\ In (map canonicalize v) L.
Proof.
  induction r as [a| |r1 IH1 r2 IH2|r1 IH1 r2 IH2|r1 IH1|a|a|a|m r1 IH1|];
    simpl; intros n L s c k x T H; try discriminate.
  - (* Cat *)
    destruct (touches n r2) eqn:Ht.
    + destruct (rmatch_inv _ _ _ _ _ _ H) as (s1 & c1 & H1 & _).
      exact (IH2 _ _ _ _ _ _ T H1).
    + destruct (IH1 _ _ _ _ _ _ T H) as (v & s1 & c1 & H1 & G & I).
      destruct (rmatch_inv _ _ _ _ _ _ H1) as (s2 & c2 & H2 & [_ _ F]).
      exists v, s2, c2. rewrite (F _ Ht). auto.
  - (* Alt *)
    destruct (groupTexts n r1) as [l1|] eqn:T1; [|discriminate].
    destruct (groupTexts n r2) as [l2|] eqn:T2; [|discriminate].
    inversion T; subst L; clear T.
    apply orElse_inv in H as [H|[_ H]].
    + destruct (IH1 _ _ _ _ _ _ T1 H) as (v & s' & c' & Hk & G & I).
      exists v, s', c'. repeat split; auto. apply in_or_app. auto.
    + destruct (IH2 _ _ _ _ _ _ T2 H) as (v & s' & c' & Hk & G & I).
      exists v, s', c'. repeat split; auto. apply in_or_app. auto.
  - (* Group *)
    destruct (m =? n)%nat eqn:E.
    + destruct (rmatch_texts _ _ _ _ _ _ T H) as (u & s' & c' & -> & I & Hk).
      rewrite length_app, Nat.add_sub, firstn_app, Nat.sub_diag, firstn_all in Hk.
      simpl in Hk. rewrite app_nil_r in Hk.
      exists u, s', (setCapture m u c'). repeat split; auto.
      unfold setCapture. simpl. now rewrite E.
    + destruct (IH1 _ _ _ _ _ _ T H) as (v & s' & c' & Hk & G & I).
      exists v, s'. eexists. split; [exact Hk|]. split; auto.
      unfold setCapture. simpl. now rewrite E.
Qed.
End TextFacts.

Lemma String_match_groupTexts : forall s r m n L,
  String_match s r = Some m -> groupTexts n r = Some L ->
  exists v, group m n = Some v /\ In (map canonicalize v) L.
Proof.
  unfold String_match. intros s r m n L H T.
  destruct (execFrom_inv _ _ _ _ H) as (pre & s0 & s' & _ & _ & Hm & _).
  unfold matchHere in Hm.
  destruct (rmatch_groupTexts _ _ _ _ _ _ _ _ T Hm) as (v & s1 & c1 & E & G & I).
  inversion E; subst. exists v. auto.
Qed.

(* ================================================================== *)
(** * The case of the letters *)
(* ================================================================== *)

Lemma canonicalize_idempotent : forall x,
  canonicalize (canonicalize x) = canonicalize x.
Proof.
  intros x. unfold canonicalize.
  destruct ((97 <=? x) && (x <=? 122))%N eqn:E; [|now rewrite E].
  apply andb_true_iff in E as [E1 E2].
  apply N.leb_le in E1. apply N.leb_le in E2.
  replace ((97 <=? x - 32) && (x - 32 <=? 122))%N with false; auto.
  symmetry. apply andb_false_iff. left. apply N.leb_gt. lia.
Qed.

Lemma lowerCaseLetter : forall x,
  ((97 <=? x) && (x <=? 122))%N = true -> In x (map N.of_nat (seq 97 26)).
Proof.
  intros x E. apply andb_true_iff in E as [E1 E2].
  apply N.leb_le in E1. apply N.leb_le in E2.
  apply in_map_iff. exists (N.to_nat x). split; [lia|]. apply in_seq. lia.
Qed.

(** The classes of the patterns hold no letter. *)
Lemma matchAtom_canonicalize : forall a x,
  matchAtom a (canonicalize x) = matchAtom a x.
Proof.
  intros a x.
  destruct a as [c| | | |]; cbn [matchAtom];
    [now rewrite canonicalize_idempotent|..];
    unfold canonicalize;
    (destruct ((97 <=? x) && (x <=? 122))%N eqn:E; [|reflexivity]);
    apply lowerCaseLetter in E; apply Bool.eqb_prop; revert x E;
    apply forallb_forall; vm_compute; reflexivity.
Qed.

Lemma matchAtom_case : forall a x y,
  canonicalize x = canonicalize y -> matchAtom a x = matchAtom a y.
Proof.
  intros a x y E.
  rewrite <- (matchAtom_canonicalize a x), <- (matchAtom_canonicalize a y).
  now rewrite E.
Qed.

Lemma sameModuloCase_canonical : forall s,
  sameModuloCase s (map canonicalize s).
Proof.
  intros s. unfold sameModuloCase. rewrite map_map.
  apply map_ext. intros x. now rewrite canonicalize_idempotent.
Qed.

Section CaseFacts.
Variables res res' : Type.
Implicit Types (k : continuation res) (h : continuation res').

Lemma succeeds_orElse : forall (a : option res) b,
  succeeds (orElse a b) = succeeds a || succeeds (b tt).
Proof. intros [x|] b; reflexivity. Qed.

Lemma succeeds_orElse' : forall (a : option res') b,
  succeeds (orElse a b) = succeeds a || succeeds (b tt).
Proof. intros [x|] b; reflexivity. Qed.

Lemma starGreedy_case : forall a s t c c' k h,
  sameModuloCase s t ->
  (forall s1 t1 c1 c1', sameModuloCase s1 t1 ->
                        succeeds (k s1 c1) = succeeds (h t1 c1')) ->
  succeeds (starGreedy a s c k) = succeeds (starGreedy a t c' h).
Proof.
  induction s as [|x s IH]; intros [|y t] c c' k h S K;
    try discriminate S; simpl.
  - now apply K.
  - injection S as E S.
    rewrite (matchAtom_case a x y E). destruct (matchAtom a y).
    + rewrite succeeds_orElse, succeeds_orElse'.
      f_equal; [now apply IH|]. apply K. unfold sameModuloCase. simpl.
      now rewrite E, S.
    + apply K. unfold sameModuloCase. simpl. now rewrite E, S.
Qed.

Lemma starLazy_case : forall a s t c c' k h,
  sameModuloCase s t ->
  (forall s1 t1 c1 c1', sameModuloCase s1 t1 ->
                        succeeds (k s1 c1) = succeeds (h t1 c1')) ->
  succeeds (starLazy a s c k) = succeeds (starLazy a t c' h).
Proof.
  induction s as [|x s IH]; intros [|y t] c c' k h S K;
    try discriminate S; simpl; rewrite succeeds_orElse, succeeds_orElse'.
  - f_equal. now apply K.
  - injection S as E S.
    f_equal; [apply K; unfold sameModuloCase; simpl; now rewrite E, S|].
    rewrite (matchAtom_case a x y E). destruct (matchAtom a y); auto.
Qed.

(** Whether a pattern matches does not depend on the case of the text. *)
Lemma rmatch_case : forall r s t c c' k h,
  sameModuloCase s t ->
  (forall s1 t1 c1 c1', sameModuloCase s1 t1 ->
                        succeeds (k s1 c1) = succeeds (h t1 c1')) ->
  succeeds (rmatch r s c k) = succeeds (rmatch r t c' h).
Proof.
  induction r as [a| |r1 IH1 r2 IH2|r1 IH1 r2 IH2|r1 IH1|a|a|a|n r1 IH1|];
    simpl; intros s t c c' k h S K.
  - destruct s as [|x s], t as [|y t]; try discriminate S; auto.
    injection S as E S. rewrite (matchAtom_case a x y E).
    destruct (matchAtom a y); auto.
  - now apply K.
  - apply IH1; auto.
  - rewrite succeeds_orElse, succeeds_orElse'. f_equal; auto.
  - rewrite succeeds_orElse, succeeds_orElse'. f_equal; auto.
  - now apply starGreedy_case.
  - destruct s as [|x s], t as [|y t]; try discriminate S; auto.
    injection S as E S. rewrite (matchAtom_case a x y E).
    destruct (matchAtom a y); auto. now apply starGreedy_case.
  - now apply starLazy_case.
  - apply IH1; auto.
  - destruct s as [|x s], t as [|y t]; try discriminate S; auto.
Qed.
End CaseFacts.

Lemma matchHere_case : forall r s t,
  sameModuloCase s t -> succeeds (matchHere r s) = succeeds (matchHere r t).
Proof.
  intros r s t S. unfold matchHere. apply rmatch_case; auto.
Qed.

Lemma execFrom_case : forall r s t i j,
  sameModuloCase s t ->
  succeeds (execFrom r s i) = succeeds (execFrom r t j).
Proof.
  intros r. induction s as [|x s IH]; intros [|y t] i j S;
    try discriminate S; pose proof (matchHere_case r _ _ S) as M;
    cbn [execFrom].
  - destruct (matchHere r []) as [[? ?]|]; auto.
  - destruct (matchHere r (x :: s)) as [[? ?]|],
             (matchHere r (y :: t)) as [[? ?]|]; try discriminate M; auto.
    injection S as E S. now apply IH.
Qed.

(** A test with the [i] flag gives the same on two texts that differ in
    the case of their letters only. *)
Lemma test_case : forall r s t, sameModuloCase s t -> test r s = test r t.
Proof.
  intros r s t S. unfold test, String_match.
  pose proof (execFrom_case r s t 0 0 S) as H.
  destruct (execFrom r s 0), (execFrom r t 0); auto; discriminate H.
Qed.

(* ================================================================== *)
(** * The keyword and the search volume *)
(* ================================================================== *)

Lemma xexecFrom_inv : forall r s i m,
  xexecFrom r s i = Some m ->
  exists pre s0 s',
    s = pre ++ s0 /\ index m = i + length pre /\
    xmatchHere r s0 = Some (s', groups m) /\
    (forall p q, pre = p ++ q -> q <> [] -> xmatchHere r (q ++ s0) = None).
Proof.
  intros r. induction s as [|y s IH]; intros i m H; simpl in H.
  - destruct (xmatchHere r []) as [[s' c]|] eqn:E; [|discriminate].
    inversion H; subst m; clear H. exists [], [], s'. simpl.
    repeat split; auto. intros [|? ?] [|? ?]; try discriminate. congruence.
  - destruct (xmatchHere r (y :: s)) as [[s' c]|] eqn:E.
    + inversion H; subst m; clear H. exists [], (y :: s), s'. simpl.
      repeat split; auto. intros [|? ?] [|? ?]; try discriminate. congruence.
    + destruct (IH _ _ H) as (pre & s0 & s' & -> & Hi & Hm & Hn).
      exists (y :: pre), s0, s'. simpl. repeat split; auto; [lia|].
      intros [|z p] q Hq Hne.
      * simpl in Hq. subst q. exact E.
      * injection Hq as _ Hq. eauto.
Qed.

(** A lazy star stops at the first place where the rest of the pattern
    matches. *)
Lemma starLazy_first : forall (res : Type) a s c (k : continuation res) x,
  starLazy a s c k = Some x ->
  exists u s',
    s = u ++ s' /\ k s' c = Some x /\ forallb (matchAtom a) u = true /\
    (forall p q, u = p ++ q -> q <> [] -> k (q ++ s') c = None).
Proof.
  intros res a. induction s as [|y s IH]; simpl; intros c k x H.
  - apply orElse_inv in H as [H|[_ H]]; [|discriminate].
    exists [], []. repeat split; auto.
    intros [|? ?] [|? ?]; try discriminate. congruence.
  - apply orElse_inv in H as [H|[N H]].
    + exists [], (y :: s). repeat split; auto.
      intros [|? ?] [|? ?]; try discriminate. congruence.
    + destruct (matchAtom a y) eqn:M; [|discriminate].
      destruct (IH _ _ _ H) as (u & s' & -> & Hk & F & L).
      exists (y :: u), s'. simpl. rewrite M. repeat split; auto.
      intros [|z p] q Hq Hne.
      * simpl in Hq. subst q. exact N.
      * injection Hq as _ Hq. eauto.
Qed.

Lemma starDigitOrComma_inv : forall (res : Type) s c (k : continuation res) x,
  starDigitOrComma s c k = Some x ->
  exists u s', s = u ++ s' /\ k s' c = Some x /\ forallb isDigitOrComma u = true.
Proof.
  intros res. induction s as [|y s IH]; simpl; intros c k x H.
  - exists [], []. auto.
  - destruct (isDigitOrComma y) eqn:D.
    + apply orElse_inv in H as [H|[_ H]].
      * destruct (IH _ _ _ H) as (u & s' & -> & Hk & F).
        exists (y :: u), s'. simpl. rewrite D. auto.
      * exists [], (y :: s). auto.
    + exists [], (y :: s). auto.
Qed.

Lemma starLazy_run : forall (res : Type) a u s' c (k : continuation res) x,
  forallb (matchAtom a) u = true ->
  (forall p q, u = p ++ q -> q <> [] -> k (q ++ s') c = None) ->
  k s' c = Some x ->
  starLazy a (u ++ s') c k = Some x.
Proof.
  intros res a. induction u as [|y u IH]; intros s' c k x F N K.
  - simpl. destruct s'; simpl; now rewrite K.
  - simpl in F. apply andb_true_iff in F as [M F].
    change (starLazy a ((y :: u) ++ s') c k)
      with (orElse (k ((y :: u) ++ s') c)
              (fun _ => if matchAtom a y then starLazy a (u ++ s') c k else None)).
    rewrite (N [] (y :: u) eq_refl) by discriminate. simpl. rewrite M.
    apply IH; auto. intros p q -> Hq. apply (N (y :: p) q); auto.
Qed.

Lemma xmatch_xchars : forall (res : Type) w s c (k : continuation res),
  xmatch (xchars w) (w ++ s) c k = k s c.
Proof.
  intros res. induction w as [|a w IH]; intros s c k; [reflexivity|].
  destruct w as [|b w].
  - simpl. now rewrite N.eqb_refl.
  - change (xchars (a :: b :: w)) with (XCat (XExact a) (xchars (b :: w))).
    cbn [xmatch app]. rewrite N.eqb_refl. apply IH.
Qed.

Lemma xmatch_xchars_inv : forall (res : Type) w s c (k : continuation res) x,
  xmatch (xchars w) s c k = Some x ->
  exists s', s = w ++ s' /\ k s' c = Some x.
Proof.
  intros res. induction w as [|a w IH]; intros s c k x H.
  - exists s. auto.
  - destruct w as [|b w].
    + simpl in H. destruct s as [|y s]; [discriminate|].
      destruct (y =? a)%N eqn:E; [|discriminate].
      apply N.eqb_eq in E. subst y. exists s. auto.
    + change (xchars (a :: b :: w)) with (XCat (XExact a) (xchars (b :: w))) in H.
      cbn [xmatch] in H. destruct s as [|y s]; [discriminate|].
      destruct (y =? a)%N eqn:E; [|discriminate].
      apply N.eqb_eq in E. subst y.
      destruct (IH _ _ _ _ H) as (s' & -> & K). exists s'. auto.
Qed.

Lemma firstn_prefix : forall (u s : jsstring),
  firstn (length (u ++ s) - length s) (u ++ s) = u.
Proof.
  intros u s.
  rewrite length_app, Nat.add_sub, firstn_app, Nat.sub_diag, firstn_all.
  simpl. apply app_nil_r.
Qed.

(** The keyword pattern matches at the start of a text when, and only
    when, the text begins with the word for, a space, and a text between
    quotes without a quote or a line break in it, which is the group. *)
Lemma keywordRegex_here : forall v post,
  quotable v = true ->
  xmatchHere Keyword.keywordRegex (js "for " ++ QUOTE :: v ++ QUOTE :: post)
  = Some (post, [(1, v)]).
Proof.
  intros v post Q. unfold xmatchHere, Keyword.keywordRegex, xlit.
  cbn [xmatch]. rewrite xmatch_xchars. cbn [xmatch].
  rewrite N.eqb_refl. cbn [rmatch].
  apply starLazy_run.
  - unfold quotable in Q. rewrite forallb_forall in *. intros ch I.
    specialize (Q ch I). apply andb_true_iff in Q as [_ Q]. exact Q.
  - intros p [|y q] -> Hq; [congruence|]. simpl.
    unfold quotable in Q. rewrite forallb_app in Q.
    apply andb_true_iff in Q as [_ Q]. simpl in Q.
    destruct (y =? QUOTE)%N; [discriminate|reflexivity].
  - rewrite N.eqb_refl, firstn_prefix. reflexivity.
Qed.

Lemma keywordRegex_here_inv : forall s s' c,
  xmatchHere Keyword.keywordRegex s = Some (s', c) ->
  exists v,
    s = js "for " ++ QUOTE :: v ++ QUOTE :: s' /\ c = [(1, v)] /\
    quotable v = true.
Proof.
  intros s s' c H. unfold xmatchHere, Keyword.keywordRegex, xlit in H.
  cbn [xmatch] in H.
  destruct (xmatch_xchars_inv _ _ _ _ _ _ H) as (s1 & -> & H1). clear H.
  cbn [xmatch] in H1. destruct s1 as [|y s1]; [discriminate|].
  destruct (y =? QUOTE)%N eqn:E; [|discriminate].
  apply N.eqb_eq in E. subst y. cbn [rmatch] in H1.
  destruct (starLazy_first _ _ _ _ _ _ H1) as (u & s2 & -> & K & F & L).
  destruct s2 as [|y s2]; [discriminate|].
  destruct (y =? QUOTE)%N eqn:E; [|discriminate].
  apply N.eqb_eq in E. subst y. rewrite firstn_prefix in K.
  inversion K; subst. exists u. repeat split; auto.
  unfold quotable. apply forallb_forall. intros ch I.
  apply andb_true_iff. split.
  - destruct (in_split _ _ I) as (p & q & ->).
    specialize (L p (ch :: q) eq_refl ltac:(discriminate)). simpl in L.
    destruct (ch =? QUOTE)%N; [discriminate|reflexivity].
  - rewrite forallb_forall in F. exact (F ch I).
Qed.

Lemma xexecFrom_skip : forall r pre s i,
  (forall p q, pre = p ++ q -> q <> [] -> xmatchHere r (q ++ s) = None) ->
  xexecFrom r (pre ++ s) i = xexecFrom r s (i + length pre).
Proof.
  intros r. induction pre as [|y pre IH]; intros s i N.
  - simpl. now rewrite Nat.add_0_r.
  - change ((y :: pre) ++ s) with (y :: pre ++ s). cbn [xexecFrom].
    pose proof (N [] (y :: pre) eq_refl ltac:(discriminate)) as E.
    change ((y :: pre) ++ s) with (y :: pre ++ s) in E. rewrite E.
    rewrite IH by (intros p q -> Hq; apply (N (y :: p) q); auto).
    simpl. f_equal. lia.
Qed.

Lemma extractKeyword_defined : forall rawOutput,
  exists v, Keyword.extractKeyword rawOutput = Some v /\ quotable v = true.
Proof.
  intros rawOutput. unfold Keyword.extractKeyword.
  destruct (xString_match rawOutput Keyword.keywordRegex) as [m|] eqn:H.
  - unfold xString_match in H.
    destruct (xexecFrom_inv _ _ _ _ H) as (pre & s0 & s' & _ & _ & Hm & _).
    destruct (keywordRegex_here_inv _ _ _ Hm) as (v & _ & G & Q).
    exists v. unfold group. rewrite G. simpl. auto.
  - eexists. split; [reflexivity|]. vm_compute. reflexivity.
Qed.

(** The fifth code unit of a text that the keyword pattern matches at its
    start is the quote. *)
Lemma keywordRegex_needs_quote : forall q s,
  q <> [] -> forallb (fun ch => negb (ch =? QUOTE)%N) q = true ->
  xmatchHere Keyword.keywordRegex (q ++ js "for " ++ QUOTE :: s) = None.
Proof.
  intros q s Hq F.
  destruct (xmatchHere _ _) as [[s' c]|] eqn:H; [|reflexivity].
  exfalso. destruct (keywordRegex_here_inv _ _ _ H) as (v & E & _).
  assert (N : nth_error (q ++ js "for " ++ QUOTE :: s) 4 = Some QUOTE)
    by (rewrite E; reflexivity).
  clear E H. rewrite app_assoc in N.
  assert (L : 4 < length (q ++ js "for ")).
  { rewrite length_app. destruct q; [congruence|]. simpl. lia. }
  rewrite nth_error_app1 in N by exact L.
  apply nth_error_In in N. apply in_app_or in N as [N|N].
  - rewrite forallb_forall in F. specialize (F _ N). discriminate F.
  - simpl in N. repeat destruct N as [N|N]; try discriminate N. exact N.
Qed.

Lemma volumeRegex_capture : forall s m,
  xString_match s Keyword.volumeRegex = Some m ->
  exists d u,
    group m 1 = Some (d :: u) /\ isDigit d = true /\
    forallb isDigitOrComma u = true.
Proof.
  unfold xString_match. intros s m H.
  destruct (xexecFrom_inv _ _ _ _ H) as (pre & s0 & s' & _ & _ & Hm & _).
  clear H. unfold xmatchHere, Keyword.volumeRegex in Hm. cbn [xmatch] in Hm.
  destruct (rmatch_inv _ _ _ _ _ _ Hm) as (s1 & c1 & H1 & _). clear Hm.
  cbn [rmatch] in H1. destruct s1 as [|d s1]; [discriminate|].
  destruct (matchAtom Digit d) eqn:D; [|discriminate].
  destruct (starDigitOrComma_inv _ _ _ _ _ H1) as (u & s2 & -> & K & F).
  change (d :: u ++ s2) with ((d :: u) ++ s2) in K.
  rewrite firstn_prefix in K. inversion K as [[E1 E2]].
  exists d, u. unfold group. rewrite <- E2. simpl. auto.
Qed.

Lemma readDigits_count : forall s count acc,
  count <= fst (fst (readDigits 10 s count acc)).
Proof.
  induction s as [|c s IH]; intros count acc; simpl; auto.
  destruct (digitValue 10 c); simpl; auto.
  specialize (IH (S count) (acc * 10 + z)%Z). lia.
Qed.

Lemma readDigits_value : forall s count acc,
  (0 <= acc)%Z -> (0 <= snd (fst (readDigits 10 s count acc)))%Z.
Proof.
  induction s as [|c s IH]; intros count acc A; simpl; auto.
  destruct (digitValue 10 c) as [d|] eqn:D; simpl; auto.
  apply IH. unfold digitValue in D.
  assert (0 <= d)%Z; [|lia].
  destruct (isDigit c) eqn:E.
  - unfold isDigit in E. apply andb_true_iff in E as [E _].
    apply N.leb_le in E.
    destruct (Z.of_N c - 48 <? 10)%Z; inversion D. lia.
  - destruct ((97 <=? c) && (c <=? 122))%N eqn:E1.
    + apply andb_true_iff in E1 as [E1 _]. apply N.leb_le in E1.
      destruct (Z.of_N c - 87 <? 10)%Z; inversion D. lia.
    + destruct ((65 <=? c) && (c <=? 90))%N eqn:E2; [|discriminate].
      apply andb_true_iff in E2 as [E2 _]. apply N.leb_le in E2.
      destruct (Z.of_N c - 55 <? 10)%Z; inversion D. lia.
Qed.

Lemma digit_cases : forall d,
  isDigit d = true -> In d (map N.of_nat (seq 48 10)).
Proof.
  intros d E. unfold isDigit in E. apply andb_true_iff in E as [E1 E2].
  apply N.leb_le in E1. apply N.leb_le in E2.
  apply in_map_iff. exists (N.to_nat d). split; [lia|]. apply in_seq. lia.
Qed.

(** [parseInt] of a run of digits reads them all in base ten. *)
Lemma parseInt_decimal : forall d t,
  isDigit d = true -> forallb isDigit t = true ->
  parseInt (d :: t) =
  let '(count, value, _) := readDigits 10 (d :: t) 0 0 in
  match count with
  | O => nan
  | S _ => ofZ value
  end.
Proof.
  intros d t D T. unfold parseInt. generalize ofZ. intros f.
  apply digit_cases in D. simpl in D.
  destruct D as [<-|D].
  - (* a leading zero: no x follows *)
    destruct t as [|x t]; [reflexivity|].
    simpl in T. apply andb_true_iff in T as [Tx _].
    apply digit_cases in Tx. simpl in Tx.
    repeat destruct Tx as [<-|Tx]; try reflexivity; try destruct Tx.
  - repeat destruct D as [<-|D]; try reflexivity; try destruct D.
Qed.

(** [parseInt] of a run of digits is the Number nearest to a whole number
    that is not negative. *)
Lemma parseInt_digits : forall d t,
  isDigit d = true -> forallb isDigit t = true ->
  exists z, (0 <= z)%Z /\ parseInt (d :: t) = ofZ z.
Proof.
  intros d t D T. rewrite (parseInt_decimal d t D T).
  destruct (readDigits 10 (d :: t) 0 0) as [[count value] rest] eqn:R.
  simpl in R.
  assert (V : digitValue 10 d = Some (Z.of_N d - 48)%Z).
  { apply digit_cases in D. simpl in D.
    repeat destruct D as [<-|D]; try reflexivity. destruct D. }
  rewrite V in R.
  pose proof (readDigits_count t 1 (Z.of_N d - 48)%Z) as C.
  pose proof (readDigits_value t 1 (Z.of_N d - 48)%Z) as P.
  rewrite R in C, P. simpl in C, P.
  destruct count as [|count]; [lia|].
  exists value. split; [|reflexivity]. apply P.
  unfold isDigit in D. apply andb_true_iff in D as [D _].
  apply N.leb_le in D. lia.
Qed.

Lemma removeCommas_digits : forall u,
  forallb isDigitOrComma u = true ->
  forallb isDigit (Keyword.removeCommas u) = true.
Proof.
  induction u as [|x u IH]; simpl; intros F; auto.
  apply andb_true_iff in F as [X F]. unfold isDigitOrComma in X.
  destruct (x =? 44)%N eqn:E; simpl; auto.
  rewrite orb_false_r in X. now rewrite X, IH.
Qed.

(** The search volume is read without an exception, as a whole number. *)
Lemma extractSearchVolume_returns : forall rawOutput,
  exists z, (0 <= z)%Z /\
            Keyword.extractSearchVolume rawOutput = Returns (ofZ z).
Proof.
  intros rawOutput. unfold Keyword.extractSearchVolume.
  destruct (xString_match rawOutput Keyword.volumeRegex) as [m|] eqn:H.
  - destruct (volumeRegex_capture _ _ H) as (d & u & -> & D & F).
    cbn [method bind].
    assert (E : Keyword.removeCommas (d :: u) = d :: Keyword.removeCommas u).
    { unfold Keyword.removeCommas. simpl.
      apply digit_cases in D. simpl in D.
      repeat destruct D as [<-|D]; try reflexivity. destruct D. }
    rewrite E.
    destruct (parseInt_digits d _ D (removeCommas_digits _ F)) as (z & Z0 & ->).
    eauto.
  - exists 1000%Z. split; [lia|]. reflexivity.
Qed.

(* ================================================================== *)
(** * [formatKeywordResults] comes back *)
(* ================================================================== *)

Lemma formatKeywordResults_returns : forall rawOutput,
  exists r v z,
    Keyword.formatKeywordResults rawOutput = Returns r /\
    Keyword.keyword r = Some v /\ quotable v = true /\
    Keyword.extractKeyword rawOutput = Some v /\
    (0 <= z)%Z /\ Keyword.searchVolume r = ofZ z /\
    Keyword.relevanceScore r =
      orDefault (scanPatterns (fun _ g => Some (parseInt g))
                   Keyword.relevanceRegexes rawOutput) 5%float /\
    Keyword.trend r =
      orDefault (Keyword.scanLabel Keyword.classifyTrend Keyword.trendRegexes
                   rawOutput) (js "Stable") /\
    Keyword.competitionLevel r =
      orDefault (Keyword.scanLabel Keyword.classifyCompetition
                   Keyword.competitionRegexes rawOutput) (js "Medium") /\
    Keyword.commercialIntent r =
      orDefault (Keyword.scanLabel Keyword.classifyIntent Keyword.intentRegexes
                   rawOutput) (js "Medium") /\
    Keyword.difficulty r =
      Keyword.computeDifficulty (Keyword.competitionLevel r)
        (Keyword.searchVolume r) /\
    Keyword.relatedKeywords r =
      orDefault (scanPatterns (fun _ g => Keyword.keywordsOf g)
                   Keyword.relatedRegexes rawOutput)
                [v ++ js " guide"; v ++ js " tutorial"] /\
    Keyword.recommendation r =
      match orDefault (scanPatterns (fun _ g => Content.longerThan 20 g)
                         Keyword.recommendationRegexes rawOutput) [] with
      | [] => Keyword.generatedRecommendation (Keyword.commercialIntent r)
                (Keyword.competitionLevel r) v
      | found => found
      end.
Proof.
  intros rawOutput. unfold Keyword.formatKeywordResults.
  destruct (extractKeyword_defined rawOutput) as (v & -> & Q).
  destruct (extractSearchVolume_returns rawOutput) as (z & Z0 & ->).
  cbn [bind]. eexists. exists v, z. split; [reflexivity|].
  cbn [Keyword.keyword Keyword.searchVolume Keyword.relevanceScore Keyword.trend
       Keyword.competitionLevel Keyword.commercialIntent Keyword.difficulty
       Keyword.relatedKeywords Keyword.recommendation Keyword.templateText].
  repeat split; auto.
  match goal with
  | |- context [match ?x with [] => _ | _ :: _ => _ end] => destruct x
  end; reflexivity.
Qed.

(* ================================================================== *)
(** * The labels of a keyword *)
(* ================================================================== *)

Lemma scanLabel_classified : forall classify regexes rawOutput label,
  Keyword.scanLabel classify regexes rawOutput = Some label ->
  exists text, classify text = Some label.
Proof.
  intros classify. induction regexes as [|r rs IH]; intros raw label H;
    [discriminate|].
  cbn [Keyword.scanLabel] in H.
  destruct (String_match raw r) as [m|].
  - destruct (classify (Keyword.firstTruthyGroup m)) as [l|] eqn:E; eauto.
    inversion H; subst. eauto.
  - eauto.
Qed.

Ltac case_if_in H :=
  match type of H with
  | context [if ?b then _ else _] => destruct b
  end.

Lemma classifyTrend_label : forall text label,
  Keyword.classifyTrend text = Some label -> In label trends.
Proof.
  unfold Keyword.classifyTrend. intros text label H.
  repeat (case_if_in H; [inversion H; simpl; tauto|]). discriminate.
Qed.

Lemma classifyCompetition_label : forall text label,
  Keyword.classifyCompetition text = Some label -> In label levels.
Proof.
  unfold Keyword.classifyCompetition. intros text label H.
  repeat (case_if_in H; [inversion H; simpl; tauto|]). discriminate.
Qed.

Lemma classifyIntent_label : forall text label,
  Keyword.classifyIntent text = Some label -> In label levels.
Proof.
  unfold Keyword.classifyIntent. intros text label H.
  repeat (case_if_in H; [inversion H; simpl; tauto|]). discriminate.
Qed.

Lemma scanLabel_label : forall classify regexes rawOutput default labels,
  (forall text label, classify text = Some label -> In label labels) ->
  In default labels ->
  In (orDefault (Keyword.scanLabel classify regexes rawOutput) default) labels.
Proof.
  intros classify regexes raw default labels C D.
  destruct (Keyword.scanLabel classify regexes raw) as [l|] eqn:E; simpl; auto.
  destruct (scanLabel_classified _ _ _ _ E) as (t & Ht). eauto.
Qed.

(** X2.  The trend of a keyword analysis is one of Increasing,
    Decreasing, Stable and Seasonal; the competition level and the commercial
    intent are each one of High, Medium and Low. *)
Theorem keyword_result_labels : forall rawOutput,
  exists r,
    Keyword.formatKeywordResults rawOutput = Returns r /\
    In (Keyword.trend r) trends /\
    In (Keyword.competitionLevel r) levels /\
    In (Keyword.commercialIntent r) levels.
Proof.
  intros rawOutput.
  destruct (formatKeywordResults_returns rawOutput)
    as (r & v & z & E & _ & _ & _ & _ & _ & _ & T & C & I & _).
  exists r. split; auto. rewrite T, C, I.
  split; [|split].
  - apply scanLabel_label; [apply classifyTrend_label|simpl; auto 10].
  - apply scanLabel_label; [apply classifyCompetition_label|simpl; auto 10].
  - apply scanLabel_label; [apply classifyIntent_label|simpl; auto 10].
Qed.

(** The difficulty stays between 3 and 9: the bounds 1 and 10 of the
    source are never reached. *)
Lemma computeDifficulty_range : forall competitionLevel searchVolume,
  In (Keyword.computeDifficulty competitionLevel searchVolume)
     [3; 4; 5; 6; 7; 8; 9]%float.
Proof.
  intros c v. unfold Keyword.computeDifficulty.
  destruct (JsString.eqb c (js "High")); [|destruct (JsString.eqb c (js "Medium"))];
    destruct (10000 <? v)%float; try destruct (v <? 1000)%float;
    vm_compute; tauto.
Qed.

(** X3.  The difficulty of a keyword is one of 3, 4, 5, 6, 7, 8 and 9,
    whatever the text and the search volume (NaN and the infinities
    included): the bounds 1 and 10 that the source clamps it to are never
    reached. *)
Theorem keyword_difficulty_range : forall rawOutput,
  exists r,
    Keyword.formatKeywordResults rawOutput = Returns r /\
    In (Keyword.difficulty r) [3; 4; 5; 6; 7; 8; 9]%float.
Proof.
  intros rawOutput.
  destruct (formatKeywordResults_returns rawOutput)
    as (r & v & z & E & _ & _ & _ & _ & _ & _ & _ & _ & _ & D & _).
  exists r. split; auto. rewrite D. apply computeDifficulty_range.
Qed.

(* ================================================================== *)
(** * The badges *)
(* ================================================================== *)

Section BadgeFacts.
Variable toLowerCase : jsstring -> jsstring.
Hypothesis lowers : lowersAscii toLowerCase.

Lemma getBadgeColor_level : forall level,
  In level levels ->
  In (level, Ui.getBadgeColor toLowerCase level) intentBadges.
Proof.
  intros level I. simpl in I.
  destruct I as [<-|[<-|[<-|[]]]]; unfold Ui.getBadgeColor;
    rewrite lowers by (apply isAscii_check; reflexivity);
    vm_compute; auto.
Qed.

Lemma getPriorityColor_level : forall level,
  In level levels ->
  In (level, Ui.getPriorityColor toLowerCase level) priorityBadges.
Proof.
  intros level I. simpl in I.
  destruct I as [<-|[<-|[<-|[]]]]; unfold Ui.getPriorityColor;
    rewrite lowers by (apply isAscii_check; reflexivity);
    vm_compute; auto.
Qed.

Lemma getEffortColor_level : forall level,
  In level levels ->
  In (level, Ui.getEffortColor toLowerCase level) priorityBadges.
Proof.
  intros level I. simpl in I.
  destruct I as [<-|[<-|[<-|[]]]]; unfold Ui.getEffortColor;
    rewrite lowers by (apply isAscii_check; reflexivity);
    vm_compute; auto.
Qed.
End BadgeFacts.

(** X10.  The badge that [getBadgeColor] gives to the commercial intent
    of a keyword analysis is green for High, yellow for Medium and red for
    Low: it is never gray. *)
Theorem keyword_intent_badge_coloured :
  forall (toLowerCase : jsstring -> jsstring) rawOutput,
    lowersAscii toLowerCase ->
    exists r,
      Keyword.formatKeywordResults rawOutput = Returns r /\
      In (Keyword.commercialIntent r,
          Ui.getBadgeColor toLowerCase (Keyword.commercialIntent r))
         intentBadges.
Proof.
  intros toLowerCase rawOutput L.
  destruct (formatKeywordResults_returns rawOutput)
    as (r & v & z & E & _ & _ & _ & _ & _ & _ & _ & _ & I & _).
  exists r. split; auto. apply getBadgeColor_level; auto. rewrite I.
  apply scanLabel_label; [apply classifyIntent_label|simpl; auto 10].
Qed.

Lemma keyword_intent_badge_coloured_witness :
  exists r,
    Keyword.formatKeywordResults (js "Commercial intent: strong") = Returns r /\
    In (Keyword.commercialIntent r,
        Ui.getBadgeColor asciiLower (Keyword.commercialIntent r))
       intentBadges.
Proof.
  exact (keyword_intent_badge_coloured asciiLower
           (js "Commercial intent: strong") asciiLower_lowersAscii).
Defined.

(* ================================================================== *)
(** * Patterns that never give a value *)
(* ================================================================== *)

Lemma classifyTrend_case : forall s t,
  sameModuloCase s t -> Keyword.classifyTrend s = Keyword.classifyTrend t.
Proof.
  intros s t S. unfold Keyword.classifyTrend.
  now rewrite !(test_case _ s t S).
Qed.

Lemma classifyCompetition_case : forall s t,
  sameModuloCase s t ->
  Keyword.classifyCompetition s = Keyword.classifyCompetition t.
Proof.
  intros s t S. unfold Keyword.classifyCompetition.
  now rewrite !(test_case _ s t S).
Qed.

Lemma classifyIntent_case : forall s t,
  sameModuloCase s t -> Keyword.classifyIntent s = Keyword.classifyIntent t.
Proof.
  intros s t S. unfold Keyword.classifyIntent.
  now rewrite !(test_case _ s t S).
Qed.

(** A pattern whose first group is one of a few words that no test of the
    chain finds gives no label. *)
Lemma scanLabel_silent :
  forall (classify : jsstring -> option jsstring) r L rawOutput,
  (forall s t, sameModuloCase s t -> classify s = classify t) ->
  groupTexts 1 r = Some L ->
  forallb (fun t => (0 <? length t)%nat && negb (succeeds (classify t))) L = true ->
  match String_match rawOutput r with
  | Some m => classify (Keyword.firstTruthyGroup m)
  | None => None
  end = None.
Proof.
  intros classify r L raw C T F.
  destruct (String_match raw r) as [m|] eqn:M; [|reflexivity].
  destruct (String_match_groupTexts _ _ _ _ _ M T) as (v & G & I).
  rewrite forallb_forall in F. specialize (F _ I).
  apply andb_true_iff in F as [F1 F2]. rewrite length_map in F1.
  unfold Keyword.firstTruthyGroup. rewrite G.
  destruct v as [|y v]; [discriminate|]. cbn [truthy].
  rewrite (C _ _ (sameModuloCase_canonical (y :: v))).
  destruct (classify (map canonicalize (y :: v))); [discriminate|reflexivity].
Qed.

Lemma scanLabel_app_silent :
  forall (classify : jsstring -> option jsstring) regexes silent rawOutput,
  Forall (fun r => match String_match rawOutput r with
                   | Some m => classify (Keyword.firstTruthyGroup m)
                   | None => None
                   end = None) silent ->
  Keyword.scanLabel classify (regexes ++ silent) rawOutput
  = Keyword.scanLabel classify regexes rawOutput.
Proof.
  intros classify regexes silent raw F.
  induction regexes as [|r rs IH]; simpl.
  - induction F as [|r rs Hr _ IH]; [reflexivity|].
    cbn [Keyword.scanLabel]. now rewrite Hr.
  - now rewrite IH.
Qed.

(** X5.  The patterns that put the verb in their first group (search
    trends is ..., keyword has been ..., competition seems ..., intent is ...)
    never decide a label: the text that is tested is the first group that is
    not empty, which is the verb, and no test finds anything in it.  The
    trend, the competition level and the commercial intent are those that the
    patterns before them give. *)
Theorem verb_patterns_never_decide : forall rawOutput,
  exists r,
    Keyword.formatKeywordResults rawOutput = Returns r /\
    Keyword.trend r =
      orDefault (Keyword.scanLabel Keyword.classifyTrend
                   (firstn 2 Keyword.trendRegexes) rawOutput) (js "Stable") /\
    Keyword.competitionLevel r =
      orDefault (Keyword.scanLabel Keyword.classifyCompetition
                   (firstn 3 Keyword.competitionRegexes) rawOutput)
                (js "Medium") /\
    Keyword.commercialIntent r =
      orDefault (Keyword.scanLabel Keyword.classifyIntent
                   (firstn 4 Keyword.intentRegexes) rawOutput) (js "Medium").
Proof.
  intros rawOutput.
  destruct (formatKeywordResults_returns rawOutput)
    as (r & v & z & E & _ & _ & _ & _ & _ & _ & T & C & I & _).
  exists r. split; auto. rewrite T, C, I. clear. split; [|split]; f_equal.
  - rewrite <- (firstn_skipn 2 Keyword.trendRegexes) at 1.
    apply scanLabel_app_silent.
    repeat constructor;
      eapply scanLabel_silent;
      try apply classifyTrend_case; try reflexivity.
  - rewrite <- (firstn_skipn 3 Keyword.competitionRegexes) at 1.
    apply scanLabel_app_silent.
    repeat constructor;
      eapply scanLabel_silent;
      try apply classifyCompetition_case; try reflexivity.
  - rewrite <- (firstn_skipn 4 Keyword.intentRegexes) at 1.
    apply scanLabel_app_silent.
    repeat constructor;
      eapply scanLabel_silent;
      try apply classifyIntent_case; try reflexivity.
Qed.

Lemma evidence_short_group : forall r L n rawOutput,
  groupTexts 1 r = Some L ->
  forallb (fun t => (length t <=? n)%nat) L = true ->
  evidence (fun _ g => Content.longerThan n g) rawOutput r = None.
Proof.
  intros r L n raw T F. unfold evidence.
  destruct (String_match raw r) as [m|] eqn:M; [|reflexivity].
  destruct (String_match_groupTexts _ _ _ _ _ M T) as (v & -> & I).
  rewrite forallb_forall in F. specialize (F _ I).
  rewrite length_map in F. apply Nat.leb_le in F.
  destruct v as [|y v]; [reflexivity|]. cbn [truthy].
  unfold Content.longerThan.
  destruct (Nat.ltb_spec n (length (y :: v))); [lia|reflexivity].
Qed.

Lemma scanPatterns_skip :
  forall (A : Type) (accept : regex -> jsstring -> option A)
         before r after rawOutput,
    evidence accept rawOutput r = None ->
    scanPatterns accept (before ++ r :: after) rawOutput
    = scanPatterns accept (before ++ after) rawOutput.
Proof.
  intros A accept before r after raw E.
  induction before as [|b bs IH]; simpl app.
  - now rewrite scanPatterns_cons, E.
  - rewrite !scanPatterns_cons. now rewrite IH.
Qed.

Lemma recommendation_scan : forall rawOutput,
  scanPatterns (fun _ g => Content.longerThan 20 g)
    Keyword.recommendationRegexes rawOutput
  = scanPatterns (fun _ g => Content.longerThan 20 g)
      (firstn 3 Keyword.recommendationRegexes
       ++ skipn 4 Keyword.recommendationRegexes) rawOutput.
Proof.
  intros rawOutput.
  change Keyword.recommendationRegexes
    with (firstn 3 Keyword.recommendationRegexes
          ++ nth 3 Keyword.recommendationRegexes Eps
          :: skipn 4 Keyword.recommendationRegexes) at 1.
  apply scanPatterns_skip.
  eapply evidence_short_group; reflexivity.
Qed.

(** X6.  The pattern that begins with suggestion or suggested never
    gives the recommendation: its first group is the ending of that word,
    which is shorter than the 20 code units asked for; the text of the line
    is in its second group, which is not read.  The recommendation is the one
    that the four other patterns give, or the one made from the labels. *)
Theorem suggestion_never_gives_recommendation : forall rawOutput,
  exists r v,
    Keyword.formatKeywordResults rawOutput = Returns r /\
    Keyword.keyword r = Some v /\
    Keyword.recommendation r =
      match orDefault
              (scanPatterns (fun _ g => Content.longerThan 20 g)
                 (firstn 3 Keyword.recommendationRegexes
                  ++ skipn 4 Keyword.recommendationRegexes) rawOutput) [] with
      | [] => Keyword.generatedRecommendation (Keyword.commercialIntent r)
                (Keyword.competitionLevel r) v
      | found => found
      end.
Proof.
  intros rawOutput.
  destruct (formatKeywordResults_returns rawOutput)
    as (r & v & z & E & K & _ & _ & _ & _ & _ & _ & _ & _ & _ & _ & R).
  exists r, v. repeat split; auto. rewrite R.
  now rewrite recommendation_scan.
Qed.

Lemma generatedRecommendation_nonempty : forall intent competition keyword,
  Keyword.generatedRecommendation intent competition keyword <> [].
Proof.
  intros i c k. unfold Keyword.generatedRecommendation.
  repeat case_if; discriminate.
Qed.

Lemma keyword_recommendations_labelled :
  Forall labelledLine (firstn 3 Keyword.recommendationRegexes
                       ++ skipn 4 Keyword.recommendationRegexes).
Proof. repeat constructor; eexists; reflexivity. Qed.

(** X7.  The recommendation of a keyword analysis is never the empty
    text. *)
Theorem keyword_recommendation_present : forall rawOutput,
  exists r,
    Keyword.formatKeywordResults rawOutput = Returns r /\
    Keyword.recommendation r <> [].
Proof.
  intros rawOutput.
  destruct (formatKeywordResults_returns rawOutput)
    as (r & v & z & E & K & _ & _ & _ & _ & _ & _ & _ & _ & _ & _ & R).
  exists r. split; auto. rewrite recommendation_scan in R. rewrite R. clear R.
  destruct (scanPatterns _ _ rawOutput) as [t|] eqn:S; simpl.
  - apply scan_longerThan_nonempty in S;
      [|apply keyword_recommendations_labelled].
    destruct t; [congruence|discriminate].
  - apply generatedRecommendation_nonempty.
Qed.

(* ================================================================== *)
(** * The related keywords *)
(* ================================================================== *)

Lemma keywordsOf_entries : forall g l,
  Keyword.keywordsOf g = Some l -> l <> [] /\ Forall (fun kw => kw <> []) l.
Proof.
  unfold Keyword.keywordsOf. intros g l H.
  set (f := filter _ _) in H.
  destruct (0 <? length f)%nat eqn:E; [|discriminate].
  inversion H; subst l; clear H. split.
  - destruct f; [discriminate|discriminate].
  - apply Forall_forall. intros kw I. apply filter_In in I as [_ I].
    destruct kw; [discriminate|discriminate].
Qed.

Lemma scanPatterns_accepted :
  forall (A : Type) (accept : regex -> jsstring -> option A) regexes rawOutput v,
    scanPatterns accept regexes rawOutput = Some v ->
    exists r m g,
      In r regexes /\ String_match rawOutput r = Some m /\
      group m 1 = Some g /\ g <> [] /\ accept r g = Some v.
Proof.
  intros A accept. induction regexes as [|r rs IH]; intros raw v H;
    [discriminate|].
  rewrite scanPatterns_cons in H.
  destruct (evidence accept raw r) as [w|] eqn:E.
  - inversion H; subst w. unfold evidence in E.
    destruct (String_match raw r) as [m|] eqn:M; [|discriminate].
    destruct (group m 1) as [[|y g]|] eqn:G; try discriminate.
    exists r, m, (y :: g). simpl in *. repeat split; auto. discriminate.
  - destruct (IH _ _ H) as (r' & m & g & I & M & G & N & Ha).
    exists r', m, g. simpl. auto.
Qed.

(** X8.  A keyword analysis always has a related keyword, and none of
    its related keywords is the empty text. *)
Theorem related_keywords_present : forall rawOutput,
  exists r,
    Keyword.formatKeywordResults rawOutput = Returns r /\
    Keyword.relatedKeywords r <> [] /\
    Forall (fun kw => kw <> []) (Keyword.relatedKeywords r).
Proof.
  intros rawOutput.
  destruct (formatKeywordResults_returns rawOutput)
    as (r & v & z & E & _ & _ & _ & _ & _ & _ & _ & _ & _ & _ & K & _).
  exists r. split; auto. rewrite K.
  destruct (scanPatterns _ Keyword.relatedRegexes rawOutput) as [l|] eqn:S;
    simpl.
  - destruct (scanPatterns_accepted _ _ _ _ _ S) as (_ & _ & g & _ & _ & _ & _ & Hk).
    now apply keywordsOf_entries in Hk.
  - split; [discriminate|].
    repeat constructor; intros H; apply app_eq_nil in H as [_ H];
      discriminate.
Qed.

(* ================================================================== *)
(** * The keyword between quotes *)
(* ================================================================== *)

Lemma xexecFrom_here : forall r s i s' c,
  xmatchHere r s = Some (s', c) ->
  xexecFrom r s i = Some (mkMatch i (firstn (length s - length s') s) c).
Proof.
  intros r s i s' c H. destruct s; cbn [xexecFrom]; now rewrite H.
Qed.

Lemma extractKeyword_read_back : forall before v after,
  forallb (fun ch => negb (ch =? QUOTE)%N) before = true ->
  quotable v = true ->
  Keyword.extractKeyword (before ++ js "for " ++ QUOTE :: v ++ QUOTE :: after)
  = Some v.
Proof.
  intros before v after B Q. unfold Keyword.extractKeyword, xString_match.
  rewrite xexecFrom_skip.
  - rewrite (xexecFrom_here _ _ _ _ _ (keywordRegex_here v after Q)).
    reflexivity.
  - intros p q -> Hq. apply keywordRegex_needs_quote; auto.
    rewrite forallb_app in B. now apply andb_true_iff in B as [_ B].
Qed.

(** X4.  The keyword is read back from a text that names it between
    double quotes after the word for and a space, as the tools of the agent
    write it, when no double quote comes before and the keyword holds no
    double quote and no line break. *)
Theorem keyword_read_back : forall before v after,
  forallb (fun ch => negb (ch =? QUOTE)%N) before = true ->
  quotable v = true ->
  exists r,
    Keyword.formatKeywordResults
      (before ++ js "for " ++ QUOTE :: v ++ QUOTE :: after) = Returns r /\
    Keyword.keyword r = Some v.
Proof.
  intros before v after B Q.
  destruct (formatKeywordResults_returns
              (before ++ js "for " ++ QUOTE :: v ++ QUOTE :: after))
    as (r & v' & z & E & K & _ & X & _).
  exists r. split; auto.
  rewrite K, <- X. now apply extractKeyword_read_back.
Qed.

Lemma keyword_read_back_witness :
  exists r,
    Keyword.formatKeywordResults
      (js "Search trends " ++ js "for " ++ QUOTE :: js "trail shoes"
       ++ QUOTE :: js ": rising") = Returns r /\
    Keyword.keyword r = Some (js "trail shoes").
Proof.
  apply (keyword_read_back (js "Search trends ") (js "trail shoes")
           (js ": rising")); reflexivity.
Defined.

(* ================================================================== *)
(** * The lists of a technical audit *)
(* ================================================================== *)

Lemma formatTechnicalSeoResults_lists :
  forall toLowerCase toUpperCase rawOutput,
  exists r issues direct,
    Technical.formatTechnicalSeoResults toLowerCase toUpperCase rawOutput
    = Returns r /\
    Technical.scanAllIssues toUpperCase (S (length rawOutput))
      Technical.issueRegexes rawOutput [] = Returns issues /\
    Technical.scanAllImprovements (S (length rawOutput))
      Technical.improvementRegexes rawOutput [] = Returns direct /\
    Technical.criticalIssues r =
      firstn 3 (Technical.fallbackIssues rawOutput
                  (Technical.performanceScore r) (Technical.mobileScore r)
                  issues) /\
    Technical.improvements r =
      firstn 5
        (Technical.uniqueImprovements toLowerCase
           (if (4 <=? length direct)%nat then direct
            else direct ++
                 Technical.fallbackImprovementsOf rawOutput
                   (Technical.performanceScore r) (Technical.mobileScore r)
                   (Technical.schemaScore r))).
Proof.
  intros toLowerCase toUpperCase rawOutput.
  unfold Technical.formatTechnicalSeoResults.
  destruct (scanAllIssues_returns toUpperCase Technical.issueRegexes
              eq_refl rawOutput []) as (issues & Ei).
  destruct (scanAllImprovements_returns Technical.improvementRegexes
              eq_refl rawOutput []) as (direct & Ed).
  rewrite Ei. cbn [bind]. rewrite Ed. cbn [bind].
  eexists. exists issues, direct. split; [reflexivity|].
  repeat split; auto.
Qed.

Section ScanInvariants.
Variable toUpperCase : jsstring -> jsstring.

(** What holds of the list before a scan and of every item that a scan can
    add holds of the list after it. *)
Lemma scanImprovements_invariant :
  forall (P : Technical.Improvement -> Prop) regex,
    (forall improvement piece,
        20 < length improvement ->
        nth_error (split sentenceEnd improvement) 0 = Some piece ->
        P (Technical.mkImprovement
             (Technical.classifyCategory improvement) (trim piece ++ js ".")
             (Technical.classifyPriority improvement)
             (Technical.classifyEffort improvement))) ->
    forall fuel rawOutput startPos acc out,
      Forall P acc ->
      Technical.scanImprovements fuel regex rawOutput startPos acc = Returns out ->
      Forall P out.
Proof.
  intros P regex Hp. induction fuel as [|fuel IH];
    intros rawOutput startPos acc out Ha H; [discriminate|].
  simpl in H. destruct (String_match _ regex) as [m|];
    [|inversion H; subst; exact Ha].
  destruct (group m 1) as [v|]; [|discriminate]. cbn [method bind] in H.
  destruct (Nat.ltb_spec 20 (length (trim v))) as [Lt|_].
  - unfold method0, method in H.
    destruct (nth_error (split sentenceEnd (trim v)) 0) as [piece|] eqn:Ep;
      [|discriminate].
    cbn [bind] in H.
    assert (Ha' : Forall P (acc ++
                   [Technical.mkImprovement
                      (Technical.classifyCategory (trim v))
                      (trim piece ++ js ".")
                      (Technical.classifyPriority (trim v))
                      (Technical.classifyEffort (trim v))])).
    { apply Forall_app. split; auto. }
    case_if_in H; [inversion H; subst; assumption|]. eauto.
  - cbn [bind] in H. case_if_in H; [inversion H; subst; assumption|]. eauto.
Qed.

Lemma scanAllImprovements_invariant :
  forall (P : Technical.Improvement -> Prop),
    (forall improvement piece,
        20 < length improvement ->
        nth_error (split sentenceEnd improvement) 0 = Some piece ->
        P (Technical.mkImprovement
             (Technical.classifyCategory improvement) (trim piece ++ js ".")
             (Technical.classifyPriority improvement)
             (Technical.classifyEffort improvement))) ->
    forall fuel regexes rawOutput acc out,
      Forall P acc ->
      Technical.scanAllImprovements fuel regexes rawOutput acc = Returns out ->
      Forall P out.
Proof.
  intros P Hp fuel. induction regexes as [|r rs IH];
    intros rawOutput acc out Ha H; simpl in H.
  - inversion H; subst; assumption.
  - destruct (Technical.scanImprovements fuel r rawOutput 0 acc) as [l| |] eqn:E;
      try discriminate.
    cbn [bind] in H.
    pose proof (scanImprovements_invariant P r Hp _ _ _ _ _ Ha E) as Hl.
    case_if_in H; [inversion H; subst; assumption|]. eauto.
Qed.

Lemma scanIssues_invariant :
  forall (P : Technical.CriticalIssue -> Prop) regex,
    (forall issue piece,
        15 < length issue ->
        nth_error (split sentenceEnd issue) 0 = Some piece ->
        P (Technical.mkIssue
             (Technical.classifyIssueCategory issue) (trim piece)
             (Technical.classifyImpact issue)
             (Technical.extractRecommendation toUpperCase issue))) ->
    forall fuel rawOutput startPos acc out,
      Forall P acc ->
      Technical.scanIssues toUpperCase fuel regex rawOutput startPos acc
      = Returns out ->
      Forall P out.
Proof.
  intros P regex Hp. induction fuel as [|fuel IH];
    intros rawOutput startPos acc out Ha H; [discriminate|].
  simpl in H. destruct (String_match _ regex) as [m|];
    [|inversion H; subst; exact Ha].
  destruct (group m 1) as [v|]; [|discriminate]. cbn [method bind] in H.
  destruct (Nat.ltb_spec 15 (length (trim v))) as [Lt|_].
  - unfold method0, method in H.
    destruct (nth_error (split sentenceEnd (trim v)) 0) as [piece|] eqn:Ep;
      [|discriminate].
    cbn [bind] in H.
    assert (Ha' : Forall P (acc ++
                   [Technical.mkIssue
                      (Technical.classifyIssueCategory (trim v)) (trim piece)
                      (Technical.classifyImpact (trim v))
                      (Technical.extractRecommendation toUpperCase (trim v))])).
    { apply Forall_app. split; auto. }
    case_if_in H; [inversion H; subst; assumption|]. eauto.
  - cbn [bind] in H. case_if_in H; [inversion H; subst; assumption|]. eauto.
Qed.

Lemma scanAllIssues_invariant :
  forall (P : Technical.CriticalIssue -> Prop),
    (forall issue piece,
        15 < length issue ->
        nth_error (split sentenceEnd issue) 0 = Some piece ->
        P (Technical.mkIssue
             (Technical.classifyIssueCategory issue) (trim piece)
             (Technical.classifyImpact issue)
             (Technical.extractRecommendation toUpperCase issue))) ->
    forall fuel regexes rawOutput acc out,
      Forall P acc ->
      Technical.scanAllIssues toUpperCase fuel regexes rawOutput acc
      = Returns out ->
      Forall P out.
Proof.
  intros P Hp fuel. induction regexes as [|r rs IH];
    intros rawOutput acc out Ha H; simpl in H.
  - inversion H; subst; assumption.
  - destruct (Technical.scanIssues toUpperCase fuel r rawOutput 0 acc)
      as [l| |] eqn:E; try discriminate.
    cbn [bind] in H.
    pose proof (scanIssues_invariant P r Hp _ _ _ _ _ Ha E) as Hl.
    case_if_in H; [inversion H; subst; assumption|]. eauto.
Qed.
End ScanInvariants.

Lemma Forall_pushIf : forall (A : Type) (P : A -> Prop) b x l,
  P x -> Forall P l -> Forall P (pushIf b x l).
Proof.
  intros A P b x l Hx Hl. unfold pushIf. destruct b; auto.
  apply Forall_app. auto.
Qed.

Lemma Forall_snoc : forall (A : Type) (P : A -> Prop) x l,
  P x -> Forall P l -> Forall P (l ++ [x]).
Proof. intros A P x l Hx Hl. apply Forall_app. auto. Qed.

Lemma subseq_Forall : forall (A : Type) (P : A -> Prop) l1 l2,
  subseq l1 l2 -> Forall P l2 -> Forall P l1.
Proof.
  intros A P l1 l2 S. induction S; intros F; auto; inversion F; subst; auto.
Qed.

Lemma Forall_take : forall (A : Type) (P : A -> Prop) n l,
  Forall P l -> Forall P (firstn n l).
Proof.
  intros A P n l F. rewrite <- (firstn_skipn n l) in F.
  now apply Forall_app in F.
Qed.

Ltac forall_pushes :=
  repeat first
    [ apply Forall_nil
    | apply Forall_pushIf
    | apply Forall_snoc
    | assumption
    | match goal with
      | |- Forall _ (if ?b then _ else _) => destruct b
      | |- Forall _ (match ?o with Some _ => _ | None => _ end) => destruct o
      end ].

Lemma classifyCategory_label : forall s,
  In (Technical.classifyCategory s) technicalCategories.
Proof.
  intros s. unfold Technical.classifyCategory. repeat case_if; simpl; auto 10.
Qed.

Lemma classifyIssueCategory_label : forall s,
  In (Technical.classifyIssueCategory s) technicalCategories.
Proof.
  intros s. unfold Technical.classifyIssueCategory.
  repeat case_if; simpl; auto 10.
Qed.

Lemma classifyPriority_label : forall s,
  In (Technical.classifyPriority s) levels.
Proof.
  intros s. unfold Technical.classifyPriority. repeat case_if; simpl; auto 10.
Qed.

Lemma classifyEffort_label : forall s, In (Technical.classifyEffort s) levels.
Proof.
  intros s. unfold Technical.classifyEffort. repeat case_if; simpl; auto 10.
Qed.

Lemma fallbackImprovements_labels : forall rawOutput p m s,
  Forall labelledImprovement (Technical.fallbackImprovementsOf rawOutput p m s).
Proof.
  intros rawOutput p m s. unfold Technical.fallbackImprovementsOf.
  cbv zeta. forall_pushes; (split; [|split]); simpl; auto 10.
Qed.

Lemma fallbackIssues_labels : forall rawOutput p m issues,
  Forall (fun c => In (Technical.issueCategory c) technicalCategories) issues ->
  Forall (fun c => In (Technical.issueCategory c) technicalCategories)
         (Technical.fallbackIssues rawOutput p m issues).
Proof.
  intros rawOutput p m issues F. unfold Technical.fallbackIssues.
  cbv zeta. forall_pushes; simpl; auto 10.
Qed.

(** The improvements read from the text have labels of the fixed sets, and
    so have the improvements that are returned. *)
Lemma scanned_improvements_labelled : forall fuel rawOutput direct,
  Technical.scanAllImprovements fuel Technical.improvementRegexes rawOutput []
  = Returns direct ->
  Forall labelledImprovement direct.
Proof.
  intros fuel rawOutput direct Ed.
  refine (scanAllImprovements_invariant labelledImprovement _ _ _ _ _ _
            (Forall_nil _) Ed).
  intros improvement piece _ _.
  split; [|split];
    cbn [Technical.category Technical.priority Technical.effort];
    auto using classifyCategory_label, classifyPriority_label,
               classifyEffort_label.
Qed.

Lemma returned_improvements_labelled :
  forall toLowerCase rawOutput direct p m s,
    Forall labelledImprovement direct ->
    Forall labelledImprovement
      (firstn 5
         (Technical.uniqueImprovements toLowerCase
            (if (4 <=? length direct)%nat then direct
             else direct ++ Technical.fallbackImprovementsOf rawOutput p m s))).
Proof.
  intros toLowerCase rawOutput direct p m s D.
  apply Forall_take. eapply subseq_Forall; [apply unique_subseq|].
  case_if; auto. apply Forall_app. split; auto.
  apply fallbackImprovements_labels.
Qed.

(** X12.  Every improvement of a technical audit has one of the four
    categories Performance, Mobile, Schema and Structure, and a priority and
    an effort among High, Medium and Low; every critical issue has one of the
    four categories. *)
Theorem technical_result_labels : forall toLowerCase toUpperCase rawOutput,
  exists r,
    Technical.formatTechnicalSeoResults toLowerCase toUpperCase rawOutput
    = Returns r /\
    Forall labelledImprovement (Technical.improvements r) /\
    Forall (fun c => In (Technical.issueCategory c) technicalCategories)
           (Technical.criticalIssues r).
Proof.
  intros toLowerCase toUpperCase rawOutput.
  destruct (formatTechnicalSeoResults_lists toLowerCase toUpperCase rawOutput)
    as (r & issues & direct & E & Ei & Ed & Hi & Hd).
  exists r. split; auto. rewrite Hi, Hd. split.
  - apply returned_improvements_labelled.
    eapply scanned_improvements_labelled; eauto.
  - apply Forall_take, fallbackIssues_labels.
    refine (scanAllIssues_invariant toUpperCase _ _ _ _ _ _ _
              (Forall_nil _) Ei).
    intros issue piece _ _. cbn [Technical.issueCategory].
    apply classifyIssueCategory_label.
Qed.

(** X13.  The badges that [getPriorityColor] and [getEffortColor] give
    to the improvements of a technical audit are red for High, yellow for
    Medium and green for Low: they are never gray. *)
Theorem technical_badges_coloured :
  forall (toLowerCase toUpperCase : jsstring -> jsstring) rawOutput,
    lowersAscii toLowerCase ->
    exists r,
      Technical.formatTechnicalSeoResults toLowerCase toUpperCase rawOutput
      = Returns r /\
      Forall (fun i =>
                In (Technical.priority i,
                    Ui.getPriorityColor toLowerCase (Technical.priority i))
                   priorityBadges /\
                In (Technical.effort i,
                    Ui.getEffortColor toLowerCase (Technical.effort i))
                   priorityBadges)
             (Technical.improvements r).
Proof.
  intros toLowerCase toUpperCase rawOutput L.
  destruct (formatTechnicalSeoResults_lists toLowerCase toUpperCase rawOutput)
    as (r & issues & direct & E & _ & Ed & _ & Hd).
  exists r. split; auto. rewrite Hd.
  apply scanned_improvements_labelled in Ed.
  eapply Forall_impl; [|apply returned_improvements_labelled; exact Ed].
  intros i (_ & P & X). split.
  - now apply getPriorityColor_level.
  - now apply getEffortColor_level.
Qed.

Lemma technical_badges_coloured_witness :
  exists r,
    Technical.formatTechnicalSeoResults asciiLower asciiUpper
      (js "Fix: this is an urgent and simple correction of the viewport")
    = Returns r /\
    Forall (fun i =>
              In (Technical.priority i,
                  Ui.getPriorityColor asciiLower (Technical.priority i))
                 priorityBadges /\
              In (Technical.effort i,
                  Ui.getEffortColor asciiLower (Technical.effort i))
                 priorityBadges)
           (Technical.improvements r).
Proof.
  exact (technical_badges_coloured asciiLower asciiUpper
           (js "Fix: this is an urgent and simple correction of the viewport")
           asciiLower_lowersAscii).
Defined.

(** X14.  A technical audit has at most three critical issues and at
    most five improvements, and no improvement is a duplicate (in the sense
    of the duplicate test of the source) of one listed before it. *)
Theorem technical_lists_bounded_without_duplicates :
  forall toLowerCase toUpperCase rawOutput,
  exists r,
    Technical.formatTechnicalSeoResults toLowerCase toUpperCase rawOutput
    = Returns r /\
    length (Technical.criticalIssues r) <= 3 /\
    length (Technical.improvements r) <= 5 /\
    forall l1 x l2,
      Technical.improvements r = l1 ++ x :: l2 ->
      existsb (Technical.isDuplicateOf toLowerCase x) l1 = false.
Proof.
  intros toLowerCase toUpperCase rawOutput.
  destruct (formatTechnicalSeoResults_lists toLowerCase toUpperCase rawOutput)
    as (r & issues & direct & E & _ & _ & Hi & Hd).
  exists r. split; auto. rewrite Hi, Hd.
  split; [apply firstn_le_length|]. split; [apply firstn_le_length|].
  intros l1 x l2 H.
  match type of H with
  | firstn 5 (Technical.uniqueImprovements _ ?l) = _ =>
      apply (unique_kept toLowerCase l l1 x
               (l2 ++ skipn 5 (Technical.uniqueImprovements toLowerCase l)))
  end.
  rewrite app_comm_cons, app_assoc, <- H. symmetry. apply firstn_skipn.
Qed.

(* ================================================================== *)
(** * The lists of a content analysis *)
(* ================================================================== *)

Lemma formatContentResults_lists : forall toUpperCase rawOutput,
  exists r direct h1 density,
    Content.formatContentResults toUpperCase rawOutput = Returns r /\
    Content.scanAllRecommendations (S (length rawOutput))
      Content.recommendationRegexes rawOutput [] = Returns direct /\
    Content.missingSubtopics r =
      orDefault (scanPatterns (fun _ g => Content.subtopicsOf g)
                   Content.missingSubtopicsRegexes rawOutput)
                [js "Topic research needed"] /\
    Content.recommendations r =
      firstn 5
        (if (3 <=? length direct)%nat then direct
         else direct ++
              Content.fallbackRecommendationsOf rawOutput h1 density
                (Content.missingSubtopics r) (Content.semanticScore r)) /\
    Content.improvedTitle r =
      Some (orDefault (scanPatterns (fun _ g => Content.longerThan 10 g)
                         Content.titleRegexes rawOutput)
                      (Content.defaultTitle toUpperCase
                         (Content.extractKeyword rawOutput))) /\
    Content.improvedMetaDescription r =
      Some (orDefault (scanPatterns (fun _ g => Content.longerThan 20 g)
                         Content.metaRegexes rawOutput)
                      (Content.defaultMetaDescription
                         (Content.extractKeyword rawOutput))).
Proof.
  intros toUpperCase rawOutput. unfold Content.formatContentResults.
  destruct (scanAllRecommendations_returns Content.recommendationRegexes
              eq_refl rawOutput []) as (direct & Ed).
  rewrite Ed. cbn [bind]. eexists. exists direct. do 2 eexists.
  split; [reflexivity|]. repeat split; auto.
Qed.

Lemma scanRecommendations_invariant :
  forall (P : Content.Recommendation -> Prop) regex,
    (forall suggestion,
        15 < length suggestion ->
        P (Content.mkRecommendation (Content.classifyPriority suggestion)
             (Content.classifyCategory suggestion) suggestion)) ->
    forall fuel rawOutput startPos acc out,
      Forall P acc ->
      Content.scanRecommendations fuel regex rawOutput startPos acc
      = Returns out ->
      Forall P out.
Proof.
  intros P regex Hp. induction fuel as [|fuel IH];
    intros rawOutput startPos acc out Ha H; [discriminate|].
  simpl in H. destruct (String_match _ regex) as [m|];
    [|inversion H; subst; exact Ha].
  destruct (group m 1) as [v|]; [|discriminate]. cbn [method bind] in H.
  destruct (Nat.ltb_spec 15 (length (trim v))) as [Lt|_]; eauto.
  eapply IH; [|exact H]. apply Forall_app. split; auto.
Qed.

Lemma scanAllRecommendations_invariant :
  forall (P : Content.Recommendation -> Prop),
    (forall suggestion,
        15 < length suggestion ->
        P (Content.mkRecommendation (Content.classifyPriority suggestion)
             (Content.classifyCategory suggestion) suggestion)) ->
    forall fuel regexes rawOutput acc out,
      Forall P acc ->
      Content.scanAllRecommendations fuel regexes rawOutput acc = Returns out ->
      Forall P out.
Proof.
  intros P Hp fuel. induction regexes as [|r rs IH];
    intros rawOutput acc out Ha H; simpl in H.
  - inversion H; subst; assumption.
  - destruct (Content.scanRecommendations fuel r rawOutput 0 acc)
      as [l| |] eqn:E; try discriminate.
    cbn [bind] in H.
    pose proof (scanRecommendations_invariant P r Hp _ _ _ _ _ Ha E). eauto.
Qed.

Lemma content_classifyCategory_label : forall s,
  In (Content.classifyCategory s) contentCategories.
Proof.
  intros s. unfold Content.classifyCategory. repeat case_if; simpl; auto 10.
Qed.

Lemma content_classifyPriority_label : forall s,
  In (Content.classifyPriority s) levels.
Proof.
  intros s. unfold Content.classifyPriority. repeat case_if; simpl; auto 10.
Qed.

Lemma fallbackRecommendations_labels : forall rawOutput h1 d subtopics s,
  Forall labelledRecommendation
         (Content.fallbackRecommendationsOf rawOutput h1 d subtopics s).
Proof.
  intros rawOutput h1 d subtopics s. unfold Content.fallbackRecommendationsOf.
  cbv zeta. forall_pushes; split; simpl; auto 10.
Qed.

Lemma subtopicsOf_entries : forall g l,
  Content.subtopicsOf g = Some l ->
  l <> [] /\ Forall (fun s => s <> [] /\ s <> js "None") l.
Proof.
  unfold Content.subtopicsOf. intros g l H.
  set (f := filter _ _) in H.
  destruct (0 <? length f)%nat eqn:E; [|discriminate].
  inversion H; subst l; clear H. split.
  - destruct f; [discriminate|discriminate].
  - apply Forall_forall. intros s I. apply filter_In in I as [_ I].
    apply andb_true_iff in I as [I1 I2]. split.
    + destruct s; [discriminate|discriminate].
    + intros ->. discriminate.
Qed.

Lemma missingSubtopics_entries : forall rawOutput,
  let subtopics :=
    orDefault (scanPatterns (fun _ g => Content.subtopicsOf g)
                 Content.missingSubtopicsRegexes rawOutput)
              [js "Topic research needed"] in
  subtopics <> [] /\ Forall (fun s => s <> [] /\ s <> js "None") subtopics.
Proof.
  intros rawOutput.
  destruct (scanPatterns _ Content.missingSubtopicsRegexes rawOutput)
    as [l|] eqn:S; simpl.
  - destruct (scanPatterns_accepted _ _ _ _ _ S) as (_ & _ & g & _ & _ & _ & _ & Hk).
    now apply subtopicsOf_entries in Hk.
  - split; [discriminate|]. repeat constructor; discriminate.
Qed.

(** X18.  The list of missing subtopics of a content analysis is never
    empty, and none of its entries is the empty text or the word None: the
    test of the source before the recommendation to add sections always
    succeeds. *)
Theorem missing_subtopics_present : forall toUpperCase rawOutput,
  exists r,
    Content.formatContentResults toUpperCase rawOutput = Returns r /\
    Content.missingSubtopics r <> [] /\
    Forall (fun s => s <> [] /\ s <> js "None") (Content.missingSubtopics r).
Proof.
  intros toUpperCase rawOutput.
  destruct (formatContentResults_lists toUpperCase rawOutput)
    as (r & direct & h1 & density & E & _ & M & _).
  exists r. split; auto. rewrite M. apply missingSubtopics_entries.
Qed.

Lemma pushIf_nonempty : forall (A : Type) b (x : A) l,
  l <> [] -> pushIf b x l <> [].
Proof.
  intros A b x l N. unfold pushIf. destruct b; auto.
  intros H. apply app_eq_nil in H as [H _]. contradiction.
Qed.

Lemma fallbackRecommendations_nonempty : forall rawOutput h1 d subtopics s,
  subtopics <> [] -> Forall (fun s => s <> [] /\ s <> js "None") subtopics ->
  Content.fallbackRecommendationsOf rawOutput h1 d subtopics s <> [].
Proof.
  intros rawOutput h1 d subtopics s N F.
  unfold Content.fallbackRecommendationsOf. cbv zeta.
  apply pushIf_nonempty.
  destruct subtopics as [|t ts]; [congruence|].
  inversion F as [|? ? [_ Ht] _]; subst.
  match goal with
  | |- pushIf ?g _ _ <> [] => assert (G : g = true)
  end.
  { simpl. destruct (JsString.eqb t (js "None")) eqn:E; auto.
    apply eqb_eq in E. contradiction. }
  rewrite G. unfold pushIf at 1.
  intros H. apply app_eq_nil in H as [_ H]. discriminate.
Qed.

Lemma returned_recommendations_labelled :
  forall fuel rawOutput direct h1 density subtopics semantic,
    Content.scanAllRecommendations fuel Content.recommendationRegexes
      rawOutput [] = Returns direct ->
    Forall labelledRecommendation
      (firstn 5
         (if (3 <=? length direct)%nat then direct
          else direct ++
               Content.fallbackRecommendationsOf rawOutput h1 density
                 subtopics semantic)).
Proof.
  intros fuel rawOutput direct h1 density subtopics semantic Ed.
  assert (D : Forall labelledRecommendation direct).
  { refine (scanAllRecommendations_invariant labelledRecommendation _ _ _ _ _ _
              (Forall_nil _) Ed).
    intros suggestion _. split;
      cbn [Content.priority Content.category];
      auto using content_classifyCategory_label,
                 content_classifyPriority_label. }
  apply Forall_take. case_if; auto. apply Forall_app. split; auto.
  apply fallbackRecommendations_labels.
Qed.

(** X19.  A content analysis has between one and five recommendations,
    each with a priority among High, Medium and Low and one of the five
    categories. *)
Theorem content_recommendations_present_and_labelled :
  forall toUpperCase rawOutput,
  exists r,
    Content.formatContentResults toUpperCase rawOutput = Returns r /\
    1 <= length (Content.recommendations r) <= 5 /\
    Forall labelledRecommendation (Content.recommendations r).
Proof.
  intros toUpperCase rawOutput.
  destruct (formatContentResults_lists toUpperCase rawOutput)
    as (r & direct & h1 & density & E & Ed & M & R & _).
  exists r. split; auto. rewrite R.
  split; [split|].
  - destruct (Nat.leb_spec 3 (length direct)) as [L|L].
    + rewrite length_firstn. apply Nat.min_glb; lia.
    + rewrite length_firstn, length_app. apply Nat.min_glb; [lia|].
      pose proof (fallbackRecommendations_nonempty rawOutput h1 density
                    (Content.missingSubtopics r) (Content.semanticScore r)) as N.
      rewrite M in N at 1 2.
      destruct (missingSubtopics_entries rawOutput) as [N1 N2].
      specialize (N N1 N2).
      destruct (Content.fallbackRecommendationsOf _ _ _ _ _);
        [congruence|simpl length; lia].
  - apply firstn_le_length.
  - eapply returned_recommendations_labelled; eauto.
Qed.

(** X20.  The badge that [getPriorityColor] gives to every
    recommendation of a content analysis is red for High, yellow for Medium
    and green for Low: it is never gray. *)
Theorem content_badges_coloured :
  forall (toLowerCase toUpperCase : jsstring -> jsstring) rawOutput,
    lowersAscii toLowerCase ->
    exists r,
      Content.formatContentResults toUpperCase rawOutput = Returns r /\
      Forall (fun i =>
                In (Content.priority i,
                    Ui.getPriorityColor toLowerCase (Content.priority i))
                   priorityBadges)
             (Content.recommendations r).
Proof.
  intros toLowerCase toUpperCase rawOutput L.
  destruct (formatContentResults_lists toUpperCase rawOutput)
    as (r & direct & h1 & density & E & Ed & _ & R & _).
  exists r. split; auto. rewrite R.
  eapply Forall_impl; [|eapply returned_recommendations_labelled; exact Ed].
  intros i (P & _). now apply getPriorityColor_level.
Qed.

Lemma content_badges_coloured_witness :
  exists r,
    Content.formatContentResults asciiUpper
      (js "Recommendation: it is critical to add the keyword to the title")
    = Returns r /\
    Forall (fun i =>
              In (Content.priority i,
                  Ui.getPriorityColor asciiLower (Content.priority i))
                 priorityBadges)
           (Content.recommendations r).
Proof.
  exact (content_badges_coloured asciiLower asciiUpper
           (js "Recommendation: it is critical to add the keyword to the title")
           asciiLower_lowersAscii).
Defined.

(* ================================================================== *)
(** * A coverage in percent *)
(* ================================================================== *)

(** X22.  A coverage stated in percent, from 0 to 1000, comes back as
    the semantic score: the division by 10 and the multiplication by 10 that
    follows lose nothing once the product is rounded. *)
Theorem percentage_read_back : forall regex g n,
  sourceIncludes Content.PERCENT regex = true ->
  (0 <= n <= 1000)%Z ->
  parseInt g = ofZ n ->
  Math_round (Content.topicScoreOf regex g * 10)%float = ofZ n.
Proof.
  intros regex g n P R G. unfold Content.topicScoreOf. rewrite P, G.
  assert (T : forallb (fun z => Leibniz.eqb (Math_round (ofZ z / 10 * 10)%float)
                                            (ofZ z))
                      (map Z.of_nat (seq 0 1001)) = true)
    by (vm_compute; reflexivity).
  apply Leibniz.eqb_spec.
  apply (proj1 (forallb_forall _ _) T).
  apply in_map_iff. exists (Z.to_nat n). split; [lia|]. apply in_seq. lia.
Qed.

Lemma percentage_read_back_witness :
  Math_round
    (Content.topicScoreOf
       (nth 5 Content.semanticScoreRegexes Eps) (js "73") * 10)%float
  = ofZ 73.
Proof.
  apply (percentage_read_back (nth 5 Content.semanticScoreRegexes Eps)
           (js "73") 73%Z); [reflexivity|lia|reflexivity].
Defined.

(* ================================================================== *)
(** * The first sentence *)
(* ================================================================== *)

Lemma forallb_rev_true : forall (A : Type) (f : A -> bool) l,
  forallb f l = true -> forallb f (rev l) = true.
Proof.
  intros A f. induction l as [|x l IH]; simpl; intros H; auto.
  apply andb_true_iff in H as [Hx Hl].
  rewrite forallb_app. simpl. now rewrite IH, Hx.
Qed.

Lemma trimStart_forallb : forall (f : N -> bool) s,
  forallb f s = true -> forallb f (trimStart s) = true.
Proof.
  intros f. induction s as [|c s IH]; simpl; intros H; auto.
  destruct (isWhiteSpace c); auto.
  apply andb_true_iff in H as [_ H]. auto.
Qed.

Lemma trim_forallb : forall (f : N -> bool) s,
  forallb f s = true -> forallb f (trim s) = true.
Proof.
  intros f s H. unfold trim, trimEnd.
  now apply forallb_rev_true, trimStart_forallb, forallb_rev_true,
            trimStart_forallb.
Qed.

(** No piece of a split holds a separator. *)
Lemma split_pieces : forall sep s,
  Forall (fun piece => forallb (fun c => negb (sep c)) piece = true)
         (split sep s).
Proof.
  intros sep. induction s as [|c s IH]; simpl.
  - repeat constructor.
  - destruct (sep c) eqn:E.
    + constructor; auto.
    + destruct (split sep s) as [|piece rest].
      * repeat constructor. simpl. now rewrite E.
      * inversion IH; subst. constructor; auto. simpl. now rewrite E.
Qed.

Lemma fallbackIssues_sentences : forall rawOutput p m issues,
  Forall oneSentence issues ->
  Forall oneSentence (Technical.fallbackIssues rawOutput p m issues).
Proof.
  intros rawOutput p m issues F. unfold Technical.fallbackIssues.
  cbv zeta. forall_pushes; reflexivity.
Qed.

(** X15.  The text of a critical issue holds no period and no
    semicolon: an issue read from the text is cut at the first of them, and
    the stock issues hold none. *)
Theorem critical_issue_is_one_sentence :
  forall toLowerCase toUpperCase rawOutput,
  exists r,
    Technical.formatTechnicalSeoResults toLowerCase toUpperCase rawOutput
    = Returns r /\
    Forall oneSentence (Technical.criticalIssues r).
Proof.
  intros toLowerCase toUpperCase rawOutput.
  destruct (formatTechnicalSeoResults_lists toLowerCase toUpperCase rawOutput)
    as (r & issues & direct & E & Ei & _ & Hi & _).
  exists r. split; auto. rewrite Hi.
  apply Forall_take, fallbackIssues_sentences.
  refine (scanAllIssues_invariant toUpperCase _ _ _ _ _ _ _
            (Forall_nil _) Ei).
  intros issue piece _ Hp. unfold oneSentence. cbn [Technical.issue].
  apply trim_forallb.
  pose proof (split_pieces sentenceEnd issue) as S.
  apply nth_error_In in Hp. rewrite Forall_forall in S. auto.
Qed.

(* ================================================================== *)
(** * Lines that end with a carriage return and a line feed *)
(* ================================================================== *)

Lemma crlfRest_tail : forall x s, crlfRest (x :: s) = true -> crlfRest s = true.
Proof.
  intros x s H. unfold crlfRest in *. apply orb_true_iff in H as [H|H].
  - cbn [crlfLines] in H. destruct (isLineTerminator x).
    + apply andb_true_iff in H as [_ H]. destruct s as [|d s]; [discriminate|].
      rewrite H. apply orb_true_r.
    + destruct s as [|d s]; [discriminate|]. now rewrite H.
  - apply andb_true_iff in H as [_ H]. now rewrite H.
Qed.

Lemma crlfRest_suffix : forall u s,
  crlfRest (u ++ s) = true -> crlfRest s = true.
Proof.
  induction u as [|x u IH]; intros s H; auto.
  apply IH. eapply crlfRest_tail. exact H.
Qed.

Lemma crlfLines_crlfRest : forall s, crlfLines s = true -> crlfRest s = true.
Proof. intros s H. unfold crlfRest. now rewrite H. Qed.

(** In such a text no run of characters of a line reaches a line feed or
    the end of the text. *)
Lemma crlfLines_no_line : forall u s,
  forallb (matchAtom AnyChar) u = true -> u <> [] ->
  crlfLines (u ++ s) = true ->
  match s with
  | [] => False
  | x :: _ => x <> LF
  end.
Proof.
  induction u as [|a u IH]; intros s F N H; [congruence|].
  simpl in F. apply andb_true_iff in F as [Fa F].
  apply negb_true_iff in Fa.
  change ((a :: u) ++ s) with (a :: u ++ s) in H.
  cbn [crlfLines] in H. rewrite Fa in H.
  destruct u as [|b u].
  - simpl in H. destruct s as [|x s]; [discriminate|].
    intros ->. cbn [crlfLines] in H. discriminate.
  - apply IH; auto. discriminate.
Qed.

Lemma canonicalize_LF : forall x, canonicalize x = canonicalize LF -> x = LF.
Proof.
  intros x. unfold canonicalize.
  destruct ((97 <=? x) && (x <=? 122))%N eqn:E; simpl; auto.
  apply andb_true_iff in E as [E _]. apply N.leb_le in E.
  unfold LF. intros H. lia.
Qed.

(** The rest of a line of such a text is found empty, or not at all. *)
Lemma restOfLine_crlf : forall s c res,
  crlfRest s = true ->
  rmatch restOfLine s c done = Some res ->
  getCapture 1 (snd res) = Some [] /\
  (getCapture 2 (snd res) = Some [] \/ getCapture 2 (snd res) = Some [LF]).
Proof.
  intros s c res R H. rewrite restOfLine_unfold in H. unfold lazyLine in H.
  destruct (starLazy_first _ _ _ _ _ _ H) as (u & s' & -> & K & F & _).
  clear H.
  assert (U : u = []).
  { destruct u as [|a u]; auto. exfalso.
    assert (E : match s' with [] => True | x :: _ => x = LF end).
    { destruct s' as [|x s']; auto.
      unfold lineEnd, done in K. cbn [rmatch orElse] in K.
      cbn [matchAtom] in K.
      destruct (canonicalize x =? canonicalize LF)%N eqn:E;
        [|discriminate].
      apply N.eqb_eq in E. now apply canonicalize_LF. }
    unfold crlfRest in R. apply orb_true_iff in R as [R|R].
    - pose proof (crlfLines_no_line (a :: u) s' F ltac:(discriminate) R) as N.
      destruct s'; auto.
    - simpl in F. apply andb_true_iff in F as [Fa _].
      simpl in R. apply andb_true_iff in R as [Ra _].
      apply N.eqb_eq in Ra. subst a. discriminate. }
  subst u. simpl app in K. rewrite Nat.sub_diag in K. simpl firstn in K.
  unfold lineEnd, done in K. cbn [rmatch] in K.
  destruct s' as [|x s']; cbn [orElse] in K.
  - inversion K; subst res. simpl. auto.
  - cbn [matchAtom] in K.
    destruct (canonicalize x =? canonicalize LF)%N eqn:E; cbn [orElse] in K;
      [|discriminate].
    apply N.eqb_eq, canonicalize_LF in E. subst x.
    pose proof (firstn_prefix [LF] s') as P.
    change ([LF] ++ s') with (LF :: s') in P. rewrite P in K.
    inversion K; subst res. simpl. auto.
Qed.

Lemma lineValued_crlf : forall r,
  lineValued r ->
  forall s c res,
    crlfRest s = true ->
    rmatch r s c done = Some res ->
    getCapture 1 (snd res) = Some [] /\
    (getCapture 2 (snd res) = Some [] \/ getCapture 2 (snd res) = Some [LF]).
Proof.
  induction 1 as [|r1 r2 _ IH]; intros s c res R H.
  - eapply restOfLine_crlf; eauto.
  - cbn [rmatch] in H.
    destruct (rmatch_inv _ _ _ _ _ _ H) as (s1 & c1 & H1 & [(u & -> & _) _ _]).
    apply crlfRest_suffix in R. eapply IH; eauto.
Qed.

(** A pattern that ends with the rest of the line finds, in a text whose
    lines end with a carriage return and a line feed, empty values only. *)
Lemma String_match_crlf : forall r s m,
  lineValued r -> crlfRest s = true -> String_match s r = Some m ->
  group m 1 = Some [] /\ (group m 2 = Some [] \/ group m 2 = Some [LF]).
Proof.
  intros r s m L R H. unfold String_match in H.
  destruct (execFrom_inv _ _ _ _ H) as (pre & s0 & s' & -> & _ & Hm & _).
  apply crlfRest_suffix in R. unfold matchHere in Hm. fold done in Hm.
  apply (lineValued_crlf r L _ _ _ R Hm).
Qed.

Lemma crlfRest_from : forall n s,
  crlfLines s = true -> crlfRest (substring_from n s) = true.
Proof.
  intros n s H. apply crlfLines_crlfRest in H.
  rewrite <- (firstn_skipn n s) in H. now apply crlfRest_suffix in H.
Qed.

Lemma evidence_crlf :
  forall (A : Type) (accept : regex -> jsstring -> option A) r rawOutput,
    lineValued r -> crlfLines rawOutput = true ->
    evidence accept rawOutput r = None.
Proof.
  intros A accept r raw L C. unfold evidence.
  destruct (String_match raw r) as [m|] eqn:M; [|reflexivity].
  destruct (String_match_crlf r raw m L (crlfLines_crlfRest _ C) M) as [-> _].
  reflexivity.
Qed.

Lemma scanPatterns_crlf :
  forall (A : Type) (accept : regex -> jsstring -> option A) regexes rawOutput,
    Forall lineValued regexes -> crlfLines rawOutput = true ->
    scanPatterns accept regexes rawOutput = None.
Proof.
  intros A accept regexes raw F C. induction F as [|r rs L _ IH];
    [reflexivity|].
  rewrite scanPatterns_cons, evidence_crlf; auto.
Qed.

Section CrlfScans.
Variable toUpperCase : jsstring -> jsstring.
Variable regex : regex.
Variable rawOutput : jsstring.
Hypothesis valued : lineValued regex.
Hypothesis crlf : crlfLines rawOutput = true.

Lemma scanRecommendations_crlf : forall fuel startPos acc out,
  Content.scanRecommendations fuel regex rawOutput startPos acc = Returns out ->
  out = acc.
Proof.
  induction fuel as [|fuel IH]; intros startPos acc out H; [discriminate|].
  simpl in H.
  destruct (String_match _ regex) as [m|] eqn:M; [|now inversion H].
  destruct (String_match_crlf _ _ _ valued (crlfRest_from startPos _ crlf) M)
    as [G _].
  rewrite G in H. cbn [method bind] in H. eauto.
Qed.

Lemma scanImprovements_crlf : forall fuel startPos acc out,
  Technical.scanImprovements fuel regex rawOutput startPos acc = Returns out ->
  out = acc.
Proof.
  induction fuel as [|fuel IH]; intros startPos acc out H; [discriminate|].
  simpl in H.
  destruct (String_match _ regex) as [m|] eqn:M; [|now inversion H].
  destruct (String_match_crlf _ _ _ valued (crlfRest_from startPos _ crlf) M)
    as [G _].
  rewrite G in H. cbn [method bind] in H.
  change (20 <? length (trim []))%nat with false in H. cbn [bind] in H.
  case_if_in H; [now inversion H|eauto].
Qed.

Lemma scanIssues_crlf : forall fuel startPos acc out,
  Technical.scanIssues toUpperCase fuel regex rawOutput startPos acc
  = Returns out ->
  out = acc.
Proof.
  induction fuel as [|fuel IH]; intros startPos acc out H; [discriminate|].
  simpl in H.
  destruct (String_match _ regex) as [m|] eqn:M; [|now inversion H].
  destruct (String_match_crlf _ _ _ valued (crlfRest_from startPos _ crlf) M)
    as [G _].
  rewrite G in H. cbn [method bind] in H.
  change (15 <? length (trim []))%nat with false in H. cbn [bind] in H.
  case_if_in H; [now inversion H|eauto].
Qed.
End CrlfScans.

Lemma scanAllRecommendations_crlf : forall regexes rawOutput fuel acc out,
  Forall lineValued regexes -> crlfLines rawOutput = true ->
  Content.scanAllRecommendations fuel regexes rawOutput acc = Returns out ->
  out = acc.
Proof.
  intros regexes rawOutput fuel acc out F C. revert acc.
  induction F as [|r rs L _ IH]; intros acc H; simpl in H.
  - now inversion H.
  - destruct (Content.scanRecommendations fuel r rawOutput 0 acc)
      as [l| |] eqn:E; try discriminate.
    apply (scanRecommendations_crlf r rawOutput L C) in E. subst l.
    cbn [bind] in H. auto.
Qed.

Lemma scanAllImprovements_crlf : forall regexes rawOutput fuel acc out,
  Forall lineValued regexes -> crlfLines rawOutput = true ->
  Technical.scanAllImprovements fuel regexes rawOutput acc = Returns out ->
  out = acc.
Proof.
  intros regexes rawOutput fuel acc out F C. revert acc.
  induction F as [|r rs L _ IH]; intros acc H; simpl in H.
  - now inversion H.
  - destruct (Technical.scanImprovements fuel r rawOutput 0 acc)
      as [l| |] eqn:E; try discriminate.
    apply (scanImprovements_crlf r rawOutput L C) in E. subst l.
    cbn [bind] in H. case_if_in H; [now inversion H|auto].
Qed.

Lemma scanAllIssues_crlf :
  forall toUpperCase regexes rawOutput fuel acc out,
    Forall lineValued regexes -> crlfLines rawOutput = true ->
    Technical.scanAllIssues toUpperCase fuel regexes rawOutput acc
    = Returns out ->
    out = acc.
Proof.
  intros toUpperCase regexes rawOutput fuel acc out F C. revert acc.
  induction F as [|r rs L _ IH]; intros acc H; simpl in H.
  - now inversion H.
  - destruct (Technical.scanIssues toUpperCase fuel r rawOutput 0 acc)
      as [l| |] eqn:E; try discriminate.
    apply (scanIssues_crlf toUpperCase r rawOutput L C) in E. subst l.
    cbn [bind] in H. case_if_in H; [now inversion H|auto].
Qed.

Lemma scanLabel_crlf :
  forall (classify : jsstring -> option jsstring) r rawOutput,
    lineValued r -> crlfLines rawOutput = true ->
    classify [] = None -> classify [LF] = None ->
    match String_match rawOutput r with
    | Some m => classify (Keyword.firstTruthyGroup m)
    | None => None
    end = None.
Proof.
  intros classify r raw L C E0 E1.
  destruct (String_match raw r) as [m|] eqn:M; [|reflexivity].
  destruct (String_match_crlf r raw m L (crlfLines_crlfRest _ C) M)
    as [G1 [G2|G2]]; unfold Keyword.firstTruthyGroup; rewrite G1, G2; auto.
Qed.

(** X11.  In a text whose lines all end with a carriage return and a
    line feed, no value is read after a label: the dot of the patterns stops
    at the carriage return, and the line feed or end of text that must follow
    the value is not there.  A keyword analysis then has the default labels,
    the two keywords made from the keyword, and the stock recommendation. *)
Theorem keyword_values_unread_on_crlf_text : forall rawOutput,
  crlfLines rawOutput = true ->
  exists r v,
    Keyword.formatKeywordResults rawOutput = Returns r /\
    Keyword.keyword r = Some v /\
    Keyword.trend r = js "Stable" /\
    Keyword.competitionLevel r = js "Medium" /\
    Keyword.commercialIntent r = js "Medium" /\
    Keyword.relatedKeywords r = [v ++ js " guide"; v ++ js " tutorial"] /\
    Keyword.recommendation r =
      js "Target this keyword with comprehensive, long-form content".
Proof.
  intros rawOutput C.
  destruct (formatKeywordResults_returns rawOutput)
    as (r & v & z & E & K & _ & _ & _ & _ & _ & T & Co & I & _ & Re & Rc).
  assert (T' : Keyword.trend r = js "Stable").
  { rewrite T.
    rewrite (scanLabel_app_silent Keyword.classifyTrend [] Keyword.trendRegexes);
      [reflexivity|].
    repeat constructor;
      first [ apply scanLabel_crlf; [repeat constructor|exact C| |];
              reflexivity
            | eapply scanLabel_silent;
              [apply classifyTrend_case|reflexivity|reflexivity] ]. }
  assert (Co' : Keyword.competitionLevel r = js "Medium").
  { rewrite Co.
    rewrite (scanLabel_app_silent Keyword.classifyCompetition []
               Keyword.competitionRegexes); [reflexivity|].
    repeat constructor;
      first [ apply scanLabel_crlf; [repeat constructor|exact C| |];
              reflexivity
            | eapply scanLabel_silent;
              [apply classifyCompetition_case|reflexivity|reflexivity] ]. }
  assert (I' : Keyword.commercialIntent r = js "Medium").
  { rewrite I.
    rewrite (scanLabel_app_silent Keyword.classifyIntent []
               Keyword.intentRegexes); [reflexivity|].
    repeat constructor;
      first [ apply scanLabel_crlf; [repeat constructor|exact C| |];
              reflexivity
            | eapply scanLabel_silent;
              [apply classifyIntent_case|reflexivity|reflexivity] ]. }
  exists r, v. repeat split; auto.
  - rewrite Re, scanPatterns_crlf; auto. repeat constructor.
  - rewrite Rc, recommendation_scan, scanPatterns_crlf, I', Co'; auto.
    repeat constructor.
Qed.

Lemma keyword_values_unread_on_crlf_text_witness :
  exists r v,
    Keyword.formatKeywordResults
      (js "Trend: rising" ++ [CR; LF] ++ js "Competition: high" ++ [CR; LF])
    = Returns r /\
    Keyword.keyword r = Some v /\
    Keyword.trend r = js "Stable" /\
    Keyword.competitionLevel r = js "Medium" /\
    Keyword.commercialIntent r = js "Medium" /\
    Keyword.relatedKeywords r = [v ++ js " guide"; v ++ js " tutorial"] /\
    Keyword.recommendation r =
      js "Target this keyword with comprehensive, long-form content".
Proof.
  apply (keyword_values_unread_on_crlf_text
           (js "Trend: rising" ++ [CR; LF] ++ js "Competition: high"
            ++ [CR; LF])).
  reflexivity.
Defined.

(** X21.  In a text whose lines all end with a carriage return and a
    line feed, a content analysis reads no recommendation, subtopic, title
    or description: the subtopics are the placeholder, the title and the
    description are the ones made from the keyword, and every recommendation
    is a stock one. *)
Theorem content_values_unread_on_crlf_text : forall toUpperCase rawOutput,
  crlfLines rawOutput = true ->
  exists r h1 density,
    Content.formatContentResults toUpperCase rawOutput = Returns r /\
    Content.missingSubtopics r = [js "Topic research needed"] /\
    Content.improvedTitle r =
      Some (Content.defaultTitle toUpperCase (Content.extractKeyword rawOutput)) /\
    Content.improvedMetaDescription r =
      Some (Content.defaultMetaDescription (Content.extractKeyword rawOutput)) /\
    Content.recommendations r =
      firstn 5 (Content.fallbackRecommendationsOf rawOutput h1 density
                  [js "Topic research needed"] (Content.semanticScore r)).
Proof.
  intros toUpperCase rawOutput C.
  destruct (formatContentResults_lists toUpperCase rawOutput)
    as (r & direct & h1 & density & E & Ed & M & R & T & D).
  apply scanAllRecommendations_crlf in Ed; auto; [|repeat constructor].
  subst direct. exists r, h1, density.
  rewrite scanPatterns_crlf in M by (auto; repeat constructor).
  rewrite scanPatterns_crlf in T by (auto; repeat constructor).
  rewrite scanPatterns_crlf in D by (auto; repeat constructor).
  rewrite M in R. cbn [orDefault] in *. repeat split; auto.
Qed.

Lemma content_values_unread_on_crlf_text_witness :
  exists r h1 density,
    Content.formatContentResults asciiUpper
      (js "Improved title: Ten trail shoes for every season" ++ [CR; LF])
    = Returns r /\
    Content.missingSubtopics r = [js "Topic research needed"] /\
    Content.improvedTitle r =
      Some (Content.defaultTitle asciiUpper
              (Content.extractKeyword
                 (js "Improved title: Ten trail shoes for every season"
                  ++ [CR; LF]))) /\
    Content.improvedMetaDescription r =
      Some (Content.defaultMetaDescription
              (Content.extractKeyword
                 (js "Improved title: Ten trail shoes for every season"
                  ++ [CR; LF]))) /\
    Content.recommendations r =
      firstn 5 (Content.fallbackRecommendationsOf
                  (js "Improved title: Ten trail shoes for every season"
                   ++ [CR; LF])
                  h1 density
                  [js "Topic research needed"] (Content.semanticScore r)).
Proof.
  apply (content_values_unread_on_crlf_text asciiUpper
           (js "Improved title: Ten trail shoes for every season"
            ++ [CR; LF])).
  reflexivity.
Defined.

(** X16.  In a text whose lines all end with a carriage return and a
    line feed, a technical audit reads no issue and no improvement from the
    text: both lists hold stock items only. *)
Theorem technical_values_unread_on_crlf_text :
  forall toLowerCase toUpperCase rawOutput,
    crlfLines rawOutput = true ->
    exists r,
      Technical.formatTechnicalSeoResults toLowerCase toUpperCase rawOutput
      = Returns r /\
      Technical.criticalIssues r =
        firstn 3 (Technical.fallbackIssues rawOutput
                    (Technical.performanceScore r) (Technical.mobileScore r)
                    []) /\
      Technical.improvements r =
        firstn 5
          (Technical.uniqueImprovements toLowerCase
             (Technical.fallbackImprovementsOf rawOutput
                (Technical.performanceScore r) (Technical.mobileScore r)
                (Technical.schemaScore r))).
Proof.
  intros toLowerCase toUpperCase rawOutput C.
  destruct (formatTechnicalSeoResults_lists toLowerCase toUpperCase rawOutput)
    as (r & issues & direct & E & Ei & Ed & Hi & Hd).
  apply scanAllIssues_crlf in Ei; auto; [|repeat constructor].
  apply scanAllImprovements_crlf in Ed; auto; [|repeat constructor].
  subst issues direct. exists r. auto.
Qed.

Lemma technical_values_unread_on_crlf_text_witness :
  exists r,
    Technical.formatTechnicalSeoResults asciiLower asciiUpper
      (js "Critical issue: the page takes nine seconds to load" ++ [CR; LF])
    = Returns r /\
    Technical.criticalIssues r =
      firstn 3 (Technical.fallbackIssues
                  (js "Critical issue: the page takes nine seconds to load"
                   ++ [CR; LF])
                  (Technical.performanceScore r) (Technical.mobileScore r)
                  []) /\
    Technical.improvements r =
      firstn 5
        (Technical.uniqueImprovements asciiLower
           (Technical.fallbackImprovementsOf
              (js "Critical issue: the page takes nine seconds to load"
               ++ [CR; LF])
              (Technical.performanceScore r) (Technical.mobileScore r)
              (Technical.schemaScore r))).
Proof.
  apply (technical_values_unread_on_crlf_text asciiLower asciiUpper
           (js "Critical issue: the page takes nine seconds to load"
            ++ [CR; LF])).
  reflexivity.
Defined.

(* ================================================================== *)
(** * Numbers made of digits *)
(* ================================================================== *)

Lemma starGreedy_run : forall (res : Type) a s c (k : continuation res) x,
  starGreedy a s c k = Some x ->
  exists u s', s = u ++ s' /\ k s' c = Some x /\ forallb (matchAtom a) u = true.
Proof.
  intros res a. induction s as [|y s IH]; simpl; intros c k x H.
  - exists [], []. auto.
  - destruct (matchAtom a y) eqn:M.
    + apply orElse_inv in H as [H|[_ H]].
      * destruct (IH _ _ _ H) as (u & s' & -> & Hk & F).
        exists (y :: u), s'. simpl. rewrite M. auto.
      * exists [], (y :: s). auto.
    + exists [], (y :: s). auto.
Qed.

(** After a match, a group of digits holds digits, and at least one. *)
Lemma rmatch_groupDigits : forall (res : Type) r n s c (k : continuation res) x,
  groupDigits n r = true -> rmatch r s c k = Some x ->
  exists d t s' c',
    k s' c' = Some x /\ getCapture n c' = Some (d :: t) /\
    isDigit d = true /\ forallb isDigit t = true.
Proof.
  intros res.
  induction r as [a| |r1 IH1 r2 IH2|r1 IH1 r2 IH2|r1 IH1|a|a|a|m r1 IH1|];
    simpl; intros n s c k x T H; try discriminate.
  - (* Cat *)
    destruct (touches n r2) eqn:Ht.
    + destruct (rmatch_inv _ _ _ _ _ _ H) as (s1 & c1 & H1 & _).
      exact (IH2 _ _ _ _ _ T H1).
    + destruct (IH1 _ _ _ _ _ T H) as (d & t & s1 & c1 & H1 & G & D).
      destruct (rmatch_inv _ _ _ _ _ _ H1) as (s2 & c2 & H2 & [_ _ F]).
      exists d, t, s2, c2. rewrite (F _ Ht). auto.
  - (* Alt *)
    apply andb_true_iff in T as [T1 T2].
    apply orElse_inv in H as [H|[_ H]]; eauto.
  - (* Group *)
    destruct (m =? n)%nat eqn:E.
    + destruct r1 as [| | | | | |a| | |]; try discriminate.
      destruct a; try discriminate. cbn [rmatch] in H.
      destruct s as [|d s]; [discriminate|].
      destruct (matchAtom Digit d) eqn:D; [|discriminate].
      destruct (starGreedy_run _ _ _ _ _ _ H) as (u & s' & -> & Hk & F).
      change (d :: u ++ s') with ((d :: u) ++ s') in Hk.
      rewrite firstn_prefix in Hk.
      exists d, u, s', (setCapture m (d :: u) c). repeat split; auto.
      unfold setCapture. simpl. now rewrite E.
    + destruct (IH1 _ _ _ _ _ T H) as (d & t & s' & c' & Hk & G & D).
      exists d, t, s'. eexists. split; [exact Hk|]. split; auto.
      unfold setCapture. simpl. now rewrite E.
Qed.

Lemma String_match_groupDigits : forall s r m,
  String_match s r = Some m -> groupDigits 1 r = true ->
  exists d t, group m 1 = Some (d :: t) /\
              isDigit d = true /\ forallb isDigit t = true.
Proof.
  unfold String_match. intros s r m H T.
  destruct (execFrom_inv _ _ _ _ H) as (pre & s0 & s' & _ & _ & Hm & _).
  unfold matchHere in Hm.
  destruct (rmatch_groupDigits _ _ _ _ _ _ _ T Hm)
    as (d & t & s1 & c1 & E & G & D).
  inversion E; subst. exists d, t. auto.
Qed.

(** A number that the patterns with a group of digits give is a whole
    number that is not negative. *)
Lemma scanInt_whole : forall regexes rawOutput x,
  forallb (groupDigits 1) regexes = true ->
  scanPatterns (fun _ g => Some (parseInt g)) regexes rawOutput = Some x ->
  exists z, (0 <= z)%Z /\ x = ofZ z.
Proof.
  intros regexes raw x F H.
  destruct (scanPatterns_accepted _ _ _ _ _ H)
    as (r & m & g & I & M & G & _ & P).
  rewrite forallb_forall in F.
  destruct (String_match_groupDigits _ _ _ M (F _ I)) as (d & t & G' & D & T).
  rewrite G in G'. inversion G'; subst g. inversion P; subst x.
  destruct (parseInt_digits d t D T) as (z & Z0 & ->). eauto.
Qed.

Lemma orDefault_whole : forall regexes rawOutput default,
  forallb (groupDigits 1) regexes = true ->
  (exists z, (0 <= z)%Z /\ default = ofZ z) ->
  exists z, (0 <= z)%Z /\
            orDefault (scanPatterns (fun _ g => Some (parseInt g))
                         regexes rawOutput) default = ofZ z.
Proof.
  intros regexes raw default F D.
  destruct (scanPatterns _ regexes raw) as [x|] eqn:S; simpl; auto.
  eapply scanInt_whole; eauto.
Qed.

(** X17.  The performance and mobile scores of a technical audit and
    the readability score of a content analysis, which [parseInt] reads from
    a group of digits, are each the Number nearest to a whole number that is
    not negative (the defaults 65, 70 and 65 among them): the NaN that
    [parseInt] gives for a text without digits does not occur. *)
Theorem read_scores_are_whole : forall toLowerCase toUpperCase rawOutput,
  (exists r p m,
      Technical.formatTechnicalSeoResults toLowerCase toUpperCase rawOutput
      = Returns r /\
      (0 <= p)%Z /\ Technical.performanceScore r = ofZ p /\
      (0 <= m)%Z /\ Technical.mobileScore r = ofZ m) /\
  (exists r z,
      Content.formatContentResults toUpperCase rawOutput = Returns r /\
      (0 <= z)%Z /\ Content.readabilityScore r = ofZ z).
Proof.
  intros toLowerCase toUpperCase rawOutput. split.
  - destruct (formatTechnicalSeoResults_returns toLowerCase toUpperCase
                rawOutput) as (r & E & P & M & _).
    destruct (orDefault_whole Technical.performanceRegexes rawOutput 65%float
                eq_refl) as (p & P0 & Hp).
    { exists 65%Z. split; [lia|reflexivity]. }
    destruct (orDefault_whole Technical.mobileRegexes rawOutput 70%float
                eq_refl) as (m & M0 & Hm).
    { exists 70%Z. split; [lia|reflexivity]. }
    exists r, p, m. unfold Technical.scanInt in P, M.
    rewrite P, M. auto.
  - destruct (formatContentResults_returns toUpperCase rawOutput)
      as (r & E & R & _).
    destruct (orDefault_whole Content.readabilityRegexes rawOutput 65%float
                eq_refl) as (z & Z0 & Hz).
    { exists 65%Z. split; [lia|reflexivity]. }
    exists r, z. rewrite R. auto.
Qed.

(** X1.  Every keyword analysis comes back with a record: no method is
    called on [undefined].  The keyword is a text (never [undefined]) without
    a double quote or a line break in it, and the search volume and the
    relevance score are each the Number nearest to a whole number that is not
    negative: [parseInt] is only given texts that begin with a digit, so its
    NaN for a text without digits does not occur. *)
Theorem keyword_result_defined : forall rawOutput,
  exists r v z s,
    Keyword.formatKeywordResults rawOutput = Returns r /\
    Keyword.keyword r = Some v /\ quotable v = true /\
    (0 <= z)%Z /\ Keyword.searchVolume r = ofZ z /\
    (0 <= s)%Z /\ Keyword.relevanceScore r = ofZ s.
Proof.
  intros rawOutput.
  destruct (formatKeywordResults_returns rawOutput)
    as (r & v & z & E & K & Q & _ & Z0 & V & R & _).
  destruct (orDefault_whole Keyword.relevanceRegexes rawOutput 5%float
              eq_refl) as (s & S0 & Hs).
  { exists 5%Z. split; [lia|reflexivity]. }
  exists r, v, z, s. rewrite R. auto 10.
Qed.

(* ================================================================== *)
(** * The line of related keywords *)
(* ================================================================== *)

Lemma rmatch_chars : forall (res : Type) w u s c (k : continuation res),
  sameModuloCase u w ->
  rmatch (chars w) (u ++ s) c k = k s c.
Proof.
  intros res. induction w as [|a w IH]; intros [|b u] s c k S;
    try discriminate S; [reflexivity|].
  injection S as E S.
  assert (M : matchAtom (Lit a) b = true) by (simpl; now apply N.eqb_eq).
  destruct w as [|a' w].
  - destruct u; [|discriminate S]. cbn [chars rmatch app]. now rewrite M.
  - change (chars (a :: a' :: w)) with (Cat (Atom (Lit a)) (chars (a' :: w))).
    cbn [rmatch app]. rewrite M. now apply IH.
Qed.

Lemma starLazy_here : forall (res : Type) a s c (k : continuation res) x,
  k s c = Some x -> starLazy a s c k = Some x.
Proof. intros res a [|y s] c k x H; simpl; now rewrite H. Qed.

Lemma lineEnd_inside : forall y s c,
  matchAtom AnyChar y = true -> rmatch lineEnd (y :: s) c done = None.
Proof.
  intros y s c A. unfold lineEnd, done. cbn [rmatch matchAtom].
  destruct (canonicalize y =? canonicalize LF)%N eqn:E; [|reflexivity].
  apply N.eqb_eq, canonicalize_LF in E. subst y. discriminate A.
Qed.

(** The rest of a line: all of it, up to the line feed or the end of the
    text. *)
Lemma restOfLine_whole : forall line after c,
  forallb (matchAtom AnyChar) line = true ->
  match after with
  | [] => True
  | x :: _ => x = LF
  end ->
  exists res,
    rmatch restOfLine (line ++ after) c done = Some res /\
    getCapture 1 (snd res) = Some line.
Proof.
  intros line after c F A. rewrite restOfLine_unfold. unfold lazyLine.
  assert (K : exists res,
             rmatch lineEnd after
               (setCapture 1
                  (firstn (length (line ++ after) - length after)
                     (line ++ after)) c) done = Some res /\
             getCapture 1 (snd res) = Some line).
  { rewrite firstn_prefix. unfold lineEnd, done.
    destruct after as [|x after].
    - eexists. split; reflexivity.
    - subst x. eexists. split; reflexivity. }
  destruct K as (res & K & G). exists res. split; auto.
  apply starLazy_run; auto.
  intros p [|y q] -> Hq; [congruence|].
  rewrite forallb_app in F. apply andb_true_iff in F as [_ F].
  simpl in F. apply andb_true_iff in F as [Fy _].
  change ((y :: q) ++ after) with (y :: q ++ after).
  now apply lineEnd_inside.
Qed.

Lemma split_prefix : forall sep w s,
  forallb (fun ch => negb (sep ch)) w = true ->
  exists piece rest,
    split sep s = piece :: rest /\ split sep (w ++ s) = (w ++ piece) :: rest.
Proof.
  intros sep. induction w as [|a w IH]; intros s F.
  - destruct (split sep s) as [|piece rest] eqn:E.
    + now apply split_nonempty in E.
    + exists piece, rest. auto.
  - simpl in F. apply andb_true_iff in F as [Fa F].
    apply negb_true_iff in Fa.
    destruct (IH s F) as (piece & rest & E1 & E2).
    exists piece, rest. split; auto. simpl. now rewrite Fa, E2.
Qed.

Lemma trimStart_app : forall x y,
  trimStart (x ++ y) =
  if forallb isWhiteSpace x then trimStart y else trimStart x ++ y.
Proof.
  induction x as [|a x IH]; intros y; [reflexivity|].
  simpl. destruct (isWhiteSpace a); simpl; auto.
Qed.

(** Trimming the end leaves a front that ends with a character that is
    not white space. *)
Lemma trimEnd_app : forall a z b,
  isWhiteSpace z = false -> trimEnd ((a ++ [z]) ++ b) = (a ++ [z]) ++ trimEnd b.
Proof.
  intros a z b Z. unfold trimEnd. rewrite rev_app_distr, trimStart_app.
  assert (R : rev (a ++ [z]) = z :: rev a) by now rewrite rev_app_distr.
  destruct (forallb isWhiteSpace (rev b)) eqn:E.
  - assert (T : trimStart (rev b) = []).
    { clear -E. induction (rev b) as [|x l IH]; auto. simpl in *.
      apply andb_true_iff in E as [-> E]. auto. }
    rewrite T, R. simpl. rewrite Z. rewrite <- R, rev_involutive.
    now rewrite app_nil_r.
  - now rewrite rev_app_distr, rev_involutive.
Qed.

Lemma execFrom_skip : forall r pre s i,
  (forall p q, pre = p ++ q -> q <> [] -> matchHere r (q ++ s) = None) ->
  execFrom r (pre ++ s) i = execFrom r s (i + length pre).
Proof.
  intros r. induction pre as [|y pre IH]; intros s i N.
  - simpl. now rewrite Nat.add_0_r.
  - change ((y :: pre) ++ s) with (y :: pre ++ s). cbn [execFrom].
    pose proof (N [] (y :: pre) eq_refl ltac:(discriminate)) as E.
    change ((y :: pre) ++ s) with (y :: pre ++ s) in E. rewrite E.
    rewrite IH by (intros p q -> Hq; apply (N (y :: p) q); auto).
    simpl. f_equal. lia.
Qed.

Lemma execFrom_here : forall r s i s' c,
  matchHere r s = Some (s', c) ->
  execFrom r s i = Some (mkMatch i (firstn (length s - length s') s) c).
Proof.
  intros r s i s' c H. destruct s; cbn [execFrom]; now rewrite H.
Qed.

(** When the search finds nothing, the pattern matches at no place. *)
Lemma execFrom_none : forall r s i,
  execFrom r s i = None ->
  forall p q, s = p ++ q -> matchHere r q = None.
Proof.
  intros r. induction s as [|y s IH]; intros i H p q E.
  - destruct p; [|discriminate]. simpl in E. subst q.
    cbn [execFrom] in H. destruct (matchHere r []) as [[? ?]|]; congruence.
  - cbn [execFrom] in H.
    destruct (matchHere r (y :: s)) as [[? ?]|] eqn:M; [discriminate|].
    destruct p as [|z p].
    + simpl in E. now subst q.
    + injection E as _ E. eauto.
Qed.

(** A run of pattern characters looks at as many code units as it has
    characters. *)
Lemma rmatch_chars_none : forall (res : Type) w u s1 s2 c1 c2
                                 (k1 k2 : continuation res),
  length w <= length u ->
  (forall s c, k1 s c <> None) ->
  rmatch (chars w) (u ++ s1) c1 k1 = None ->
  rmatch (chars w) (u ++ s2) c2 k2 = None.
Proof.
  intros res. induction w as [|a w IH]; intros u s1 s2 c1 c2 k1 k2 L K H.
  - exfalso. now apply (K (u ++ s1) c1).
  - destruct u as [|b u]; [simpl in L; lia|]. simpl in L.
    destruct w as [|a' w].
    + cbn [chars rmatch app] in *.
      destruct (matchAtom (Lit a) b); [|reflexivity].
      exfalso. now apply (K (u ++ s1) c1).
    + change (chars (a :: a' :: w))
        with (Cat (Atom (Lit a)) (chars (a' :: w))) in *.
      cbn [rmatch app] in *.
      destruct (matchAtom (Lit a) b); [|reflexivity].
      eapply IH; [|exact K|exact H]. simpl in *. lia.
Qed.

(** The match of a pattern that begins with a label, in a text in which
    the label does not begin before the place where it is written: [front]
    is the label as it is written, without its last code unit. *)
Lemma labelled_match : forall label rest before front s s' c,
  length label = S (length front) ->
  test (chars label) (before ++ front) = false ->
  matchHere (Cat (chars label) rest) (front ++ s) = Some (s', c) ->
  exists m,
    String_match (before ++ front ++ s) (Cat (chars label) rest) = Some m /\
    groups m = c.
Proof.
  intros label rest before front s s' c L B H. unfold String_match.
  rewrite execFrom_skip.
  - rewrite (execFrom_here _ _ _ _ _ H). eexists. split; reflexivity.
  - intros p [|y q] -> Hq; [congruence|].
    apply test_false in B. unfold String_match in B.
    pose proof (execFrom_none _ _ _ B p ((y :: q) ++ front)
                  ltac:(now rewrite app_assoc)) as M.
    unfold matchHere in *. cbn [rmatch].
    rewrite app_assoc.
    eapply (rmatch_chars_none _ _ _ [] s); [| |rewrite app_nil_r; exact M].
    + rewrite length_app. simpl. lia.
    + discriminate.
Qed.

(** The first pattern of the related keywords, on a line that begins with
    Related keywords: the lazy gap takes nothing, and the group is all that
    follows the word Related. *)
Lemma related_line_capture : forall before items after,
  test (lit "related ") (before ++ js "Related") = false ->
  forallb (fun ch => negb (isLineTerminator ch)) items = true ->
  match after with
  | [] => True
  | x :: _ => x = LF
  end ->
  exists m,
    String_match (before ++ js "Related keywords: " ++ items ++ after)
      (nth 0 Keyword.relatedRegexes Eps) = Some m /\
    group m 1 = Some (js "keywords: " ++ items).
Proof.
  intros before items after B I A.
  set (r := nth 0 Keyword.relatedRegexes Eps).
  assert (H : exists res,
             matchHere r (js "Related keywords: " ++ items ++ after) = Some res
             /\ getCapture 1 (snd res) = Some (js "keywords: " ++ items)).
  { unfold matchHere. fold done.
    change (js "Related keywords: " ++ items ++ after)
      with (js "Related " ++ 107%N :: js "eywords: " ++ items ++ after).
    change r with (Cat (chars (js "related "))
                     (Cat gap (Cat colon (Cat ws restOfLine)))).
    cbn [rmatch]. rewrite rmatch_chars by reflexivity.
    unfold gap. cbn [rmatch].
    assert (F : forallb (matchAtom AnyChar) (js "keywords: " ++ items) = true).
    { rewrite forallb_app. apply andb_true_iff. split; [reflexivity|exact I]. }
    destruct (restOfLine_whole (js "keywords: " ++ items) after [] F A)
      as (res & R & G).
    exists res. split; auto. apply starLazy_here.
    unfold colon, ws. cbn [rmatch lit chars js]. cbn [matchAtom].
    change (canonicalize 107 =? canonicalize 58)%N with false.
    cbn [orElse starGreedy matchAtom].
    change (isWhiteSpace 107) with false. cbv iota.
    rewrite <- R. f_equal. now rewrite <- app_assoc. }
  destruct H as ([s' c] & H & G).
  destruct (labelled_match (js "related ")
              (Cat gap (Cat colon (Cat ws restOfLine))) before (js "Related")
              (js " keywords: " ++ items ++ after) s' c eq_refl B H)
    as (m & M & <-).
  exists m. split; [exact M|exact G].
Qed.

Lemma keywordsOf_label : forall items,
  exists tail others,
    Keyword.keywordsOf (js "keywords: " ++ items)
    = Some ((js "keywords:" ++ tail) :: others).
Proof.
  intros items. unfold Keyword.keywordsOf.
  destruct (split_prefix listSeparator (js "keywords: ") items eq_refl)
    as (piece & rest & _ & ->).
  cbn [map].
  assert (T : trim (js "keywords: " ++ piece)
              = js "keywords:" ++ trimEnd (32%N :: piece)).
  { unfold trim.
    change (js "keywords: " ++ piece)
      with (107%N :: js "eywords: " ++ piece).
    rewrite trimStart_id by reflexivity.
    apply (trimEnd_app (js "keywords") 58%N (32%N :: piece)). reflexivity. }
  rewrite T. cbn [filter length app js Nat.ltb Nat.leb].
  eexists. eexists. reflexivity.
Qed.

(** X9.  A line that begins with Related keywords, a colon and a list
    gives a first related keyword that begins with the word keywords and the
    colon: the first pattern of the list matches the word Related alone, its
    lazy gap takes nothing, and its group is all that follows; the pattern
    written for this label is not reached.  (The word related followed by a
    space does not begin earlier in the text; the list holds no line break
    and is followed by a line feed or by the end of the text.) *)
Theorem related_keywords_keep_the_label : forall before items after,
  test (lit "related ") (before ++ js "Related") = false ->
  forallb (fun ch => negb (isLineTerminator ch)) items = true ->
  match after with
  | [] => True
  | x :: _ => x = LF
  end ->
  exists r tail others,
    Keyword.formatKeywordResults
      (before ++ js "Related keywords: " ++ items ++ after) = Returns r /\
    Keyword.relatedKeywords r = (js "keywords:" ++ tail) :: others.
Proof.
  intros before items after B I A.
  destruct (formatKeywordResults_returns
              (before ++ js "Related keywords: " ++ items ++ after))
    as (r & v & z & E & _ & _ & _ & _ & _ & _ & _ & _ & _ & _ & K & _).
  destruct (related_line_capture before items after B I A) as (m & M & G).
  destruct (keywordsOf_label items) as (tail & others & L).
  exists r, tail, others. split; auto. rewrite K.
  change Keyword.relatedRegexes
    with (nth 0 Keyword.relatedRegexes Eps :: skipn 1 Keyword.relatedRegexes).
  rewrite scanPatterns_cons. unfold evidence. rewrite M, G.
  change (truthy (Some (js "keywords: " ++ items)))
    with (Some (js "keywords: " ++ items)).
  cbv beta iota. now rewrite L.
Qed.

Lemma related_keywords_keep_the_label_witness :
  exists r tail others,
    Keyword.formatKeywordResults
      ((js "Keyword report for runners" ++ LF :: js "- ")
       ++ js "Related keywords: " ++ js "trail shoes, sneakers"
       ++ LF :: js "Volume: 900") = Returns r /\
    Keyword.relatedKeywords r = (js "keywords:" ++ tail) :: others.
Proof.
  apply (related_keywords_keep_the_label
           (js "Keyword report for runners" ++ LF :: js "- ")
           (js "trail shoes, sneakers") (LF :: js "Volume: 900"));
    reflexivity.
Defined.

(* ================================================================== *)
(** * The case of the text that is classified *)
(* ================================================================== *)

(** X23.  The labels that the chains of tests give to a text
    (categories, priorities, efforts, impacts, trends, levels) do not depend
    on the case of its ASCII letters. *)
Theorem classification_ignores_case : forall s t,
  sameModuloCase s t ->
  Technical.classifyCategory s = Technical.classifyCategory t /\
  Technical.classifyPriority s = Technical.classifyPriority t /\
  Technical.classifyEffort s = Technical.classifyEffort t /\
  Technical.classifyIssueCategory s = Technical.classifyIssueCategory t /\
  Technical.classifyImpact s = Technical.classifyImpact t /\
  Content.classifyCategory s = Content.classifyCategory t /\
  Content.classifyPriority s = Content.classifyPriority t /\
  Keyword.classifyTrend s = Keyword.classifyTrend t /\
  Keyword.classifyCompetition s = Keyword.classifyCompetition t /\
  Keyword.classifyIntent s = Keyword.classifyIntent t.
Proof.
  intros s t S.
  unfold Technical.classifyCategory, Technical.classifyPriority,
    Technical.classifyEffort, Technical.classifyIssueCategory,
    Technical.classifyImpact, Content.classifyCategory,
    Content.classifyPriority, Keyword.classifyTrend,
    Keyword.classifyCompetition, Keyword.classifyIntent.
  rewrite !(test_case _ s t S). repeat split.
Qed.

Lemma classification_ignores_case_witness :
  Technical.classifyCategory (js "URGENT: Fix The MOBILE Viewport")
  = Technical.classifyCategory (js "urgent: fix the mobile viewport") /\
  Technical.classifyPriority (js "URGENT: Fix The MOBILE Viewport")
  = Technical.classifyPriority (js "urgent: fix the mobile viewport") /\
  Technical.classifyEffort (js "URGENT: Fix The MOBILE Viewport")
  = Technical.classifyEffort (js "urgent: fix the mobile viewport") /\
  Technical.classifyIssueCategory (js "URGENT: Fix The MOBILE Viewport")
  = Technical.classifyIssueCategory (js "urgent: fix the mobile viewport") /\
  Technical.classifyImpact (js "URGENT: Fix The MOBILE Viewport")
  = Technical.classifyImpact (js "urgent: fix the mobile viewport") /\
  Content.classifyCategory (js "URGENT: Fix The MOBILE Viewport")
  = Content.classifyCategory (js "urgent: fix the mobile viewport") /\
  Content.classifyPriority (js "URGENT: Fix The MOBILE Viewport")
  = Content.classifyPriority (js "urgent: fix the mobile viewport") /\
  Keyword.classifyTrend (js "URGENT: Fix The MOBILE Viewport")
  = Keyword.classifyTrend (js "urgent: fix the mobile viewport") /\
  Keyword.classifyCompetition (js "URGENT: Fix The MOBILE Viewport")
  = Keyword.classifyCompetition (js "urgent: fix the mobile viewport") /\
  Keyword.classifyIntent (js "URGENT: Fix The MOBILE Viewport")
  = Keyword.classifyIntent (js "urgent: fix the mobile viewport").
Proof.
  apply (classification_ignores_case (js "URGENT: Fix The MOBILE Viewport")
           (js "urgent: fix the mobile viewport")).
  reflexivity.
Defined.

(* ================================================================== *)
(** * The sections of the content view *)
(* ================================================================== *)

Lemma truthy_nonempty : forall l : jsstring,
  l <> [] ->
  match truthy (Some l) with
  | Some _ => true
  | None => false
  end = true.
Proof. intros [|x l] N; [congruence|reflexivity]. Qed.

(** X24.  The view of a content analysis always shows its three optional
    sections (missing subtopics, improved title, improved meta description)
    for a record that [formatContentResults] returned: the conditions that
    guard them always hold. *)
Theorem content_sections_always_shown : forall toUpperCase rawOutput,
  exists r,
    Content.formatContentResults toUpperCase rawOutput = Returns r /\
    Ui.showsMissingSubtopics r = true /\
    Ui.showsImprovedTitle r = true /\
    Ui.showsImprovedMetaDescription r = true.
Proof.
  intros toUpperCase rawOutput.
  destruct (formatContentResults_lists toUpperCase rawOutput)
    as (r & direct & h1 & density & E & _ & M & _ & T & D).
  exists r. split; auto.
  unfold Ui.showsMissingSubtopics, Ui.showsImprovedTitle,
    Ui.showsImprovedMetaDescription.
  rewrite M, T, D. split; [|split].
  - destruct (missingSubtopics_entries rawOutput) as [N _].
    revert N. cbv zeta.
    generalize (orDefault
                  (scanPatterns (fun _ g => Content.subtopicsOf g)
                     Content.missingSubtopicsRegexes rawOutput)
                  [js "Topic research needed"]).
    intros [|x l] N; [congruence|reflexivity].
  - apply truthy_nonempty.
    destruct (scanPatterns _ Content.titleRegexes rawOutput) as [t|] eqn:S;
      simpl.
    + eapply scan_longerThan_nonempty; [apply titleRegexes_labelled|exact S].
    + apply defaultTitle_nonempty.
  - apply truthy_nonempty.
    destruct (scanPatterns _ Content.metaRegexes rawOutput) as [t|] eqn:S;
      simpl.
    + eapply scan_longerThan_nonempty; [apply metaRegexes_labelled|exact S].
    + apply defaultMetaDescription_nonempty.
Qed.


(* ================================================================== *)
(** * A score that is written after its label *)
(* ================================================================== *)

Lemma starGreedy_all : forall (res : Type) a u s c (k : continuation res) x,
  forallb (matchAtom a) u = true ->
  match s with
  | [] => True
  | y :: _ => matchAtom a y = false
  end ->
  k s c = Some x ->
  starGreedy a (u ++ s) c k = Some x.
Proof.
  intros res a. induction u as [|y u IH]; intros s c k x F E K.
  - destruct s as [|z s]; simpl; [exact K|]. now rewrite E.
  - simpl in F. apply andb_true_iff in F as [Fy F].
    simpl. rewrite Fy. now rewrite (IH _ _ _ _ F E K).
Qed.

(** A group of digits takes all the digits that are there. *)
Lemma digits1_all : forall (res : Type) d t s c (k : continuation res) x,
  isDigit d = true -> forallb isDigit t = true ->
  match s with
  | [] => True
  | y :: _ => isDigit y = false
  end ->
  k s (setCapture 1 (d :: t) c) = Some x ->
  rmatch digits1 ((d :: t) ++ s) c k = Some x.
Proof.
  intros res d t s c k x D T E K. unfold digits1.
  cbn [rmatch app matchAtom]. rewrite D.
  apply (starGreedy_all _ Digit); auto.
  change (d :: t ++ s) with ((d :: t) ++ s). now rewrite firstn_prefix.
Qed.

(** A label, a colon and a space, then what follows. *)
Lemma label_colon_space : forall (res : Type) label written rest s c
                                 (k : continuation res) x,
  sameModuloCase written label ->
  match s with
  | [] => True
  | y :: _ => isWhiteSpace y = false
  end ->
  rmatch rest s c k = Some x ->
  rmatch (Cat (chars label) (Cat colon (Cat ws rest)))
    (written ++ js ": " ++ s) c k = Some x.
Proof.
  intros res label written rest s c k x S E K.
  cbn [rmatch]. rewrite rmatch_chars by exact S.
  unfold colon, ws. cbn [rmatch].
  change (lit ":") with (Atom (Lit 58%N)).
  change (js ": " ++ s) with (58%N :: [32%N] ++ s).
  cbn [rmatch matchAtom].
  change (canonicalize 58 =? canonicalize 58)%N with true. cbv iota.
  rewrite (starGreedy_all _ Space [32%N] s c _ x); auto.
Qed.

(** X25.  The readability score is read back from a line as the readability
    tool writes it (Flesch-Kincaid score, a colon, a space, digits, then
    something that is not a digit), when the label does not begin earlier in
    the text: the score is what [parseInt] makes of the digits. *)
Theorem readability_score_read_back :
  forall toUpperCase before d t after,
    test (lit "Flesch-Kincaid score") (before ++ js "Flesch-Kincaid scor")
    = false ->
    isDigit d = true -> forallb isDigit t = true ->
    match after with
    | [] => True
    | y :: _ => isDigit y = false
    end ->
    exists r,
      Content.formatContentResults toUpperCase
        (before ++ js "Flesch-Kincaid score: " ++ (d :: t) ++ after)
      = Returns r /\
      Content.readabilityScore r = parseInt (d :: t).
Proof.
  intros toUpperCase before d t after B D T A.
  destruct (formatContentResults_returns toUpperCase
              (before ++ js "Flesch-Kincaid score: " ++ (d :: t) ++ after))
    as (r & E & R & _).
  exists r. split; auto. rewrite R. clear E R.
  change Content.readabilityRegexes
    with (nth 0 Content.readabilityRegexes Eps
          :: skipn 1 Content.readabilityRegexes).
  rewrite scanPatterns_cons. unfold evidence.
  destruct (labelled_match (js "Flesch-Kincaid score")
              (Cat colon (Cat ws digits1)) before (js "Flesch-Kincaid scor")
              (101%N :: js ": " ++ (d :: t) ++ after)
              after [(1, d :: t)] eq_refl B) as (m & M & G).
  { unfold matchHere.
    change (js "Flesch-Kincaid scor" ++ 101%N :: js ": " ++ (d :: t) ++ after)
      with (js "Flesch-Kincaid score" ++ js ": " ++ (d :: t) ++ after).
    apply label_colon_space; [reflexivity| |].
    - simpl. apply digit_cases in D. revert D. generalize d.
      apply Forall_forall. repeat constructor.
    - apply digits1_all; auto. }
  change (nth 0 Content.readabilityRegexes Eps)
    with (Cat (chars (js "Flesch-Kincaid score")) (Cat colon (Cat ws digits1))).
  change (js "Flesch-Kincaid score: " ++ (d :: t) ++ after)
    with (js "Flesch-Kincaid scor" ++ 101%N :: js ": " ++ (d :: t) ++ after).
  rewrite M. unfold group. rewrite G. reflexivity.
Qed.

Lemma readability_score_read_back_witness :
  exists r,
    Content.formatContentResults asciiUpper
      ((js "Readability analysis:" ++ LF :: js "- Sentence count: 9"
        ++ LF :: js "- ")
       ++ js "Flesch-Kincaid score: " ++ js "72" ++ js " (Easy)")
    = Returns r /\
    Content.readabilityScore r = parseInt (js "72").
Proof.
  apply (readability_score_read_back asciiUpper
           (js "Readability analysis:" ++ LF :: js "- Sentence count: 9"
            ++ LF :: js "- ") 55%N (js "2")
           (js " (Easy)")); reflexivity.
Defined.

(** X26.  The performance score is read back from a line as the
    performance tool writes it (Performance score, a colon, a space, digits,
    then /100), when the label does not begin earlier in the text: the score
    is what [parseInt] makes of the digits. *)
Theorem performance_score_read_back :
  forall toLowerCase toUpperCase before d t after,
    test (lit "Performance score") (before ++ js "Performance scor") = false ->
    isDigit d = true -> forallb isDigit t = true ->
    exists r,
      Technical.formatTechnicalSeoResults toLowerCase toUpperCase
        (before ++ js "Performance score: " ++ (d :: t) ++ js "/100" ++ after)
      = Returns r /\
      Technical.performanceScore r = parseInt (d :: t).
Proof.
  intros toLowerCase toUpperCase before d t after B D T.
  destruct (formatTechnicalSeoResults_returns toLowerCase toUpperCase
              (before ++ js "Performance score: " ++ (d :: t) ++ js "/100"
               ++ after))
    as (r & E & R & _).
  exists r. split; auto. rewrite R. clear E R. unfold Technical.scanInt.
  change Technical.performanceRegexes
    with (nth 0 Technical.performanceRegexes Eps
          :: skipn 1 Technical.performanceRegexes).
  rewrite scanPatterns_cons. unfold evidence.
  destruct (labelled_match (js "Performance score")
              (Cat colon (Cat ws (Cat digits1 (chars (js "/100"))))) before
              (js "Performance scor")
              (101%N :: js ": " ++ (d :: t) ++ js "/100" ++ after)
              after [(1, d :: t)] eq_refl B) as (m & M & G).
  { unfold matchHere.
    change (js "Performance scor" ++ 101%N :: js ": " ++ (d :: t)
            ++ js "/100" ++ after)
      with (js "Performance score" ++ js ": " ++ (d :: t) ++ js "/100"
            ++ after).
    apply label_colon_space; [reflexivity| |].
    - simpl. apply digit_cases in D. revert D. generalize d.
      apply Forall_forall. repeat constructor.
    - cbn [rmatch]. apply digits1_all; [exact D|exact T|reflexivity|].
      now rewrite rmatch_chars by reflexivity. }
  change (nth 0 Technical.performanceRegexes Eps)
    with (Cat (chars (js "Performance score"))
            (Cat colon (Cat ws (Cat digits1 (chars (js "/100")))))).
  change (js "Performance score: " ++ (d :: t) ++ js "/100" ++ after)
    with (js "Performance scor" ++ 101%N :: js ": " ++ (d :: t) ++ js "/100"
          ++ after).
  rewrite M. unfold group. rewrite G. reflexivity.
Qed.

Lemma performance_score_read_back_witness :
  exists r,
    Technical.formatTechnicalSeoResults asciiLower asciiUpper
      ((js "Performance audit for the page:" ++ LF :: js "- ")
       ++ js "Performance score: " ++ js "87" ++ js "/100"
       ++ [LF] ++ js "- Load time: 1.20s")
    = Returns r /\
    Technical.performanceScore r = parseInt (js "87").
Proof.
  apply (performance_score_read_back asciiLower asciiUpper
           (js "Performance audit for the page:" ++ LF :: js "- ")
           56%N (js "7") ([LF] ++ js "- Load time: 1.20s")); reflexivity.
Defined.

(* ================================================================== *)
(** * The formatters as functions *)
(* ================================================================== *)

Lemma noneMatches_cons : forall regex regexes rawOutput,
  noneMatches (regex :: regexes) rawOutput ->
  String_match rawOutput regex = None /\ noneMatches regexes rawOutput.
Proof.
  intros regex regexes rawOutput H. split.
  - apply test_false, H. now left.
  - intros r Hr. apply H. now right.
Qed.

(** The loops over the matches find nothing to add when no pattern
    matches. *)
Lemma scanAllIssues_none : forall toUpperCase regexes rawOutput fuel acc,
  noneMatches regexes rawOutput ->
  Technical.scanAllIssues toUpperCase (S fuel) regexes rawOutput acc
  = Returns acc.
Proof.
  intros toUpperCase regexes rawOutput fuel acc.
  induction regexes as [|r rs IH]; intros H; [reflexivity|].
  apply noneMatches_cons in H as [M H].
  cbn [Technical.scanAllIssues Technical.scanIssues substring_from skipn].
  rewrite M. cbn [bind]. rewrite (IH H). now destruct (5 <=? length acc)%nat.
Qed.

Lemma scanAllImprovements_none : forall regexes rawOutput fuel acc,
  noneMatches regexes rawOutput ->
  Technical.scanAllImprovements (S fuel) regexes rawOutput acc = Returns acc.
Proof.
  intros regexes rawOutput fuel acc.
  induction regexes as [|r rs IH]; intros H; [reflexivity|].
  apply noneMatches_cons in H as [M H].
  cbn [Technical.scanAllImprovements Technical.scanImprovements
       substring_from skipn].
  rewrite M. cbn [bind]. rewrite (IH H). now destruct (7 <=? length acc)%nat.
Qed.

Lemma scanAllRecommendations_none : forall regexes rawOutput fuel acc,
  noneMatches regexes rawOutput ->
  Content.scanAllRecommendations (S fuel) regexes rawOutput acc = Returns acc.
Proof.
  intros regexes rawOutput fuel acc.
  induction regexes as [|r rs IH]; intros H; [reflexivity|].
  apply noneMatches_cons in H as [M H].
  cbn [Content.scanAllRecommendations Content.scanRecommendations
       substring_from skipn].
  rewrite M. cbn [bind]. exact (IH H).
Qed.

(** Without a stated schema score the score is made from the schema
    phrases and cut to [0,100]. *)
Lemma computeSchemaScore_made : forall rawOutput,
  noneMatches Technical.schemaRegexes rawOutput ->
  ((0 <=? Technical.computeSchemaScore rawOutput)
   && (Technical.computeSchemaScore rawOutput <=? 100))%float = true.
Proof.
  intros rawOutput H. unfold Technical.computeSchemaScore, Technical.scanInt.
  rewrite scanPatterns_none by exact H. cbn [orDefault].
  change (-1 =? -1)%float with true. cbv iota.
  repeat match goal with
         | |- context [includes rawOutput ?p] =>
             destruct (includes rawOutput p)
         end; reflexivity.
Qed.

(** Every field of the two records, as the formatters fill it. *)
Lemma formatTechnicalSeoResults_fields :
  forall toLowerCase toUpperCase rawOutput,
  exists r issues direct,
    Technical.formatTechnicalSeoResults toLowerCase toUpperCase rawOutput
    = Returns r /\
    Technical.scanAllIssues toUpperCase (S (length rawOutput))
      Technical.issueRegexes rawOutput [] = Returns issues /\
    Technical.scanAllImprovements (S (length rawOutput))
      Technical.improvementRegexes rawOutput [] = Returns direct /\
    Technical.performanceScore r =
      orDefault (Technical.scanInt Technical.performanceRegexes rawOutput)
                65%float /\
    Technical.mobileScore r =
      orDefault (Technical.scanInt Technical.mobileRegexes rawOutput)
                70%float /\
    Technical.schemaScore r = Technical.computeSchemaScore rawOutput /\
    Technical.criticalIssues r =
      firstn 3 (Technical.fallbackIssues rawOutput
                  (Technical.performanceScore r) (Technical.mobileScore r)
                  issues) /\
    Technical.improvements r =
      firstn 5
        (Technical.uniqueImprovements toLowerCase
           (if (4 <=? length direct)%nat then direct
            else direct ++
                 Technical.fallbackImprovementsOf rawOutput
                   (Technical.performanceScore r) (Technical.mobileScore r)
                   (Technical.schemaScore r))).
Proof.
  intros toLowerCase toUpperCase rawOutput.
  unfold Technical.formatTechnicalSeoResults.
  destruct (scanAllIssues_returns toUpperCase Technical.issueRegexes
              eq_refl rawOutput []) as (issues & Ei).
  destruct (scanAllImprovements_returns Technical.improvementRegexes
              eq_refl rawOutput []) as (direct & Ed).
  rewrite Ei. cbn [bind]. rewrite Ed. cbn [bind].
  eexists. exists issues, direct. split; [reflexivity|].
  repeat split; auto.
Qed.

Lemma formatContentResults_fields : forall toUpperCase rawOutput,
  exists r direct,
    Content.formatContentResults toUpperCase rawOutput = Returns r /\
    Content.scanAllRecommendations (S (length rawOutput))
      Content.recommendationRegexes rawOutput [] = Returns direct /\
    Content.readabilityScore r =
      orDefault (scanPatterns (fun _ g => Some (parseInt g))
                   Content.readabilityRegexes rawOutput) 65%float /\
    Content.keywordScore r =
      Content.computeKeywordScore
        (orDefault (scanPatterns (fun _ g => Some (parseFloat g))
                      Content.keywordDensityRegexes rawOutput) 1.5%float)
        (Content.anyTest Content.h1InclusionRegexes rawOutput)
        (Content.anyTest Content.introInclusionRegexes rawOutput) /\
    Content.semanticScore r =
      Math_round
        (orDefault (scanPatterns
                      (fun regex g => Some (Content.topicScoreOf regex g))
                      Content.semanticScoreRegexes rawOutput) 7 * 10)%float /\
    Content.missingSubtopics r =
      orDefault (scanPatterns (fun _ g => Content.subtopicsOf g)
                   Content.missingSubtopicsRegexes rawOutput)
                [js "Topic research needed"] /\
    Content.recommendations r =
      firstn 5
        (if (3 <=? length direct)%nat then direct
         else direct ++
              Content.fallbackRecommendationsOf rawOutput
                (Content.anyTest Content.h1InclusionRegexes rawOutput)
                (orDefault (scanPatterns (fun _ g => Some (parseFloat g))
                              Content.keywordDensityRegexes rawOutput)
                           1.5%float)
                (Content.missingSubtopics r) (Content.semanticScore r)) /\
    Content.improvedTitle r =
      Some (orDefault (scanPatterns (fun _ g => Content.longerThan 10 g)
                         Content.titleRegexes rawOutput)
                      (Content.defaultTitle toUpperCase
                         (Content.extractKeyword rawOutput))) /\
    Content.improvedMetaDescription r =
      Some (orDefault (scanPatterns (fun _ g => Content.longerThan 20 g)
                         Content.metaRegexes rawOutput)
                      (Content.defaultMetaDescription
                         (Content.extractKeyword rawOutput))).
Proof.
  intros toUpperCase rawOutput. unfold Content.formatContentResults.
  destruct (scanAllRecommendations_returns Content.recommendationRegexes
              eq_refl rawOutput []) as (direct & Ed).
  rewrite Ed. cbn [bind]. eexists. exists direct.
  split; [reflexivity|]. repeat split; auto.
Qed.

(** C2.  Both formatters are total: for every text they return a record,
    they do not throw and their loops end; every field is there, the two
    optional ones too.  A list of patterns of which none matches leaves its
    field to the default path: the performance, mobile and readability
    scores are 65, 70 and 65, the schema score is the one made from the
    schema phrases (within [0,100]), the keyword score is made from the
    density 1.5, the semantic score is 70, the missing subtopics are the
    stock entry, the title and the description are the generated ones, and
    the lists of issues, improvements and recommendations hold stock items
    only.  The claim fails for a captured group that is not a number: in
    "Topic coverage score: ./10" the first semantic pattern captures ".",
    which [parseFloat] turns into [NaN]; the semantic score is then [NaN],
    not the default 70, and the content score is [NaN] too. *)
Theorem formatters_return_unparsable_capture_kept :
  (forall (toLowerCase toUpperCase : jsstring -> jsstring) rawOutput,
      (exists r,
          Technical.formatTechnicalSeoResults toLowerCase toUpperCase rawOutput
          = Returns r /\
          (noneMatches Technical.performanceRegexes rawOutput ->
           Technical.performanceScore r = 65%float) /\
          (noneMatches Technical.mobileRegexes rawOutput ->
           Technical.mobileScore r = 70%float) /\
          (noneMatches Technical.schemaRegexes rawOutput ->
           ((0 <=? Technical.schemaScore r)
            && (Technical.schemaScore r <=? 100))%float = true) /\
          (noneMatches Technical.issueRegexes rawOutput ->
           Technical.criticalIssues r =
           firstn 3 (Technical.fallbackIssues rawOutput
                       (Technical.performanceScore r) (Technical.mobileScore r)
                       [])) /\
          (noneMatches Technical.improvementRegexes rawOutput ->
           Technical.improvements r =
           firstn 5
             (Technical.uniqueImprovements toLowerCase
                (Technical.fallbackImprovementsOf rawOutput
                   (Technical.performanceScore r) (Technical.mobileScore r)
                   (Technical.schemaScore r))))) /\
      (exists r title description,
          Content.formatContentResults toUpperCase rawOutput = Returns r /\
          Content.improvedTitle r = Some title /\
          Content.improvedMetaDescription r = Some description /\
          (noneMatches Content.readabilityRegexes rawOutput ->
           Content.readabilityScore r = 65%float) /\
          (noneMatches Content.keywordDensityRegexes rawOutput ->
           Content.keywordScore r =
           Content.computeKeywordScore 1.5
             (Content.anyTest Content.h1InclusionRegexes rawOutput)
             (Content.anyTest Content.introInclusionRegexes rawOutput)) /\
          (noneMatches Content.semanticScoreRegexes rawOutput ->
           Content.semanticScore r = 70%float) /\
          (noneMatches Content.missingSubtopicsRegexes rawOutput ->
           Content.missingSubtopics r = [js "Topic research needed"]) /\
          (noneMatches Content.recommendationRegexes rawOutput ->
           Content.recommendations r =
           firstn 5
             (Content.fallbackRecommendationsOf rawOutput
                (Content.anyTest Content.h1InclusionRegexes rawOutput)
                (orDefault (scanPatterns (fun _ g => Some (parseFloat g))
                              Content.keywordDensityRegexes rawOutput)
                           1.5%float)
                (Content.missingSubtopics r) (Content.semanticScore r))) /\
          (noneMatches Content.titleRegexes rawOutput ->
           title = Content.defaultTitle toUpperCase
                     (Content.extractKeyword rawOutput)) /\
          (noneMatches Content.metaRegexes rawOutput ->
           description = Content.defaultMetaDescription
                           (Content.extractKeyword rawOutput)))) /\
  (let rawOutput := js "Topic coverage score: ./10" in
   (exists m,
       String_match rawOutput (nth 0 Content.semanticScoreRegexes Eps) = Some m /\
       group m 1 = Some (js ".")) /\
   is_nan (parseFloat (js ".")) = true /\
   exists r,
     Content.formatContentResults asciiUpper rawOutput = Returns r /\
     is_nan (Content.semanticScore r) = true /\
     is_nan (Content.contentScore r) = true /\
     Content.semanticScore r <> 70%float).
Proof.
  split.
  - intros toLowerCase toUpperCase rawOutput. split.
    + destruct (formatTechnicalSeoResults_fields toLowerCase toUpperCase
                  rawOutput)
        as (r & issues & direct & E & Ei & Ed & Hp & Hm & Hs & Hi & Hd).
      exists r. split; [exact E|].
      split.
      { intros N. rewrite Hp. unfold Technical.scanInt.
        now rewrite scanPatterns_none. }
      split.
      { intros N. rewrite Hm. unfold Technical.scanInt.
        now rewrite scanPatterns_none. }
      split.
      { intros N. rewrite Hs. now apply computeSchemaScore_made. }
      split.
      { intros N. rewrite scanAllIssues_none in Ei by exact N.
        inversion Ei; subst issues. exact Hi. }
      intros N. rewrite scanAllImprovements_none in Ed by exact N.
      inversion Ed; subst direct. exact Hd.
    + destruct (formatContentResults_fields toUpperCase rawOutput)
        as (r & direct & E & Ed & Hr & Hk & Hs & Hsub & Hrec & Ht & Hmeta).
      exists r. eexists. eexists. split; [exact E|].
      split; [exact Ht|]. split; [exact Hmeta|].
      split.
      { intros N. rewrite Hr. now rewrite scanPatterns_none. }
      split.
      { intros N. rewrite Hk. now rewrite scanPatterns_none. }
      split.
      { intros N. rewrite Hs. rewrite scanPatterns_none by exact N.
        reflexivity. }
      split.
      { intros N. rewrite Hsub. now rewrite scanPatterns_none. }
      split.
      { intros N. rewrite scanAllRecommendations_none in Ed by exact N.
        inversion Ed; subst direct. exact Hrec. }
      split; intros N; now rewrite scanPatterns_none.
  - intros rawOutput. split; [|split].
    + vm_compute. eexists. split; reflexivity.
    + reflexivity.
    + eexists. split; [vm_compute; reflexivity|]. simpl.
      split; [reflexivity|]. split; [reflexivity|].
      intros E. apply (f_equal is_nan) in E. discriminate E.
Qed.

(** A text in which no pattern finds anything (here a sentence with a
    letter outside ASCII): every field is on its default path. *)
Lemma formatters_return_unparsable_capture_kept_witness :
  let rawOutput := js "Die Seite wurde gepr" ++ 252%N :: js "ft" in
  (exists r,
      Technical.formatTechnicalSeoResults asciiLower asciiUpper rawOutput
      = Returns r /\
      Technical.performanceScore r = 65%float /\
      Technical.mobileScore r = 70%float /\
      ((0 <=? Technical.schemaScore r)
       && (Technical.schemaScore r <=? 100))%float = true) /\
  (exists r,
      Content.formatContentResults asciiUpper rawOutput = Returns r /\
      Content.readabilityScore r = 65%float /\
      Content.keywordScore r = 80%float /\
      Content.semanticScore r = 70%float /\
      Content.missingSubtopics r = [js "Topic research needed"] /\
      Content.improvedTitle r
      = Some (js "Your topic: Complete Guide & Best Practices | YourBrand")).
Proof.
  intros rawOutput.
  assert (N : forall regexes,
             forallb (fun regex => negb (test regex rawOutput)) regexes = true ->
             noneMatches regexes rawOutput).
  { intros regexes H regex Hin. rewrite forallb_forall in H.
    apply negb_true_iff. now apply H. }
  destruct (proj1 formatters_return_unparsable_capture_kept
              asciiLower asciiUpper rawOutput)
    as ((rt & Et & Hp & Hm & Hs & _)
        & (rc & title & description & Ec & Ht & _ & Hr & Hk & Hsem & Hsub & _
           & Dt & _)).
  split.
  - exists rt. split; [exact Et|].
    split; [apply Hp, N; reflexivity|].
    split; [apply Hm, N; reflexivity|apply Hs, N; reflexivity].
  - exists rc. split; [exact Ec|].
    split; [apply Hr, N; reflexivity|].
    split; [rewrite Hk by (apply N; reflexivity); reflexivity|].
    split; [apply Hsem, N; reflexivity|].
    split; [apply Hsub, N; reflexivity|].
    rewrite Ht, Dt by (apply N; reflexivity). reflexivity.
Defined.
